(** * LebenTestBot: answer resolution, explanation cache and statistics

    A shallow embedding of the Go packages [models], [database], [ai] and
    [bot] of korjavin/lebentestbot, and the properties of the answer
    resolution engine that hold (or fail) on it.

    Conventions of the embedding:
    - Go [int] and [int64] values are [Z].  The program compares and stores
      question numbers and answer indices and parses them with
      [strconv.Atoi]; it does no arithmetic on them, so the only place where
      the 64-bit range shows is [Atoi].  The only sums are of row counts.
    - Go strings are [string] (sequences of bytes).
    - A Go function returning [(v, error)] returns a pair whose last
      component is an [option error]; [None] is Go's [nil].
    - The SQLite file behind [database.DB] is the record [DB] of its two
      tables.  A driver call may fail: every call of the driver takes a
      flag saying whether it does, and the handlers of [bot] draw these
      flags from the [World] they run in.
    - [log.Printf] calls are left out: the log is not observable here. *)

From Stdlib Require Import ZArith Lia Ascii.
From stdpp Require Import gmap strings list fin_maps sorting pretty.

Open Scope Z_scope.

#[local] Set Warnings "-clear-no-such-hyp".

(** ** Go runtime and library helpers *)

Inductive error : Type :=
  | ErrDriver          (* a database/sql call failed *)
  | ErrMarshal         (* json.Marshal failed *)
  | ErrNewRequest      (* http.NewRequestWithContext failed *)
  | ErrDeadline        (* client.Do failed, context deadline exceeded *)
  | ErrTransport       (* client.Do failed otherwise *)
  | ErrReadBody        (* io.ReadAll failed *)
  | ErrStatus (code : Z)
  | ErrUnmarshal       (* json.Unmarshal failed *)
  | ErrNoChoices       (* "no choices in API response" *)
  | ErrSend.           (* the Telegram API rejected a request *)

(** [len(s)] of a slice, as a Go [int]. *)
Definition len {A} (l : list A) : Z := Z.of_nat (length l).

Definition quote : string := String (Ascii.ascii_of_nat 34) EmptyString.
Definition nl : string := String (Ascii.ascii_of_nat 10) EmptyString.

Module strings.

Fixpoint HasPrefix (s prefix : string) : bool :=
  match prefix, s with
  | EmptyString, _ => true
  | String p prefix', String c s' => bool_decide (c = p) && HasPrefix s' prefix'
  | String _ _, EmptyString => false
  end.

Fixpoint drop_bytes (n : nat) (s : string) : string :=
  match n, s with
  | O, _ => s
  | S n', String _ s' => drop_bytes n' s'
  | S _, EmptyString => EmptyString
  end.

Definition TrimPrefix (s prefix : string) : string :=
  if HasPrefix s prefix then drop_bytes (String.length prefix) s else s.

(** [strings.Split(s, sep)] for a separator of one byte. *)
Fixpoint Split (s : string) (sep : Ascii.ascii) : list string :=
  match s with
  | EmptyString => [EmptyString]
  | String c s' =>
      if bool_decide (c = sep) then EmptyString :: Split s' sep
      else match Split s' sep with
           | [] => [String c EmptyString]
           | p :: ps => String c p :: ps
           end
  end.

End strings.

Module strconv.

Definition digit (c : Ascii.ascii) : option Z :=
  let n := Z.of_nat (Ascii.nat_of_ascii c) in
  if (48 <=? n) && (n <=? 57) then Some (n - 48) else None.

Fixpoint digits (acc : Z) (s : string) : option Z :=
  match s with
  | EmptyString => Some acc
  | String c s' =>
      match digit c with
      | Some d => digits (acc * 10 + d) s'
      | None => None
      end
  end.

Definition unsigned (s : string) : option Z :=
  match s with
  | EmptyString => None
  | _ => digits 0 s
  end.

Definition minInt : Z := - 2 ^ 63.
Definition maxInt : Z := 2 ^ 63 - 1.

(** [strconv.Atoi] on a 64-bit platform: an optional sign, then one or
    more decimal digits; a value outside the range of [int] is an error
    ([None] stands for the [*NumError]). *)
Definition Atoi (s : string) : option Z :=
  let signed :=
    match s with
    | String c s' =>
        if bool_decide (c = "-"%char) then Z.opp <$> unsigned s'
        else if bool_decide (c = "+"%char) then unsigned s'
        else unsigned s
    | EmptyString => None
    end in
  match signed with
  | Some n => if (minInt <=? n) && (n <=? maxInt) then Some n else None
  | None => None
  end.

End strconv.

(** [fmt.Sprintf("%d", n)]. *)
Definition itoa (n : Z) : string := pretty n.

(** ** package models *)

Module models.

(** The field [Question] of the Go struct is [QuestionText] here, the
    struct itself keeps the name. *)
Record Question : Type := {
  Number : Z;
  QuestionText : string;
  Answers : list string;
  RightAnswer : Z;
  Category : string;
  Image : string
}.

Record UserActivity : Type := {
  UserID : Z;
  QuestionNumber : Z;
  AnswerNumber : Z;
  Correct : bool;
  Timestamp : Z
}.

End models.
Export models.

(** ** package database *)

Module database.

(** The two tables.  [user_activity] is a list in insertion order (the
    position of a row is its AUTOINCREMENT id); [deepseek_cache] has
    [question_number] as PRIMARY KEY, hence a finite map from it to
    [(response, right_answer)]. *)
Record DB : Type := {
  user_activity : list UserActivity;
  deepseek_cache : gmap Z (string * Z)
}.

Definition empty : DB := {| user_activity := []; deepseek_cache := ∅ |}.

(** [INSERT INTO user_activity (...) VALUES (?, ?, ?, ?, ?)] with
    [time.Now().Unix()] as [now]. *)
Definition SaveUserActivity (fails : bool) (now : Z)
    (userID questionNumber answerNumber : Z) (correct : bool) (db : DB)
    : DB * option error :=
  if fails then (db, Some ErrDriver)
  else
    ({| user_activity :=
          user_activity db ++
            [ {| UserID := userID; QuestionNumber := questionNumber;
                 AnswerNumber := answerNumber; Correct := correct;
                 Timestamp := now |} ];
        deepseek_cache := deepseek_cache db |}, None).

(** [SELECT COUNT( * ) FROM user_activity WHERE user_id = ? AND correct = b] *)
Definition count_rows (userID : Z) (b : bool) (db : DB) : Z :=
  len (filter (λ r, UserID r = userID ∧ Correct r = b) (user_activity db)).

(** The two queries of [GetUserStats], each with the outcome of its
    driver call.  A failing first query returns [0, 0, err]; a failing
    second one leaves [incorrect] at its zero value. *)
Definition GetUserStats (fails1 fails2 : bool) (userID : Z) (db : DB)
    : Z * Z * option error :=
  if fails1 then (0, 0, Some ErrDriver)
  else
    let correct := count_rows userID true db in
    if fails2 then (correct, 0, Some ErrDriver)
    else (correct, count_rows userID false db, None).

(** [INSERT OR REPLACE INTO deepseek_cache (...) VALUES (?, ?, ?)] *)
Definition CacheDeepseekResponse (fails : bool)
    (questionNumber : Z) (response : string) (rightAnswer : Z) (db : DB)
    : DB * option error :=
  if fails then (db, Some ErrDriver)
  else
    ({| user_activity := user_activity db;
        deepseek_cache :=
          <[questionNumber := (response, rightAnswer)]> (deepseek_cache db) |},
     None).

(** [SELECT response, right_answer FROM deepseek_cache WHERE
    question_number = ?].  No row is [sql.ErrNoRows], which the function
    turns into [("", -1, nil)]; any other failure returns the zero values
    of the two variables with the error. *)
Definition GetCachedDeepseekResponse (fails : bool) (questionNumber : Z)
    (db : DB) : string * Z * option error :=
  if fails then ("", 0, Some ErrDriver)
  else
    match deepseek_cache db !! questionNumber with
    | None => ("", -1, None)
    | Some (response, rightAnswer) => (response, rightAnswer, None)
    end.

(** What the caller of [GetCachedDeepseekResponse] sees when there is no
    row for the key. *)
Definition Absent : string * Z * option error := ("", -1, None).

(** Rows of one user answered incorrectly ([WHERE user_id = ? AND correct = 0]). *)
Definition incorrect_rows (userID : Z) (db : DB) : list UserActivity :=
  filter (λ r, UserID r = userID ∧ Correct r = false) (user_activity db).

(** Number of rows with a given [question_number] ([COUNT( * )] of its group). *)
Definition group_count (questionNumber : Z) (rows : list UserActivity) : Z :=
  len (filter (λ r, QuestionNumber r = questionNumber) rows).

(** [GROUP BY question_number]: one [(question_number, count)] per value
    that occurs. *)
Definition group_by_question (rows : list UserActivity) : list (Z * Z) :=
  (λ q, (q, group_count q rows)) <$> remove_dups (QuestionNumber <$> rows).

(** [ORDER BY count DESC] asks for this order between consecutive rows. *)
Definition count_desc (a b : Z * Z) : Prop := a.2 >= b.2.

(** [LIMIT ?]: SQLite puts no bound on the rows when the value is negative. *)
Definition sql_limit {A} (limit : Z) (l : list A) : list A :=
  if limit <? 0 then l else take (Z.to_nat limit) l.

Section order_by.
(** SQLite leaves the order of rows with equal sort keys open, so the
    query is modelled over any function [order_by] that sorts. *)
Variable order_by : list (Z * Z) → list (Z * Z).

Definition top_missed_rows (userID limit : Z) (db : DB) : list (Z * Z) :=
  sql_limit limit (order_by (group_by_question (incorrect_rows userID db))).

(** The loop over the rows keeps [question_number] and drops [count];
    the fields not set have their zero value. *)
Definition GetMostFrequentIncorrectQuestions (fails : bool)
    (userID limit : Z) (db : DB) : list UserActivity * option error :=
  if fails then ([], Some ErrDriver)
  else
    ((λ row, {| UserID := userID; QuestionNumber := row.1;
                AnswerNumber := 0; Correct := false; Timestamp := 0 |})
       <$> top_missed_rows userID limit db, None).
End order_by.

Global Instance count_desc_dec a b : Decision (count_desc a b).
Proof. unfold count_desc. apply _. Defined.

(** A sorting function to run the query with. *)
Definition order_by_merge_sort : list (Z * Z) → list (Z * Z) :=
  merge_sort count_desc.

End database.

(** ** package ai *)

Module ai.

(** What the request to the Deepseek API comes to, in the order in which
    [AnalyzeQuestion] can fail.  [Responded status parsed]: the body was
    read, the server answered [status], and [json.Unmarshal] gave
    [parsed]: [None] when it failed, else the [message.content] of each
    element of [choices]. *)
Inductive api_outcome : Type :=
  | MarshalFailed
  | NewRequestFailed
  | DeadlineExceeded
  | TransportFailed
  | ReadFailed
  | Responded (status : Z) (parsed : option (list string)).

Definition StatusOK : Z := 200.

Definition extractRightAnswerFromContent (content : string)
    (question : Question) : Z :=
  if (RightAnswer question >=? 0)
     && (RightAnswer question <? len (Answers question))
  then RightAnswer question
  else -1.

Definition AnalyzeQuestion (outcome : api_outcome) (question : Question)
    : string * Z * option error :=
  match outcome with
  | MarshalFailed => ("", -1, Some ErrMarshal)
  | NewRequestFailed => ("", -1, Some ErrNewRequest)
  | DeadlineExceeded =>
      ("Sorry, the AI analysis timed out. Please try again later.", -1,
       Some ErrDeadline)
  | TransportFailed => ("", -1, Some ErrTransport)
  | ReadFailed => ("", -1, Some ErrReadBody)
  | Responded status parsed =>
      if negb (status =? StatusOK) then ("", -1, Some (ErrStatus status))
      else match parsed with
           | None => ("", -1, Some ErrUnmarshal)
           | Some [] => ("", -1, Some ErrNoChoices)
           | Some (content :: _) =>
               (content, extractRightAnswerFromContent content question, None)
           end
  end.

End ai.

(** ** package bot *)

Module bot.
Import database ai.

(** The fields of [tgbotapi.CallbackQuery] and [tgbotapi.Message] the
    handlers read: [ID], [From.ID], [Message.Chat.ID], [Data], and
    [From.ID], [Chat.ID], [Text]. *)
Record CallbackQuery : Type := {
  cb_ID : string;
  cb_From : Z;
  cb_Chat : Z;
  cb_Data : string
}.

Record Message : Type := {
  msg_From : Z;
  msg_Chat : Z;
  msg_Text : string
}.

Inductive Update : Type :=
  | UCallback (callback : CallbackQuery)
  | UMessage (message : Message).

(** Requests made to the Telegram API, as the handlers issue them.  The
    choice of a parse mode and the plain-text retry of [sendMessage] and
    [editMessage] belong to the transport and are not part of the event.
    [SendStats] stands for the statistics message, whose text includes a
    percentage computed in [float64]. *)
Inductive UiEvent : Type :=
  | AnswerCallback (callbackID text : string)
  | SendText (chatID : Z) (text : string)
  | SendImage (chatID : Z) (imagePath caption : string)
  | SendKeyboard (chatID : Z) (text : string) (buttons : list (string * string))
  | SendStats (chatID total correct incorrect : Z)
              (challenging : option (list (Z * Z * string)))
  | EditText (chatID messageID : Z) (newText : string).

(** The variables the goroutine of [handleCallback] closes over.
    [rightAnswer], [cachedResponse] and [isCorrect] are variables of the
    handler, which has returned by the time the goroutine runs. *)
Record Closure : Type := {
  c_chatID : Z;
  c_initialMessageID : Z;
  c_question : Question;
  c_questionNum : Z;
  c_answerNum : Z;
  c_userAnswer : string;
  c_rightAnswer : Z;
  c_cachedResponse : string;
  c_isCorrect : bool
}.

(** Code that waits to run: the goroutine of [handleCallback] before its
    cache lookup and before its call of the AI, and [handleHelpCommand]
    before its call of the AI. *)
Inductive Task : Type :=
  | AsyncRecheck (c : Closure)
  | AsyncAnalyze (c : Closure)
  | HelpAnalyze (chatID questionNum : Z) (currentQuestion : Question).

(** What the program does not decide: whether the next driver and
    transport calls fail, what the next requests to Deepseek come to, the
    time, and the next values of [rand.Intn]'s source. *)
Record Env : Type := {
  driver : list bool;
  deepseek : list api_outcome;
  now : Z;
  random : list nat
}.

Record World : Type := {
  db : DB;
  userQuestions : gmap Z Z;
  outbox : list UiEvent;
  analyzed : list Question;  (* arguments of the calls of AnalyzeQuestion *)
  tasks : list Task;
  env : Env
}.

Definition with_db (d : DB) (w : World) : World :=
  {| db := d; userQuestions := userQuestions w; outbox := outbox w;
     analyzed := analyzed w; tasks := tasks w; env := env w |}.
Definition with_userQuestions (m : gmap Z Z) (w : World) : World :=
  {| db := db w; userQuestions := m; outbox := outbox w;
     analyzed := analyzed w; tasks := tasks w; env := env w |}.
Definition with_outbox (o : list UiEvent) (w : World) : World :=
  {| db := db w; userQuestions := userQuestions w; outbox := o;
     analyzed := analyzed w; tasks := tasks w; env := env w |}.
Definition with_analyzed (a : list Question) (w : World) : World :=
  {| db := db w; userQuestions := userQuestions w; outbox := outbox w;
     analyzed := a; tasks := tasks w; env := env w |}.
Definition with_tasks (t : list Task) (w : World) : World :=
  {| db := db w; userQuestions := userQuestions w; outbox := outbox w;
     analyzed := analyzed w; tasks := t; env := env w |}.
Definition with_env (e : Env) (w : World) : World :=
  {| db := db w; userQuestions := userQuestions w; outbox := outbox w;
     analyzed := analyzed w; tasks := tasks w; env := e |}.

(** *** The monad of the handlers: state, and Go's panic *)

Inductive outcome (A : Type) : Type :=
  | Done (a : A)
  | Panicked.
Arguments Done {A} a.
Arguments Panicked {A}.

Definition M (A : Type) : Type := World → outcome A * World.

Definition ret {A} (a : A) : M A := λ w, (Done a, w).
Definition bind {A B} (m : M A) (f : A → M B) : M B := λ w,
  match m w with
  | (Done a, w') => f a w'
  | (Panicked, w') => (Panicked, w')
  end.

Notation "'let*' x := m 'in' k" := (bind m (λ x, k))
  (at level 10, x pattern, m at level 100, k at level 200, only parsing).
Notation "m ;;; k" := (bind m (λ _, k))
  (at level 100, k at level 200, right associativity, only parsing).

Definition panic {A} : M A := λ w, (Panicked, w).
Definition gets {A} (f : World → A) : M A := λ w, (Done (f w), w).
Definition modify (f : World → World) : M unit := λ w, (Done tt, f w).

(** The outcome of the next call whose error the program inspects. *)
Definition draw_failure : M bool := λ w,
  match driver (env w) with
  | [] => (Done false, w)
  | b :: bs =>
      (Done b, with_env {| driver := bs; deepseek := deepseek (env w);
                           now := now (env w); random := random (env w) |} w)
  end.

Definition draw_api : M api_outcome := λ w,
  match deepseek (env w) with
  | [] => (Done TransportFailed, w)
  | o :: os =>
      (Done o, with_env {| driver := driver (env w); deepseek := os;
                           now := now (env w); random := random (env w) |} w)
  end.

Definition draw_random : M nat := λ w,
  match random (env w) with
  | [] => (Done O, w)
  | r :: rs =>
      (Done r, with_env {| driver := driver (env w); deepseek := deepseek (env w);
                           now := now (env w); random := rs |} w)
  end.

(** [s[i]] on a slice: out of range is a run-time panic. *)
Definition index {A} (s : list A) (i : Z) : M A :=
  if (0 <=? i) && (i <? len s) then
    match s !! Z.to_nat i with
    | Some x => ret x
    | None => panic
    end
  else panic.

Definition emit (e : UiEvent) : M unit :=
  modify (λ w, with_outbox (outbox w ++ [e]) w).

Definition go (t : Task) : M unit :=
  modify (λ w, with_tasks (tasks w ++ [t]) w).

(** *** The calls on [b.db], [b.deepseek] and [b.api] *)

Definition db_exec {A} (f : DB → DB * A) : M A := λ w,
  let '(d, a) := f (db w) in (Done a, with_db d w).

Definition db_SaveUserActivity (userID questionNumber answerNumber : Z)
    (correct : bool) : M (option error) :=
  let* fails := draw_failure in
  let* t := gets (λ w, now (env w)) in
  db_exec (SaveUserActivity fails t userID questionNumber answerNumber correct).

Definition db_GetUserStats (userID : Z) : M (Z * Z * option error) :=
  let* fails1 := draw_failure in
  if fails1 then gets (λ w, GetUserStats true false userID (db w))
  else
    let* fails2 := draw_failure in
    gets (λ w, GetUserStats false fails2 userID (db w)).

Definition db_CacheDeepseekResponse (questionNumber : Z) (response : string)
    (rightAnswer : Z) : M (option error) :=
  let* fails := draw_failure in
  db_exec (CacheDeepseekResponse fails questionNumber response rightAnswer).

Definition db_GetCachedDeepseekResponse (questionNumber : Z)
    : M (string * Z * option error) :=
  let* fails := draw_failure in
  gets (λ w, GetCachedDeepseekResponse fails questionNumber (db w)).

Definition deepseek_AnalyzeQuestion (question : Question)
    : M (string * Z * option error) :=
  modify (λ w, with_analyzed (analyzed w ++ [question]) w) ;;;
  let* o := draw_api in
  ret (AnalyzeQuestion o question).

Definition sendMessage (chatID : Z) (text : string) : M unit :=
  emit (SendText chatID text).

Definition editMessage (chatID messageID : Z) (newText : string) : M unit :=
  emit (EditText chatID messageID newText).

Definition sendCallbackResponse (callbackID text : string) : M unit :=
  emit (AnswerCallback callbackID text).

(** [b.api.Send(tgbotapi.NewMessage(chatID, text))] where the caller
    looks at the result: the message handle and the error.  The handle
    of a message is its position among the requests made. *)
Definition api_Send (chatID : Z) (text : string) : M (Z * option error) :=
  let* fails := draw_failure in
  if fails then ret (0, Some ErrSend)
  else
    let* id := gets (λ w, len (outbox w)) in
    emit (SendText chatID text) ;;;
    ret (id, None).


(** *** The handlers *)

Definition cmdStart : string := "start".
Definition cmdNext : string := "next".
Definition cmdHelp : string := "help".
Definition cmdStat : string := "stat".
Definition callbackPrefix : string := "answer:".

(** The loop of [loadQuestions] that drops the questions numbered -1. *)
Definition validQuestions (questions : list Question) : list Question :=
  foldl (λ valid q, if bool_decide (Number q ≠ -1) then valid ++ [q] else valid)
        [] questions.

(** [file]: what [os.ReadFile] and [json.Unmarshal] come to: [None] when
    the file cannot be read, [Some None] when it is not the JSON of a list
    of questions, else the list. *)
Definition loadQuestions (file : option (option (list Question)))
    : option (list Question) :=
  match file with
  | None => None
  | Some None => None
  | Some (Some questions) => Some (validQuestions questions)
  end.

(** The search loops of [handleCallback] and [handleHelpCommand]: the
    first question with the number. *)
Fixpoint find_question (questions : list Question) (questionNum : Z)
    : option Question :=
  match questions with
  | [] => None
  | q :: rest =>
      if bool_decide (Number q = questionNum) then Some q
      else find_question rest questionNum
  end.

(** The text shown for answer [i] of a question; the handlers write this
    out three times: ["Unknown"], replaced by [question.Answers[i]] when
    [i >= 0 && i < len(question.Answers)]. *)
Definition answerText (question : Question) (i : Z) : M string :=
  if (i >=? 0) && (i <? len (Answers question))
  then index (Answers question) i
  else ret "Unknown".

(** The question number and the answer number of callback data
    [answer:<question>:<answer>], as [handleCallback] extracts them. *)
Definition parseCallback (data : string) : option (Z * Z) :=
  if negb (strings.HasPrefix data callbackPrefix) then None
  else
    match strings.Split (strings.TrimPrefix data callbackPrefix) ":"%char with
    | [p0; p1] =>
        match strconv.Atoi p0 with
        | None => None
        | Some questionNum =>
            match strconv.Atoi p1 with
            | None => None
            | Some answerNum => Some (questionNum, answerNum)
            end
        end
    | _ => None
    end.

Definition correctReply : string :=
  "✅ Correct! Well done!" +:+ nl +:+ nl +:+
  "Use /help to get more information about this question or /next for a new question.".

Definition incorrectReply (correctAnswerText : string) : string :=
  "❌ Sorry, that's not correct. The right answer is: " +:+ correctAnswerText
  +:+ nl +:+ nl +:+
  "Use /help to get more information or /next for a new question.".

Definition analyzingText (userAnswer : string) : string :=
  "Your answer: " +:+ quote +:+ userAnswer +:+ quote +:+ nl +:+ nl +:+
  "Analyzing...".

Definition unavailableText (userAnswer : string) : string :=
  "Your answer: " +:+ quote +:+ userAnswer +:+ quote +:+ nl +:+ nl +:+
  "I couldn't determine the correct answer at this time. Please use /help for more information about this question.".

Definition analysisText (userAnswer resp : string) : string :=
  "Your answer: " +:+ quote +:+ userAnswer +:+ quote +:+ nl +:+ nl +:+
  resp +:+ nl +:+ nl +:+ "Use /next to practice with a new question".

Definition verdictText (userAnswer correctnessText cachedResponse : string)
    : string :=
  "Your answer: " +:+ quote +:+ userAnswer +:+ quote +:+ nl +:+ nl +:+
  correctnessText +:+ nl +:+ nl +:+ cachedResponse +:+ nl +:+ nl +:+
  "Use /next to practice with a new question".

Definition is_nil (err : option error) : bool :=
  match err with None => true | Some _ => false end.

Definition nonempty (s : string) : bool := negb (bool_decide (s = "")).

(** The end of the goroutine of [handleCallback] ("Now determine if the
    answer was correct"), given the values that [rightAnswer] and
    [cachedResponse] have at that point. *)
Definition asyncVerdict (c : Closure) (rightAnswer : Z)
    (cachedResponse : string) : M unit :=
  if negb (rightAnswer =? -1) then
    let isCorrect := (c_answerNum c =? rightAnswer) in
    let* correctnessText :=
      (if isCorrect
       then ret "✅ Based on my analysis, your answer was correct!"
       else
         let* correctAnswerText := answerText (c_question c) rightAnswer in
         ret ("❌ Based on my analysis, the correct answer is: "
              +:+ correctAnswerText)) in
    if nonempty cachedResponse then
      editMessage (c_chatID c) (c_initialMessageID c)
        (verdictText (c_userAnswer c) correctnessText cachedResponse)
    else ret tt
  else ret tt.

(** The goroutine up to the point where it would call the AI: the second
    cache lookup.  The result is the task that remains, if any. *)
Definition asyncRecheck (c : Closure) : M (option Task) :=
  let* (cachedResp, cachedRightAnswer, err) :=
    db_GetCachedDeepseekResponse (c_questionNum c) in
  if is_nil err && negb (cachedRightAnswer =? -1) && nonempty cachedResp then
    asyncVerdict c cachedRightAnswer cachedResp ;;;
    ret None
  else if bool_decide (c_cachedResponse c = "") then
    ret (Some (AsyncAnalyze c))
  else
    asyncVerdict c (c_rightAnswer c) (c_cachedResponse c) ;;;
    ret None.

(** The goroutine from its call of the AI on. *)
Definition asyncAnalyze (c : Closure) : M unit :=
  let* (resp, rightAns, err) := deepseek_AnalyzeQuestion (c_question c) in
  match err with
  | Some _ =>
      editMessage (c_chatID c) (c_initialMessageID c)
        (unavailableText (c_userAnswer c))
  | None =>
      editMessage (c_chatID c) (c_initialMessageID c)
        (analysisText (c_userAnswer c) resp) ;;;
      db_CacheDeepseekResponse (c_questionNum c) resp rightAns ;;;
      asyncVerdict c rightAns resp
  end.

(** The second half of [handleHelpCommand], from its call of the AI on. *)
Definition helpAnalyze (chatID questionNum : Z) (currentQuestion : Question)
    : M unit :=
  let* (response, rightAnswer, err) :=
    deepseek_AnalyzeQuestion currentQuestion in
  match err with
  | Some _ =>
      sendMessage chatID
        "Sorry, I couldn't analyze this question. Please try again later."
  | None =>
      db_CacheDeepseekResponse questionNum response rightAnswer ;;;
      sendMessage chatID
        ("Here's some help with this question:" +:+ nl +:+ nl +:+ response)
  end.

(** [filepath.Join(dir, file)] for a file name that needs no cleaning. *)
Definition filepath_Join (dir file : string) : string :=
  dir +:+ "/" +:+ file.

Definition sendImage (chatID : Z) (imagePath caption : string) : M unit :=
  emit (SendImage chatID imagePath caption) ;;;
  let* fails := draw_failure in
  if fails then
    sendMessage chatID
      (caption +:+ nl +:+ nl +:+ "(Note: Image could not be sent. Path: "
       +:+ imagePath +:+ ")")
  else ret tt.

Definition callbackData (questionNumber i : Z) : string :=
  callbackPrefix +:+ itoa questionNumber +:+ ":" +:+ itoa i.

Section handlers.
(** [b.questions], fixed when the bot is created. *)
Variable questions : list Question.
(** The order SQLite gives to the rows of the statistics query. *)
Variable order_by : list (Z * Z) → list (Z * Z).

Definition sendRandomQuestion (chatID : Z) : M unit :=
  if len questions =? 0 then
    sendMessage chatID "No questions available. Please try again later."
  else
    let* r := draw_random in
    let randomIndex := Z.of_nat r `mod` len questions in
    let* question := index questions randomIndex in
    let userID := chatID in
    modify (λ w, with_userQuestions
                   (<[userID := Number question]> (userQuestions w)) w) ;;;
    let messageText :=
      if nonempty (Image question)
      then "Question #" +:+ itoa (Number question) +:+ ":"
      else "Question #" +:+ itoa (Number question) +:+ ": "
           +:+ QuestionText question in
    (if nonempty (Image question)
     then sendImage chatID (filepath_Join "assets" (Image question)) messageText
     else sendMessage chatID messageText) ;;;
    let keyboard :=
      imap (λ i answer, (answer, callbackData (Number question) (Z.of_nat i)))
           (Answers question) in
    let keyboard :=
      if len keyboard =? 0
      then [("Not sure (no options provided)",
             callbackData (Number question) 0)]
      else keyboard in
    emit (SendKeyboard chatID "Please select your answer:" keyboard).

Definition welcomeText : string :=
  "Welcome to LebenTestBot! " +:+ nl +:+ nl +:+
  "This bot will help you practice for your German test by presenting questions from the test material."
  +:+ nl +:+ nl +:+ "Commands:" +:+ nl +:+
  "/start - Start the bot and get a random question" +:+ nl +:+
  "/next - Get another random question" +:+ nl +:+
  "/help - Get assistance with the current question" +:+ nl +:+
  "/stat - View your statistics" +:+ nl +:+ nl +:+
  "Let's begin with your first question!".

Definition handleStartCommand (message : Message) : M unit :=
  sendMessage (msg_Chat message) welcomeText ;;;
  sendRandomQuestion (msg_Chat message).

Definition handleNextCommand (message : Message) : M unit :=
  sendRandomQuestion (msg_Chat message).

(** [handleHelpCommand] up to its call of the AI.  The handler blocks
    the polling loop during that call while goroutines of earlier
    callbacks go on, so its second half, [helpAnalyze], is resumed as a
    task. *)
Definition handleHelpCommand (message : Message) : M unit :=
  let* session := gets (λ w, userQuestions w !! msg_From message) in
  match session with
  | None =>
      sendMessage (msg_Chat message)
        "Please use /start to get your first question before asking for help."
  | Some questionNum =>
      match find_question questions questionNum with
      | None =>
          sendMessage (msg_Chat message)
            "Sorry, I couldn't find your current question. Please use /next to get a new question."
      | Some currentQuestion =>
          let* (cachedResponse, _, _) :=
            db_GetCachedDeepseekResponse questionNum in
          if nonempty cachedResponse then
            sendMessage (msg_Chat message)
              ("Here's some help with this question:" +:+ nl +:+ nl
               +:+ cachedResponse)
          else
            sendMessage (msg_Chat message)
              "Analyzing this question, please wait a moment..." ;;;
            go (HelpAnalyze (msg_Chat message) questionNum currentQuestion)
      end
  end.

(** The entry of the list of challenging questions for the [i]-th row
    of the query, if a question has the number of the row. *)
Definition challengingLine (i : nat) (q : UserActivity)
    : option (Z * Z * string) :=
  match find_question questions (QuestionNumber q) with
  | None => None
  | Some question =>
      let questionText := QuestionText question in
      let questionText :=
        if 50 <? Z.of_nat (String.length questionText)
        then String.substring 0 47 questionText +:+ "..."
        else questionText in
      Some (Z.of_nat i + 1, Number question, questionText)
  end.

Definition handleStatCommand (message : Message) : M unit :=
  let* (correct, incorrect, err) := db_GetUserStats (msg_From message) in
  match err with
  | Some _ =>
      sendMessage (msg_Chat message)
        "Sorry, I couldn't retrieve your statistics. Please try again later."
  | None =>
      let total := correct + incorrect in
      let* challenging :=
        (if 0 <? total then
           let* fails := draw_failure in
           let* (incorrectQuestions, _) :=
             gets (λ w, GetMostFrequentIncorrectQuestions order_by fails
                          (msg_From message) 3 (db w)) in
           if 0 <? len incorrectQuestions
           then ret (Some (omap id (imap challengingLine incorrectQuestions)))
           else ret None
         else ret None) in
      emit (SendStats (msg_Chat message) total correct incorrect challenging)
  end.

(** [handleCallback] from the point where the question is found. *)
Definition resolveAnswer (callback : CallbackQuery) (question : Question)
    (questionNum answerNum : Z) : M unit :=
  let cachedResponse := "" in
  let rightAnswer := RightAnswer question in
  let isCorrect := false in
  let* (cachedResp, cachedRightAnswer, err) :=
    db_GetCachedDeepseekResponse questionNum in
  let '(rightAnswer, cachedResponse) :=
    if is_nil err && negb (cachedRightAnswer =? -1)
    then (cachedRightAnswer, cachedResp)
    else (rightAnswer, cachedResponse) in
  let isCorrect :=
    if negb (rightAnswer =? -1) then (answerNum =? rightAnswer)
    else isCorrect in
  db_SaveUserActivity (cb_From callback) questionNum answerNum isCorrect ;;;
  if negb (rightAnswer =? -1) then
    if isCorrect then sendMessage (cb_Chat callback) correctReply
    else
      let* correctAnswerText := answerText question rightAnswer in
      sendMessage (cb_Chat callback) (incorrectReply correctAnswerText)
  else
    let* userAnswer := answerText question answerNum in
    let* (initialMessageID, err) :=
      api_Send (cb_Chat callback) (analyzingText userAnswer) in
    match err with
    | Some _ => ret tt
    | None =>
        go (AsyncRecheck
              {| c_chatID := cb_Chat callback;
                 c_initialMessageID := initialMessageID;
                 c_question := question;
                 c_questionNum := questionNum;
                 c_answerNum := answerNum;
                 c_userAnswer := userAnswer;
                 c_rightAnswer := rightAnswer;
                 c_cachedResponse := cachedResponse;
                 c_isCorrect := isCorrect |})
    end.

Definition handleCallback (callback : CallbackQuery) : M unit :=
  match parseCallback (cb_Data callback) with
  | None => ret tt
  | Some (questionNum, answerNum) =>
      sendCallbackResponse (cb_ID callback) "Processing your answer..." ;;;
      match find_question questions questionNum with
      | None =>
          sendMessage (cb_Chat callback)
            "Sorry, this question is no longer available."
      | Some question => resolveAnswer callback question questionNum answerNum
      end
  end.

Definition handleMessage (message : Message) : M unit :=
  if strings.HasPrefix (msg_Text message) ("/" +:+ cmdStart)
  then handleStartCommand message
  else if strings.HasPrefix (msg_Text message) ("/" +:+ cmdNext)
  then handleNextCommand message
  else if strings.HasPrefix (msg_Text message) ("/" +:+ cmdHelp)
  then handleHelpCommand message
  else if strings.HasPrefix (msg_Text message) ("/" +:+ cmdStat)
  then handleStatCommand message
  else
    sendMessage (msg_Chat message)
      "Unknown command. Use /start to begin, /next for a new question, or /help for assistance.".

(** The body of the loop of [Start]. *)
Definition handleUpdate (update : Update) : M unit :=
  match update with
  | UCallback callback => handleCallback callback
  | UMessage message => handleMessage message
  end.

(** *** Scheduling *)

Definition run_task (t : Task) : M (option Task) :=
  match t with
  | AsyncRecheck c => asyncRecheck c
  | AsyncAnalyze c => asyncAnalyze c ;;; ret None
  | HelpAnalyze chatID questionNum currentQuestion =>
      helpAnalyze chatID questionNum currentQuestion ;;; ret None
  end.

(** Task [i] runs up to its next blocking call.  A goroutine that
    panics is stopped by its deferred [recover]. *)
Definition resume (i : nat) (w : World) : World :=
  match tasks w !! i with
  | None => w
  | Some t =>
      match run_task t (with_tasks (delete i (tasks w)) w) with
      | (Done (Some t'), w') => with_tasks (tasks w' ++ [t']) w'
      | (Done None, w') => w'
      | (Panicked, w') => w'
      end
  end.

(** The process after a restart on the same database file. *)
Definition restart (w : World) : World :=
  with_tasks [] (with_userQuestions ∅ w).

Inductive step : World → World → Prop :=
  | step_update update w w' :
      handleUpdate update w = (Done tt, w') → step w w'
  | step_task i w :
      is_Some (tasks w !! i) → step w (resume i w)
  | step_env e w :
      step w (with_env e w)
  | step_restart w :
      step w (restart w).

(** A process started on a new database. *)
Definition fresh (w : World) : Prop :=
  db w = database.empty ∧ userQuestions w = ∅ ∧ outbox w = []
  ∧ analyzed w = [] ∧ tasks w = [].

Definition reachable (w : World) : Prop :=
  ∃ w0, fresh w0 ∧ rtc step w0 w.

End handlers.

End bot.

(** ** package config *)

Module config.

Record Config : Type := {
  BotToken : string;
  DeepseekAPIKey : string;
  DatabasePath : string
}.

(** The two errors of [Load]. *)
Inductive load_error : Type :=
  | BotTokenRequired
  | DeepseekAPIKeyRequired.

(** [os.Getenv] on an environment: the value of the variable, the empty
    string when it is not set. *)
Definition Getenv (environ : gmap string string) (key : string) : string :=
  default "" (environ !! key).

Definition Load (environ : gmap string string) : Config + load_error :=
  let botToken := Getenv environ "BOT_TOKEN" in
  if bool_decide (botToken = "") then inr BotTokenRequired
  else
    let deepseekAPIKey := Getenv environ "DEEPSEEK_API_KEY" in
    if bool_decide (deepseekAPIKey = "") then inr DeepseekAPIKeyRequired
    else
      let dbPath := Getenv environ "DB_PATH" in
      let dbPath :=
        if bool_decide (dbPath = "") then "./data/lebentest.db" else dbPath in
      inl {| BotToken := botToken; DeepseekAPIKey := deepseekAPIKey;
             DatabasePath := dbPath |}.

End config.

(** ** package database: the selections of questions to ask *)

Module selection.
Import database.

(** [SELECT DISTINCT question_number FROM user_activity WHERE user_id = ?] *)
Definition answered_numbers (userID : Z) (db : DB) : list Z :=
  remove_dups
    (QuestionNumber <$> filter (λ r, UserID r = userID) (user_activity db)).

(** The loop over the rows that fills the [map[int]bool]. *)
Definition answered_set (numbers : list Z) : gmap Z bool :=
  foldl (λ answeredQuestions questionNumber,
           <[questionNumber := true]> answeredQuestions) ∅ numbers.

(** [m[k]] on a [map[int]bool]: [false] for a key that is not there. *)
Definition map_bool (m : gmap Z bool) (k : Z) : bool := default false (m !! k).

Definition GetUnansweredQuestions (fails : bool) (userID : Z)
    (allQuestions : list Question) (db : DB)
    : list Question * option error :=
  if fails then ([], Some ErrDriver)
  else
    let answeredQuestions := answered_set (answered_numbers userID db) in
    (foldl (λ unansweredQuestions question,
              if negb (map_bool answeredQuestions (Number question))
              then unansweredQuestions ++ [question]
              else unansweredQuestions)
           [] allQuestions,
     None).

(** [MAX(timestamp)] of the rows of a group; a group has a row. *)
Definition max_timestamp (questionNumber : Z) (rows : list UserActivity) : Z :=
  match Timestamp <$> filter (λ r, QuestionNumber r = questionNumber) rows with
  | [] => 0
  | t :: ts => foldl Z.max t ts
  end.

(** [SELECT question_number, MAX(timestamp) as last_answered FROM
    user_activity WHERE user_id = ? GROUP BY question_number].  The rows
    are stored in a Go map, so the [ORDER BY] of the query has no effect
    and is left out. *)
Definition last_answered_rows (userID : Z) (db : DB) : list (Z * Z) :=
  let rows := filter (λ r, UserID r = userID) (user_activity db) in
  (λ qn, (qn, max_timestamp qn rows)) <$> remove_dups (QuestionNumber <$> rows).

Definition lastAnswered_map (rows : list (Z * Z)) : gmap Z Z :=
  foldl (λ lastAnswered row, <[row.1 := row.2]> lastAnswered) ∅ rows.

(** The loop that fills [questionMap]: a later question replaces an earlier
    one with the same number. *)
Definition questionMap_of (allQuestions : list Question) : gmap Z Question :=
  foldl (λ questionMap q, <[Number q := q]> questionMap) ∅ allQuestions.

(** The order [sort.Slice] is called with: by timestamp, oldest first. *)
Definition older (a b : Question * Z) : Prop := a.2 ≤ b.2.

Section unordered.
(** Go iterates over a map in an order it does not specify, and
    [sort.Slice] is not stable: the function is modelled over any order of
    iteration and any sorting function. *)
Variable range_order : list (Z * Z) → list (Z * Z).
Variable sort_Slice : list (Question * Z) → list (Question * Z).

Definition GetLeastRecentlyAnsweredQuestions (fails : bool) (userID : Z)
    (allQuestions : list Question) (db : DB)
    : list Question * option error :=
  if fails then ([], Some ErrDriver)
  else
    let lastAnswered := lastAnswered_map (last_answered_rows userID db) in
    let questionMap := questionMap_of allQuestions in
    let questionsWithTime :=
      foldl (λ questionsWithTime entry,
               match questionMap !! entry.1 with
               | Some q => questionsWithTime ++ [(q, entry.2)]
               | None => questionsWithTime
               end)
            [] (range_order (map_to_list lastAnswered)) in
    (fst <$> sort_Slice questionsWithTime, None).
End unordered.

Global Instance older_dec a b : Decision (older a b).
Proof. unfold older. apply _. Defined.

(** An order of iteration and a sorting function to run the selection with. *)
Definition sort_Slice_merge : list (Question * Z) → list (Question * Z) :=
  merge_sort older.

End selection.

(** ** package bot: formatting of the messages *)

Module markdown.

Definition backslash : ascii := Ascii.ascii_of_nat 92.
Definition fence : string := "```".

(** [strings.Contains]. *)
Fixpoint Contains (s substr : string) : bool :=
  strings.HasPrefix s substr
  || match s with
     | EmptyString => false
     | String _ s' => Contains s' substr
     end.

(** [strings.Split(s, sep)] for a separator that is not empty: the pieces
    between the occurrences of [sep], found from the left and not
    overlapping.  [skip] counts the bytes of an occurrence still to pass. *)
Fixpoint split_from (sep : string) (skip : nat) (s : string) : list string :=
  match s with
  | EmptyString => [EmptyString]
  | String c s' =>
      match skip with
      | S k => split_from sep k s'
      | O =>
          if strings.HasPrefix s sep
          then EmptyString :: split_from sep (String.length sep - 1) s'
          else match split_from sep 0 s' with
               | [] => [String c EmptyString]
               | p :: ps => String c p :: ps
               end
      end
  end.

Definition Split (s sep : string) : list string := split_from sep 0 s.

(** [strings.Join]. *)
Fixpoint Join (elems : list string) (sep : string) : string :=
  match elems with
  | [] => ""
  | [e] => e
  | e :: rest => e +:+ sep +:+ Join rest sep
  end.

(** [strings.ReplaceAll(s, old, new)] for an [old] of one byte. *)
Fixpoint ReplaceAll (s : string) (old : ascii) (new : string) : string :=
  match s with
  | EmptyString => EmptyString
  | String c s' =>
      (if bool_decide (c = old) then new else String c EmptyString)
      +:+ ReplaceAll s' old new
  end.

Definition specialChars : list ascii :=
  ["_"; "*"; "["; "]"; "("; ")"; "~"; "`"; ">"; "#"; "+"; "-"; "="; "|";
   "{"; "}"; "."; "!"]%char.

(** The inner loop of [escapeMarkdown] on one part. *)
Definition escape_part (part : string) : string :=
  foldl (λ part char,
           ReplaceAll part char (String backslash (String char EmptyString)))
        part specialChars.

Definition escapeMarkdown (text : string) : string :=
  let parts := Split text fence in
  let parts :=
    imap (λ i part, if Nat.even i then escape_part part else part) parts in
  Join parts fence.

(** The test of [sendMessage] and [editMessage] for markdown syntax. *)
Definition looksLikeMarkdown (text : string) : bool :=
  Contains text "```" || Contains text "**" || Contains text "*"
  || Contains text "##" || Contains text "#" || Contains text "`".

Inductive ParseMode : Type :=
  | ModePlain
  | ModeMarkdownV2
  | ModeHTML.

(** A request to send or edit a text: the text and its parse mode. *)
Record Request : Type := {
  r_text : string;
  r_mode : ParseMode
}.

(** The requests [sendMessage] makes for a text: the message, and the
    plain text again when the first request fails in markdown mode. *)
Definition sendMessage_requests (fails : bool) (text : string) : list Request :=
  let msg :=
    if looksLikeMarkdown text
    then {| r_text := text; r_mode := ModeMarkdownV2 |}
    else {| r_text := text; r_mode := ModeHTML |} in
  msg ::
    (if fails
     then match r_mode msg with
          | ModeMarkdownV2 => [ {| r_text := text; r_mode := ModePlain |} ]
          | _ => []
          end
     else []).

(** The requests [editMessage] makes for a new text. *)
Definition editMessage_requests (fails : bool) (newText : string)
    : list Request :=
  let edit :=
    if looksLikeMarkdown newText
    then {| r_text := escapeMarkdown newText; r_mode := ModeMarkdownV2 |}
    else {| r_text := newText; r_mode := ModeHTML |} in
  edit ::
    (if fails
     then match r_mode edit with
          | ModeMarkdownV2 => [ {| r_text := newText; r_mode := ModePlain |} ]
          | _ => []
          end
     else []).

End markdown.

(** * Notions used in the statements *)

(** The database after the activities [acts] were recorded on [d], one
    successful [SaveUserActivity] each, in the order of the list. *)
Definition record_all (acts : list UserActivity) (d : database.DB) : database.DB :=
  foldl (λ d a, (database.SaveUserActivity false (Timestamp a) (UserID a)
                   (QuestionNumber a) (AnswerNumber a) (Correct a) d).1)
        d acts.

(** How often a user has answered a question incorrectly. *)
Definition incorrect_count (userID questionNumber : Z) (d : database.DB) : Z :=
  len (filter (λ r, UserID r = userID ∧ QuestionNumber r = questionNumber
                    ∧ Correct r = false)
              (database.user_activity d)).

(** A cache write for question number [k] with the result of an analysis of
    the question the handlers find under [k]. *)
Definition write_sound (questions : list Question) (k : Z) (response : string)
    (i : Z) : Prop :=
  ∃ q, bot.find_question questions k = Some q
       ∧ i = ai.extractRightAnswerFromContent response q.

(** Every resolved index in the cache is the in-range [RightAnswer] of the
    question found under the key. *)
Definition cache_sound (questions : list Question) (d : database.DB) : Prop :=
  ∀ k response i,
    database.deepseek_cache d !! k = Some (response, i) → i ≠ -1 →
    ∃ q, bot.find_question questions k = Some q
         ∧ i = RightAnswer q ∧ 0 ≤ i < len (Answers q).

(** A waiting task holds the question found under its question number. *)
Definition task_sound (questions : list Question) (t : bot.Task) : Prop :=
  match t with
  | bot.AsyncRecheck c | bot.AsyncAnalyze c =>
      bot.find_question questions (bot.c_questionNum c) = Some (bot.c_question c)
  | bot.HelpAnalyze _ questionNum currentQuestion =>
      bot.find_question questions questionNum = Some currentQuestion
  end.

Definition consistent (questions : list Question) (w : bot.World) : Prop :=
  cache_sound questions (bot.db w)
  ∧ Forall (task_sound questions) (bot.tasks w).

(** [w'] differs from [w] at most in the requests sent, the session map and
    the environment. *)
Definition same_state (w w' : bot.World) : Prop :=
  bot.db w' = bot.db w ∧ bot.tasks w' = bot.tasks w
  ∧ bot.analyzed w' = bot.analyzed w.

(** A computation that ends without a panic and without touching the
    database, the tasks or the AI. *)
Definition calm {A} (m : bot.M A) : Prop :=
  ∀ w, ∃ a w', m w = (bot.Done a, w') ∧ same_state w w'.

(** The outcome of the [n]-th next call that can fail, counting from 0. *)
Definition failure (n : nat) (w : bot.World) : bool :=
  default false (bot.driver (bot.env w) !! n).

(** The environment after [n] such calls. *)
Definition after_calls (n : nat) (w : bot.World) : bot.World :=
  bot.with_env
    {| bot.driver := drop n (bot.driver (bot.env w));
       bot.deepseek := bot.deepseek (bot.env w);
       bot.now := bot.now (bot.env w);
       bot.random := bot.random (bot.env w) |} w.

(** Activities of user 1 with 5, 5, 2 and 1 incorrect answers to the
    questions 1 to 4, among correct answers and answers of user 2. *)
Definition stats_example : database.DB :=
  record_all
    (((λ q, {| UserID := 1; QuestionNumber := q; AnswerNumber := 0;
               Correct := false; Timestamp := 0 |})
        <$> [1; 2; 3; 1; 2; 1; 4; 2; 1; 2; 3; 1; 2])
     ++ [ {| UserID := 1; QuestionNumber := 3; AnswerNumber := 1;
             Correct := true; Timestamp := 0 |};
          {| UserID := 2; QuestionNumber := 4; AnswerNumber := 2;
             Correct := false; Timestamp := 0 |} ])
    database.empty.

(** The index [handleCallback] judges an answer against: the cached index
    when the cache lookup succeeds and finds one other than -1, else the
    [RightAnswer] of the question. *)
Definition effective_index (fails : bool) (questionNum : Z)
    (question : Question) (d : database.DB) : Z :=
  match database.GetCachedDeepseekResponse fails questionNum d with
  | (_, cachedRightAnswer, None) =>
      if cachedRightAnswer =? -1 then RightAnswer question else cachedRightAnswer
  | (_, _, Some _) => RightAnswer question
  end.

(** The text shown for answer [i]: the answer, or "Unknown" out of range. *)
Definition shown (question : Question) (i : Z) : string :=
  if bool_decide (0 ≤ i < len (Answers question))
  then default "Unknown" (Answers question !! Z.to_nat i)
  else "Unknown".

(** What a task that calls the AI does to the database: nothing, or one
    cache write of a result of the analysis. *)
Definition analysis_stored (question : Question) (k : Z) (d d' : database.DB) : Prop :=
  d' = d
  ∨ ∃ o fails response i,
      ai.AnalyzeQuestion o question = (response, i, None)
      ∧ d' = (database.CacheDeepseekResponse fails k response i d).1.

(** What a handler of the loop does: it ends without a panic, calls no AI,
    leaves the cache as it is, and starts at most one task, which holds the
    question found under its number. *)
Definition handler_effect (questions : list Question) (w w' : bot.World) : Prop :=
  database.deepseek_cache (bot.db w') = database.deepseek_cache (bot.db w)
  ∧ bot.analyzed w' = bot.analyzed w
  ∧ (bot.tasks w' = bot.tasks w
     ∨ ∃ t, task_sound questions t ∧ bot.tasks w' = bot.tasks w ++ [t]).

(** The cache after a step: as before, or with one entry written from an
    analysis of the question found under its key. *)
Definition cache_moved (questions : list Question) (d d' : database.DB) : Prop :=
  database.deepseek_cache d' = database.deepseek_cache d
  ∨ ∃ k response i,
      write_sound questions k response i
      ∧ database.deepseek_cache d' = <[k := (response, i)]> (database.deepseek_cache d).

(** Runs of the process, for examples: the loop handles an update, task [i]
    is resumed, the environment changes, the process restarts. *)
Inductive Move : Type :=
  | Deliver (update : bot.Update)
  | Run (i : nat)
  | Environment (e : bot.Env)
  | Restart.

Definition move (questions : list Question)
    (order_by : list (Z * Z) → list (Z * Z)) (w : bot.World) (m : Move)
    : bot.World :=
  match m with
  | Deliver update => (bot.handleUpdate questions order_by update w).2
  | Run i => bot.resume i w
  | Environment e => bot.with_env e w
  | Restart => bot.restart w
  end.

Definition play (questions : list Question)
    (order_by : list (Z * Z) → list (Z * Z)) (moves : list Move)
    (w : bot.World) : bot.World :=
  foldl (move questions order_by) w moves.

(** Three questions: one without a known answer, one with, and one without
    answers whose right answer is given as 0. *)
Definition question5 : Question :=
  {| Number := 5; QuestionText := "Q5"; Answers := ["A"; "B"; "C"];
     RightAnswer := -1; Category := "history"; Image := "" |}.
Definition question6 : Question :=
  {| Number := 6; QuestionText := "Q6"; Answers := ["A"; "B"; "C"];
     RightAnswer := 2; Category := "history"; Image := "" |}.
Definition question7 : Question :=
  {| Number := 7; QuestionText := "Q7"; Answers := [];
     RightAnswer := 0; Category := "history"; Image := "" |}.
Definition example_questions : list Question :=
  [question5; question6; question7].

(** A process started on a new database in a given environment. *)
Definition started (e : bot.Env) : bot.World :=
  {| bot.db := database.empty; bot.userQuestions := ∅; bot.outbox := [];
     bot.analyzed := []; bot.tasks := []; bot.env := e |}.

(** An environment in which no call fails and the AI answers with the given
    contents, one per request. *)
Definition answering (contents : list string) : bot.Env :=
  {| bot.driver := [];
     bot.deepseek := (λ c, ai.Responded 200 (Some [c])) <$> contents;
     bot.now := 1700000000;
     bot.random := [1%nat] |}.

Definition press (userID : Z) (data : string) : bot.Update :=
  bot.UCallback {| bot.cb_ID := "cb"; bot.cb_From := userID;
                   bot.cb_Chat := userID; bot.cb_Data := data |}.

Definition command (userID : Z) (text : string) : bot.Update :=
  bot.UMessage {| bot.msg_From := userID; bot.msg_Chat := userID;
                  bot.msg_Text := text |}.

(** The activity [handleCallback] records for a callback. *)
Definition activity_of (callback : bot.CallbackQuery) (questionNum answerNum : Z)
    (correct : bool) (w : bot.World) : UserActivity :=
  {| UserID := bot.cb_From callback; QuestionNumber := questionNum;
     AnswerNumber := answerNum; Correct := correct;
     Timestamp := bot.now (bot.env w) |}.

Import database ai bot.
Import selection markdown config.

(** ** Notions of the further properties *)

(** The bytes of a string all pass a test. *)
Fixpoint all_bytes (P : ascii → bool) (s : string) : bool :=
  match s with
  | EmptyString => true
  | String c s' => P c && all_bytes P s'
  end.

(** The byte is a decimal digit. *)
Definition is_digit (c : ascii) : bool :=
  match strconv.digit c with Some _ => true | None => false end.

(** The byte is not the separator of the callback data. *)
Definition not_colon (c : ascii) : bool := negb (bool_decide (c = ":"%char)).

(** A question whose number is a Go [int] and whose answers fit a slice. *)
Definition go_question (q : Question) : Prop :=
  strconv.minInt ≤ Number q ≤ strconv.maxInt
  ∧ len (Answers q) ≤ strconv.maxInt.

(** The reply of [handleHelpCommand] with an analysis. *)
Definition helpText (response : string) : string :=
  "Here's some help with this question:" +:+ nl +:+ nl +:+ response.

(** What the next request to Deepseek comes to. *)
Definition next_api (w : World) : api_outcome :=
  default TransportFailed (head (deepseek (env w))).


(** A move that runs no analysis of the question with number [k]; the
    analyses are the tasks that write to the cache. *)
Definition spares (k : Z) (w : World) (m : Move) : Prop :=
  match m with
  | Run i =>
      match tasks w !! i with
      | Some (AsyncAnalyze c) => c_questionNum c ≠ k
      | Some (HelpAnalyze _ questionNum _) => questionNum ≠ k
      | _ => True
      end
  | _ => True
  end.

(** A run from [w] in which no move runs an analysis of question [k]. *)
Fixpoint spared (questions : list Question)
    (order_by : list (Z * Z) → list (Z * Z)) (k : Z) (moves : list Move)
    (w : World) : Prop :=
  match moves with
  | [] => True
  | m :: moves =>
      spares k w m
      ∧ spared questions order_by k moves (move questions order_by w m)
  end.

(** A computation that ends without a panic and only adds to the requests
    sent; and one that adds at least one request. *)
Definition appends {A} (m : M A) : Prop :=
  ∀ w, ∃ a w' events, m w = (Done a, w') ∧ outbox w' = outbox w ++ events.

Definition answers {A} (m : M A) : Prop :=
  ∀ w, ∃ a w' events,
    m w = (Done a, w') ∧ outbox w' = outbox w ++ events ∧ events ≠ [].

(** The user has an Activity Record for the question number. *)
Definition has_answered (userID questionNumber : Z) (d : DB) : Prop :=
  ∃ r, r ∈ user_activity d ∧ UserID r = userID
       ∧ QuestionNumber r = questionNumber.

(** [t] is the time of the latest Activity Record of the user for the
    question number. *)
Definition last_answered_at (userID questionNumber : Z) (d : DB) (t : Z)
    : Prop :=
  (∃ r, r ∈ user_activity d ∧ UserID r = userID
        ∧ QuestionNumber r = questionNumber ∧ Timestamp r = t)
  ∧ ∀ r, r ∈ user_activity d → UserID r = userID →
         QuestionNumber r = questionNumber → Timestamp r ≤ t.

(** The escaping of a part in one pass: a backslash before every special
    character. *)
Fixpoint escape_each (s : string) : string :=
  match s with
  | EmptyString => EmptyString
  | String c s' =>
      if bool_decide (c ∈ specialChars)
      then String backslash (String c (escape_each s'))
      else String c (escape_each s')
  end.

(** The byte is not a backtick. *)
Definition no_backtick (c : ascii) : bool :=
  negb (bool_decide (c = "`"%char)).

(** The bytes that make [sendMessage] and [editMessage] take a text for
    markdown. *)
Definition marked (text : string) : bool :=
  Contains text "*" || Contains text "#" || Contains text "`".

(** * Properties *)

(** ** The model on small inputs *)

Example Atoi_examples :
  strconv.Atoi "12" = Some 12 ∧ strconv.Atoi "-1" = Some (-1)
  ∧ strconv.Atoi "+7" = Some 7 ∧ strconv.Atoi "" = None
  ∧ strconv.Atoi "-" = None ∧ strconv.Atoi "1a" = None
  ∧ strconv.Atoi "9223372036854775807" = Some (2 ^ 63 - 1)
  ∧ strconv.Atoi "9223372036854775808" = None.
Proof. by vm_compute. Qed.

Example Split_examples :
  strings.Split "5:1" ":"%char = ["5"; "1"]
  ∧ strings.Split "" ":"%char = [""]
  ∧ strings.Split "a::b:" ":"%char = ["a"; ""; "b"; ""].
Proof. by vm_compute. Qed.

Example parseCallback_examples :
  parseCallback "answer:5:1" = Some (5, 1)
  ∧ parseCallback (callbackData 5 1) = Some (5, 1)
  ∧ parseCallback "answer:5" = None
  ∧ parseCallback "answer:5:1:2" = None
  ∧ parseCallback "reply:5:1" = None
  ∧ parseCallback "answer:5:-1" = Some (5, -1).
Proof. by vm_compute. Qed.

(** The first scenario of the specification on the code: question 5 has no
    known answer and no cache entry, user 1 submits index 1, and the AI
    answers with a text.  The placeholder is sent, the AI is called once
    with the question, its text replaces the placeholder and is cached with
    index -1, since the adapter takes no index from the text. *)
Example unresolved_submission_run :
  let w :=
    play example_questions order_by_merge_sort
      [Deliver (press 1 "answer:5:1"); Run 0; Run 0]
      (started (answering ["B is correct because"])) in
  outbox w
  = [AnswerCallback "cb" "Processing your answer...";
     SendText 1 (analyzingText "B");
     EditText 1 1 (analysisText "B" "B is correct because")]
  ∧ analyzed w = [question5]
  ∧ deepseek_cache (db w) !! 5 = Some ("B is correct because", -1)
  ∧ tasks w = [].
Proof. by vm_compute. Qed.

(** ** Loading the questions *)

Lemma validQuestions_acc (questions acc : list Question) :
  foldl (λ valid q, if bool_decide (Number q ≠ -1) then valid ++ [q] else valid)
        acc questions
  = acc ++ filter (λ q, Number q ≠ -1) questions.
Proof.
  revert acc. induction questions as [|q questions IH]; intros acc; simpl.
  - by rewrite app_nil_r.
  - rewrite IH. rewrite filter_cons. case_bool_decide; case_decide; try done.
    by rewrite <- app_assoc.
Qed.

Lemma validQuestions_filter (questions : list Question) :
  validQuestions questions = filter (λ q, Number q ≠ -1) questions.
Proof. unfold validQuestions. by rewrite validQuestions_acc. Qed.

(** C10: when the file is read and parsed, [loadQuestions] returns the
    questions of the file whose [Number] is not -1, all of them and in the
    order of the file; so no loaded question has [Number] -1, and a question
    is loaded exactly when it is in the file with a [Number] other than -1. *)
Theorem loadQuestions_drops_minus_one (questions : list Question) :
  ∃ loaded,
    loadQuestions (Some (Some questions)) = Some loaded
    ∧ loaded = filter (λ q, Number q ≠ -1) questions
    ∧ Forall (λ q, Number q ≠ -1) loaded
    ∧ (∀ q, q ∈ loaded ↔ q ∈ questions ∧ Number q ≠ -1)
    ∧ sublist loaded questions.
Proof.
  exists (validQuestions questions). simpl. rewrite validQuestions_filter.
  split_and!; try done.
  - apply Forall_forall. intros q Hq. by apply list_elem_of_filter in Hq as [? _].
  - intros q. rewrite list_elem_of_filter. tauto.
  - apply sublist_filter.
Qed.

(** ** The AI adapter *)

(** C5: on a response with content, [AnalyzeQuestion] returns the content
    and, as index, the question's own [RightAnswer] when that lies in
    [0, len(Answers)), else -1; the index is the same for any two contents;
    and whatever the request comes to, the index is -1 or the in-range
    [RightAnswer] of the question, so never a concrete index for a question
    whose [RightAnswer] is -1. *)
Theorem AnalyzeQuestion_index_from_question (question : Question) :
  (∀ content rest,
     AnalyzeQuestion (Responded StatusOK (Some (content :: rest))) question
     = (content,
        if bool_decide (0 ≤ RightAnswer question < len (Answers question))
        then RightAnswer question else -1,
        None))
  ∧ (∀ content1 content2,
       extractRightAnswerFromContent content1 question
       = extractRightAnswerFromContent content2 question)
  ∧ (∀ outcome,
       (AnalyzeQuestion outcome question).1.2 = -1
       ∨ ((AnalyzeQuestion outcome question).1.2 = RightAnswer question
          ∧ 0 ≤ RightAnswer question < len (Answers question))).
Proof.
  assert (Hx : ∀ content,
    extractRightAnswerFromContent content question
    = if bool_decide (0 ≤ RightAnswer question < len (Answers question))
      then RightAnswer question else -1).
  { intros content. unfold extractRightAnswerFromContent.
    case_bool_decide;
      destruct (RightAnswer question >=? 0) eqn:E1;
      destruct (RightAnswer question <? len (Answers question)) eqn:E2;
      simpl; try done; lia. }
  split_and!.
  - intros content rest. simpl. by rewrite Hx.
  - intros c1 c2. by rewrite !Hx.
  - intros outcome.
    destruct outcome as [| | | | |status [[|content rest]|]]; simpl; auto.
    destruct (status =? StatusOK); simpl; auto.
    destruct (status =? StatusOK); simpl; auto.
    rewrite Hx. case_bool_decide; auto.
    destruct (status =? StatusOK); simpl; auto.
Qed.

(** ** The explanation cache *)

Lemma CacheDeepseekResponse_lookup fails k text i d d' :
  CacheDeepseekResponse fails k text i d = (d', None) →
  fails = false ∧ deepseek_cache d' = <[k := (text, i)]> (deepseek_cache d)
  ∧ user_activity d' = user_activity d.
Proof.
  unfold CacheDeepseekResponse. destruct fails; intros [= <-]; auto.
Qed.

(** C8, as the code has it: when a cache write succeeds and the read that
    follows does not fail, the read returns the stored text and index; what
    it returns is the value that stands for an absent entry exactly when the
    stored text is empty and the stored index is -1. *)
Theorem cache_get_after_put (fails : bool) (k : Z) (text : string) (i : Z)
    (d d' : DB) :
  CacheDeepseekResponse fails k text i d = (d', None) →
  GetCachedDeepseekResponse false k d' = (text, i, None)
  ∧ (GetCachedDeepseekResponse false k d' = Absent ↔ text = "" ∧ i = -1).
Proof.
  intros (_ & Hc & _)%CacheDeepseekResponse_lookup.
  assert (Hget : GetCachedDeepseekResponse false k d' = (text, i, None)).
  { unfold GetCachedDeepseekResponse. by rewrite Hc, lookup_insert_eq. }
  split; [done|]. rewrite Hget. unfold Absent. split.
  - by intros [= -> ->].
  - by intros [-> ->].
Qed.

Lemma cache_get_after_put_witness :
  GetCachedDeepseekResponse false 5
    (CacheDeepseekResponse false 5 "B is correct" 1 database.empty).1
  = ("B is correct", 1, None).
Proof.
  apply (cache_get_after_put false 5 "B is correct" 1 database.empty).
  reflexivity.
Defined.

(** C8 as stated fails: after the successful write of an empty text with
    index -1 (what the goroutine of [handleCallback] stores when the AI
    answers with an empty content), the read returns what it returns for an
    absent entry. *)
Lemma cache_get_after_put_can_be_Absent :
  ∃ d', CacheDeepseekResponse false 5 "" (-1) database.empty = (d', None)
        ∧ GetCachedDeepseekResponse false 5 d' = Absent.
Proof. eexists. split; reflexivity. Qed.

(** ** Statistics *)

Lemma user_activity_record_all acts d :
  user_activity (record_all acts d) = user_activity d ++ acts.
Proof.
  revert d. induction acts as [|a acts IH]; intros d; simpl.
  - by rewrite app_nil_r.
  - unfold record_all in *. simpl. rewrite IH. simpl.
    rewrite <- app_assoc. by destruct a.
Qed.

Lemma count_split (userID : Z) (rows : list UserActivity) :
  len (filter (λ r, UserID r = userID ∧ Correct r = false) rows)
  = len (filter (λ r, UserID r = userID) rows)
    - len (filter (λ r, UserID r = userID ∧ Correct r = true) rows).
Proof.
  unfold len. induction rows as [|r rows IH]; [done|].
  rewrite !filter_cons.
  destruct (decide (UserID r = userID)) as [Hu|Hu], (Correct r) eqn:Hc;
    repeat case_decide; simpl; try lia; naive_solver.
Qed.

(** C6: after the activities [acts] (of any users) were recorded on a new
    database, [GetUserStats] for a user returns the number C of the user's
    activities recorded as correct and N - C, where N is the number of the
    user's activities. *)
Theorem GetUserStats_after_recording (acts : list UserActivity) (userID : Z) :
  let N := len (filter (λ a, UserID a = userID) acts) in
  let C := len (filter (λ a, UserID a = userID ∧ Correct a = true) acts) in
  GetUserStats false false userID (record_all acts database.empty)
  = (C, N - C, None).
Proof.
  simpl. unfold GetUserStats, count_rows.
  rewrite user_activity_record_all. simpl. by rewrite count_split.
Qed.

(** *** The ranking of missed questions *)

Global Instance count_desc_trans : Transitive count_desc.
Proof. unfold count_desc. intros x y z. lia. Qed.

Global Instance count_desc_total : Total count_desc.
Proof. unfold count_desc. intros x y. lia. Qed.

Lemma incorrect_count_group (userID q : Z) (d : DB) :
  incorrect_count userID q d = group_count q (incorrect_rows userID d).
Proof.
  unfold incorrect_count, group_count, incorrect_rows, len. f_equal.
  induction (user_activity d) as [|r rows IH]; [done|].
  rewrite !filter_cons.
  destruct (decide (UserID r = userID ∧ Correct r = false)) as [H|H].
  - rewrite filter_cons. repeat case_decide; simpl; try lia; naive_solver.
  - case_decide; simpl; try lia; naive_solver.
Qed.

Lemma group_count_pos (q : Z) (rows : list UserActivity) :
  0 < group_count q rows ↔ q ∈ QuestionNumber <$> rows.
Proof.
  unfold group_count, len. induction rows as [|r rows IH].
  - simpl. split; [lia|]. by intros ?%elem_of_nil.
  - rewrite filter_cons, fmap_cons, elem_of_cons. case_decide; simpl.
    + split; [auto|lia].
    + rewrite IH. naive_solver.
Qed.

Lemma elem_of_group_by_question (q c : Z) (rows : list UserActivity) :
  (q, c) ∈ group_by_question rows
  ↔ q ∈ QuestionNumber <$> rows ∧ c = group_count q rows.
Proof.
  unfold group_by_question. rewrite list_elem_of_fmap. split.
  - intros (q' & Heq & Hq). simpl in Heq. injection Heq as -> ->.
    split; [by rewrite elem_of_remove_dups in Hq|done].
  - intros [Hq ->]. exists q. by rewrite elem_of_remove_dups.
Qed.

Lemma group_by_question_keys (rows : list UserActivity) :
  (group_by_question rows).*1 = remove_dups (QuestionNumber <$> rows).
Proof.
  unfold group_by_question. rewrite <- list_fmap_compose.
  induction (remove_dups (QuestionNumber <$> rows)); simpl; by f_equal.
Qed.

Lemma sql_limit_prefix {A} (limit : Z) (l : list A) :
  ∃ rest, l = sql_limit limit l ++ rest.
Proof.
  unfold sql_limit. destruct (limit <? 0).
  - exists []. by rewrite app_nil_r.
  - exists (drop (Z.to_nat limit) l). by rewrite take_drop.
Qed.

Lemma sql_limit_length {A} (limit : Z) (l : list A) :
  0 ≤ limit → len (sql_limit limit l) ≤ limit.
Proof.
  intros Hl. unfold sql_limit, len.
  destruct (limit <? 0) eqn:E; [lia|]. rewrite length_take. lia.
Qed.

Lemma sorted_counts_unique (l : list (Z * Z)) (counts : list Z) :
  StronglySorted count_desc l → StronglySorted Z.ge counts →
  l.*2 ≡ₚ counts → l.*2 = counts.
Proof.
  intros Hl Hc Hp.
  apply (StronglySorted_unique_strong Z.ge); try done.
  - intros x1 x2 _ _ ? ?. lia.
  - eapply (StronglySorted_fmap snd count_desc Z.ge); [|done].
    by unfold count_desc.
Qed.

Section top_missed.
Variable order_by : list (Z * Z) → list (Z * Z).
Hypothesis order_by_perm : ∀ l, order_by l ≡ₚ l.
Hypothesis order_by_sorted : ∀ l, Sorted count_desc (order_by l).

Lemma ordered_groups (userID : Z) (d : DB) :
  let l := order_by (group_by_question (incorrect_rows userID d)) in
  StronglySorted count_desc l
  ∧ NoDup l.*1
  ∧ (∀ x, x ∈ l → x.2 = incorrect_count userID x.1 d)
  ∧ (∀ q, 0 < incorrect_count userID q d →
          (q, incorrect_count userID q d) ∈ l).
Proof.
  simpl. set (rows := incorrect_rows userID d).
  split_and!.
  - apply Sorted_StronglySorted; [apply _|apply order_by_sorted].
  - rewrite (order_by_perm (group_by_question rows)), group_by_question_keys.
    apply NoDup_remove_dups.
  - intros [q c]. rewrite (order_by_perm (group_by_question rows)).
    rewrite elem_of_group_by_question, incorrect_count_group. by intros [_ ->].
  - intros q Hq. rewrite (order_by_perm (group_by_question rows)).
    rewrite elem_of_group_by_question, incorrect_count_group.
    split; [|done]. apply group_count_pos.
    by rewrite incorrect_count_group in Hq.
Qed.

Lemma top_missed_numbers (userID limit : Z) (d : DB) :
  QuestionNumber <$>
    (GetMostFrequentIncorrectQuestions order_by false userID limit d).1
  = (top_missed_rows order_by userID limit d).*1.
Proof.
  simpl. rewrite <- list_fmap_compose.
  induction (top_missed_rows order_by userID limit d); simpl; by f_equal.
Qed.

(** C7: for a limit that is a number of rows, that is, not negative (the
    bot asks for 3), the query returns at most [limit] rows; the returned
    questions come with a descending count of incorrect answers; a question
    the user missed that is not returned has no greater count than a
    returned one; and with counts 5, 5, 2 and 1 for the questions 1 to 4
    and a limit of 3 the result is question 1 and 2 in either order, then
    question 3.  This holds for every sorting function, so for every order
    of ties. *)
Theorem top_missed_ranking (userID limit : Z) (d : DB) :
  let result :=
    (GetMostFrequentIncorrectQuestions order_by false userID limit d).1 in
  let top3 :=
    (GetMostFrequentIncorrectQuestions order_by false userID 3 d).1 in
  let missed q := incorrect_count userID q d in
  (0 ≤ limit → len result ≤ limit)
  ∧ (∀ i j a b, (i < j)%nat → result !! i = Some a → result !! j = Some b →
       missed (QuestionNumber a) >= missed (QuestionNumber b))
  ∧ (∀ q a, 0 < missed q → q ∉ QuestionNumber <$> result → a ∈ result →
       missed q ≤ missed (QuestionNumber a))
  ∧ ((∀ q, missed q =
           if decide (q = 1) then 5 else if decide (q = 2) then 5
           else if decide (q = 3) then 2 else if decide (q = 4) then 1
           else 0) →
     QuestionNumber <$> top3 = [1; 2; 3]
     ∨ QuestionNumber <$> top3 = [2; 1; 3]).
Proof.
  intros result top3 missed.
  destruct (ordered_groups userID d) as (Hss & Hnd & Hcount & Hin).
  set (l := order_by (group_by_question (incorrect_rows userID d))) in *.
  assert (Hres : ∀ a, a ∈ result →
    ∃ x, x ∈ top_missed_rows order_by userID limit d
         ∧ QuestionNumber a = x.1).
  { intros a (x & -> & Hx)%list_elem_of_fmap. by exists x. }
  assert (∃ rest, l = top_missed_rows order_by userID limit d ++ rest)
    as [rest Hl] by apply sql_limit_prefix.
  set (r := top_missed_rows order_by userID limit d) in *.
  assert (Hrl : ∀ x, x ∈ r → x ∈ l).
  { intros x Hx. rewrite Hl. apply elem_of_app. by left. }
  assert (Hss' : StronglySorted count_desc (r ++ rest)) by by rewrite <- Hl.
  split_and!.
  - intros Hlim. subst result. simpl. unfold len. rewrite length_fmap.
    by apply sql_limit_length.
  - intros i j a b Hij Ha Hb. subst result. simpl in Ha, Hb.
    fold r in Ha, Hb. rewrite list_lookup_fmap in Ha, Hb.
    destruct (r !! i) as [x|] eqn:Hx; [|done].
    destruct (r !! j) as [y|] eqn:Hy; [|done].
    injection Ha as <-. injection Hb as <-. simpl.
    apply StronglySorted_app_1_l in Hss'.
    rewrite <- (take_drop j r) in Hss'.
    assert (Hxy : count_desc x y).
    { eapply StronglySorted_app_1_elem_of; [exact Hss'| |].
      - apply elem_of_take. eauto.
      - apply list_elem_of_lookup. exists O.
        by rewrite lookup_drop, Nat.add_0_r. }
    unfold count_desc in Hxy. unfold missed.
    rewrite <- (Hcount x), <- (Hcount y); [done| |];
      apply Hrl; by eapply list_elem_of_lookup_2.
  - intros q a Hq Hnot Ha.
    destruct (Hres a Ha) as (x & Hx & ->).
    specialize (Hin q Hq). rewrite Hl in Hin.
    apply elem_of_app in Hin as [Hin|Hin].
    + exfalso. apply Hnot. subst result. rewrite top_missed_numbers.
      apply list_elem_of_fmap. by exists (q, incorrect_count userID q d).
    + assert (Hxq : count_desc x (q, incorrect_count userID q d)).
      { by eapply StronglySorted_app_1_elem_of. }
      unfold count_desc in Hxq. simpl in Hxq. unfold missed.
      rewrite <- (Hcount x); [lia|]. by apply Hrl.
  - intros Hm. subst top3. rewrite top_missed_numbers.
    unfold top_missed_rows, sql_limit. simpl. fold l.
    assert (Hkeys : ∀ q, q ∈ l.*1 ↔ q ∈ [1; 2; 3; 4]).
    { intros q. split.
      - intros (x & -> & Hx)%list_elem_of_fmap.
        pose proof (Hcount x Hx) as Hc.
        assert (0 < x.2).
        { subst l. rewrite (order_by_perm _) in Hx. destruct x as [q c].
          apply elem_of_group_by_question in Hx as [Hq ->].
          by apply group_count_pos. }
        fold (missed x.1) in Hc. rewrite Hm in Hc.
        repeat case_decide; set_solver by lia.
      - intros Hq. apply list_elem_of_fmap.
        exists (q, incorrect_count userID q d). split; [done|].
        apply Hin. fold (missed q). rewrite Hm.
        repeat case_decide; set_solver by lia. }
    assert (Hp : l.*1 ≡ₚ [1; 2; 3; 4]).
    { apply NoDup_Permutation; [done| |done].
      repeat (constructor; [set_solver by lia|]). constructor. }
    assert (Hsnd : ∀ x, x ∈ l → x.2 = missed x.1) by done.
    assert (Hc : l.*2 = [5; 5; 2; 1]).
    { apply sorted_counts_unique; [done| |].
      - repeat constructor; lia.
      - transitivity (missed <$> l.*1).
        + rewrite <- list_fmap_compose.
          assert (Heq : snd <$> l = (missed ∘ fst) <$> l).
          { apply list_fmap_ext. intros i x Hx. simpl.
            apply Hsnd. by eapply list_elem_of_lookup_2. }
          by rewrite Heq.
        + rewrite Hp. simpl. rewrite !Hm. done. }
    destruct l as [|[q1 c1] [|[q2 c2] [|[q3 c3] [|[q4 c4] [|? ?]]]]];
      try done.
    simpl in Hc. injection Hc as -> -> -> ->.
    pose proof (Hsnd (q1, 5) ltac:(set_solver)) as H1.
    pose proof (Hsnd (q2, 5) ltac:(set_solver)) as H2.
    pose proof (Hsnd (q3, 2) ltac:(set_solver)) as H3.
    simpl in H1, H2, H3. rewrite Hm in H1, H2, H3.
    simpl in Hnd. apply NoDup_cons in Hnd as [Hn1 _].
    assert (q1 ≠ q2) by set_solver.
    repeat case_decide; simplify_eq; auto; lia.
Qed.
End top_missed.

Lemma incorrect_count_absent (userID q : Z) (d : DB) :
  q ∉ QuestionNumber <$> user_activity d → incorrect_count userID q d = 0.
Proof.
  unfold incorrect_count, len.
  induction (user_activity d) as [|r rows IH]; [done|].
  rewrite fmap_cons, not_elem_of_cons. intros [Hq Hrows].
  rewrite filter_cons. case_decide; [|by apply IH].
  naive_solver.
Qed.

Lemma top_missed_ranking_witness :
  let result :=
    (GetMostFrequentIncorrectQuestions order_by_merge_sort false 1 3
       stats_example).1 in
  len result ≤ 3
  ∧ (QuestionNumber <$> result = [1; 2; 3]
     ∨ QuestionNumber <$> result = [2; 1; 3]).
Proof.
  destruct (top_missed_ranking order_by_merge_sort
              (merge_sort_Permutation count_desc)
              (Sorted_merge_sort count_desc) 1 3 stats_example)
    as (Hlen & _ & _ & Hex).
  split; [apply Hlen; lia|]. apply Hex. intros q.
  destruct (decide (q = 1)) as [->|?]; [reflexivity|].
  destruct (decide (q = 2)) as [->|?]; [reflexivity|].
  destruct (decide (q = 3)) as [->|?]; [reflexivity|].
  destruct (decide (q = 4)) as [->|?]; [reflexivity|].
  apply incorrect_count_absent. vm_compute user_activity.
  rewrite !fmap_cons, !not_elem_of_cons. simpl.
  split_and!; try done. apply not_elem_of_nil.
Defined.

(** ** Reasoning about the handlers *)

Lemma bind_done {A B} (m : M A) (f : A → M B) (w w1 : World) (a : A) :
  m w = (Done a, w1) → bind m f w = f a w1.
Proof. intros H. unfold bind. by rewrite H. Qed.

Global Instance same_state_refl : Reflexive same_state.
Proof. by intros w. Qed.

Global Instance same_state_trans : Transitive same_state.
Proof.
  intros w1 w2 w3 (H1 & H2 & H3) (H4 & H5 & H6).
  unfold same_state. by rewrite H4, H5, H6.
Qed.

Lemma calm_ret {A} (a : A) : calm (ret a).
Proof. intros w. by exists a, w. Qed.

Lemma calm_bind {A B} (m : M A) (f : A → M B) :
  calm m → (∀ a, calm (f a)) → calm (bind m f).
Proof.
  intros Hm Hf w. destruct (Hm w) as (a & w1 & Hrun & H1).
  destruct (Hf a w1) as (b & w2 & Hrun' & H2).
  exists b, w2. rewrite (bind_done _ _ _ _ _ Hrun). split; [done|].
  by transitivity w1.
Qed.

Lemma calm_gets {A} (f : World → A) : calm (gets f).
Proof. intros w. by exists (f w), w. Qed.

Lemma calm_emit (e : UiEvent) : calm (emit e).
Proof. intros w. by eexists tt, _. Qed.

Lemma calm_draw_failure : calm draw_failure.
Proof.
  intros w. unfold draw_failure. destruct (driver (env w)); by eexists _, _.
Qed.

Lemma calm_draw_api : calm draw_api.
Proof.
  intros w. unfold draw_api. destruct (deepseek (env w)); by eexists _, _.
Qed.

Lemma calm_draw_random : calm draw_random.
Proof.
  intros w. unfold draw_random. destruct (random (env w)); by eexists _, _.
Qed.

Lemma calm_set_session (f : World → gmap Z Z) :
  calm (modify (λ w, with_userQuestions (f w) w)).
Proof. intros w. by eexists tt, _. Qed.

Create HintDb calm.
#[export] Hint Resolve calm_ret calm_gets calm_emit calm_draw_failure
  calm_draw_api calm_draw_random calm_set_session : calm.

Ltac calm_step :=
  match goal with
  | |- calm (bind _ _) => apply calm_bind; [|intros]
  | |- calm (if ?b then _ else _) => destruct b
  | |- calm (match ?x with _ => _ end) => destruct x
  | |- calm _ => solve [auto with calm]
  end.

Ltac calm_auto := repeat calm_step.

Lemma calm_sendMessage chatID text : calm (sendMessage chatID text).
Proof. apply calm_emit. Qed.

Lemma calm_editMessage chatID messageID text :
  calm (editMessage chatID messageID text).
Proof. apply calm_emit. Qed.

Lemma calm_sendCallbackResponse callbackID text :
  calm (sendCallbackResponse callbackID text).
Proof. apply calm_emit. Qed.

#[export] Hint Resolve calm_sendMessage calm_editMessage
  calm_sendCallbackResponse : calm.

Lemma calm_api_Send chatID text : calm (api_Send chatID text).
Proof. unfold api_Send. calm_auto. Qed.

Lemma calm_sendImage chatID imagePath caption :
  calm (sendImage chatID imagePath caption).
Proof. unfold sendImage. calm_auto. Qed.

Lemma calm_db_GetCachedDeepseekResponse k :
  calm (db_GetCachedDeepseekResponse k).
Proof. unfold db_GetCachedDeepseekResponse. calm_auto. Qed.

Lemma calm_db_GetUserStats userID : calm (db_GetUserStats userID).
Proof. unfold db_GetUserStats. calm_auto. Qed.

(** An index that passed the range test of the handlers is in the slice. *)
Lemma index_in_range {A} (s : list A) (i : Z) :
  0 ≤ i < len s → ∃ x, s !! Z.to_nat i = Some x ∧ index s i = ret x.
Proof.
  intros Hi. unfold index, len in *.
  destruct (s !! Z.to_nat i) as [x|] eqn:Hx.
  - exists x. split; [done|].
    destruct (0 <=? i) eqn:E1, (i <? Z.of_nat (length s)) eqn:E2;
      simpl; try done; lia.
  - apply lookup_ge_None in Hx. lia.
Qed.

Lemma answerText_eq (question : Question) (i : Z) :
  answerText question i = ret (shown question i).
Proof.
  unfold answerText, shown. case_bool_decide as Hi.
  - destruct (index_in_range (Answers question) i Hi) as (x & Hx & ->).
    rewrite Hx. simpl.
    destruct (i >=? 0) eqn:E1, (i <? len (Answers question)) eqn:E2;
      simpl; try done; lia.
  - destruct (i >=? 0) eqn:E1, (i <? len (Answers question)) eqn:E2;
      simpl; try done; lia.
Qed.

Lemma calm_answerText question i : calm (answerText question i).
Proof. rewrite answerText_eq. apply calm_ret. Qed.

#[export] Hint Resolve calm_api_Send calm_sendImage
  calm_db_GetCachedDeepseekResponse calm_db_GetUserStats calm_answerText : calm.

Lemma calm_asyncVerdict c rightAnswer cachedResponse :
  calm (asyncVerdict c rightAnswer cachedResponse).
Proof. unfold asyncVerdict. calm_auto. Qed.

#[export] Hint Resolve calm_asyncVerdict : calm.

Lemma calm_sendRandomQuestion questions chatID :
  calm (sendRandomQuestion questions chatID).
Proof.
  unfold sendRandomQuestion. destruct (len questions =? 0) eqn:Hlen.
  - calm_auto.
  - apply calm_bind; [auto with calm|]. intros r.
    destruct (index_in_range questions (Z.of_nat r `mod` len questions))
      as (q & _ & ->).
    { apply Z.mod_pos_bound. unfold len in *. lia. }
    calm_auto.
Qed.

Lemma calm_handleStatCommand questions order_by message :
  calm (handleStatCommand questions order_by message).
Proof. unfold handleStatCommand. calm_auto. Qed.

(** *** What the calls on the environment come to *)

Lemma draw_failure_eq (w : World) :
  draw_failure w = (Done (failure 0 w), after_calls 1 w).
Proof. by destruct w as [? ? ? ? ? [[|? ?] ? ? ?]]. Qed.

Lemma after_calls_add (n m : nat) (w : World) :
  after_calls n (after_calls m w) = after_calls (m + n) w.
Proof. unfold after_calls. simpl. by rewrite drop_drop. Qed.

Lemma failure_after_calls (n m : nat) (w : World) :
  failure n (after_calls m w) = failure (m + n) w.
Proof. unfold failure, after_calls. simpl. by rewrite lookup_drop. Qed.

Lemma failure_with_db (n : nat) (d : DB) (w : World) :
  failure n (with_db d w) = failure n w.
Proof. done. Qed.

Lemma after_calls_with_db (n : nat) (d : DB) (w : World) :
  after_calls n (with_db d w) = with_db d (after_calls n w).
Proof. done. Qed.

Lemma run_db_GetCachedDeepseekResponse (k : Z) (w : World) :
  db_GetCachedDeepseekResponse k w
  = (Done (GetCachedDeepseekResponse (failure 0 w) k (db w)), after_calls 1 w).
Proof.
  unfold db_GetCachedDeepseekResponse.
  by rewrite (bind_done _ _ _ _ _ (draw_failure_eq w)).
Qed.

Lemma run_db_SaveUserActivity (userID q a : Z) (correct : bool) (w : World) :
  db_SaveUserActivity userID q a correct w
  = (Done (SaveUserActivity (failure 0 w) (now (env w)) userID q a correct
             (db w)).2,
     with_db (SaveUserActivity (failure 0 w) (now (env w)) userID q a correct
                (db w)).1
             (after_calls 1 w)).
Proof.
  unfold db_SaveUserActivity.
  rewrite (bind_done _ _ _ _ _ (draw_failure_eq w)).
  unfold bind, gets, db_exec. simpl.
  by destruct (SaveUserActivity _ _ _ _ _ _ _).
Qed.

Lemma run_db_CacheDeepseekResponse (k : Z) (response : string) (i : Z)
    (w : World) :
  db_CacheDeepseekResponse k response i w
  = (Done (CacheDeepseekResponse (failure 0 w) k response i (db w)).2,
     with_db (CacheDeepseekResponse (failure 0 w) k response i (db w)).1
             (after_calls 1 w)).
Proof.
  unfold db_CacheDeepseekResponse.
  rewrite (bind_done _ _ _ _ _ (draw_failure_eq w)).
  unfold db_exec. simpl. by destruct (CacheDeepseekResponse _ _ _ _ _).
Qed.

Lemma run_api_Send (chatID : Z) (text : string) (w : World) :
  api_Send chatID text w
  = if failure 0 w then (Done (0, Some ErrSend), after_calls 1 w)
    else (Done (len (outbox w), None),
          with_outbox (outbox w ++ [SendText chatID text]) (after_calls 1 w)).
Proof.
  unfold api_Send. rewrite (bind_done _ _ _ _ _ (draw_failure_eq w)).
  by destruct (failure 0 w).
Qed.

(** *** The handler of an answer *)

Lemma effective_index_eq (fails : bool) (qn : Z) (q : Question) (d : DB) :
  ∀ cachedResp cachedRightAnswer err,
    GetCachedDeepseekResponse fails qn d = (cachedResp, cachedRightAnswer, err) →
    (if is_nil err && negb (cachedRightAnswer =? -1)
     then (cachedRightAnswer, cachedResp) else (RightAnswer q, "")).1
    = effective_index fails qn q d.
Proof.
  intros cr cra err H. unfold effective_index. rewrite H.
  destruct err; simpl; [done|]. by destruct (cra =? -1).
Qed.

Lemma resolveAnswer_resolved (callback : CallbackQuery) (question : Question)
    (questionNum answerNum : Z) (w : World) :
  let rightAnswer := effective_index (failure 0 w) questionNum question (db w) in
  rightAnswer ≠ -1 →
  resolveAnswer callback question questionNum answerNum w
  = (Done tt,
     with_outbox
       (outbox w ++
          [SendText (cb_Chat callback)
             (if answerNum =? rightAnswer then correctReply
              else incorrectReply (shown question rightAnswer))])
       (with_db
          (SaveUserActivity (failure 1 w) (now (env w)) (cb_From callback)
             questionNum answerNum (answerNum =? rightAnswer) (db w)).1
          (after_calls 2 w))).
Proof.
  intros rightAnswer Hra. unfold resolveAnswer.
  rewrite (bind_done _ _ _ _ _ (run_db_GetCachedDeepseekResponse _ w)).
  destruct (GetCachedDeepseekResponse (failure 0 w) questionNum (db w))
    as [[cr cra] err] eqn:Hget.
  pose proof (effective_index_eq _ _ question _ _ _ _ Hget) as Heff.
  fold rightAnswer in Heff.
  destruct (if is_nil err && negb (cra =? -1) then (cra, cr)
            else (RightAnswer question, "")) as [ra cachedResponse].
  simpl in Heff. subst ra.
  assert (Hneq : (rightAnswer =? -1) = false) by by apply Z.eqb_neq.
  rewrite Hneq. simpl negb. cbv iota.
  rewrite (bind_done _ _ _ _ _ (run_db_SaveUserActivity _ _ _ _ _)).
  rewrite failure_after_calls, after_calls_add. simpl.
  destruct (answerNum =? rightAnswer); [done|].
  rewrite answerText_eq. done.
Qed.

Lemma resolveAnswer_unresolved (callback : CallbackQuery) (question : Question)
    (questionNum answerNum : Z) (w : World) :
  effective_index (failure 0 w) questionNum question (db w) = -1 →
  resolveAnswer callback question questionNum answerNum w
  = let saved :=
      with_db
        (SaveUserActivity (failure 1 w) (now (env w)) (cb_From callback)
           questionNum answerNum false (db w)).1
        (after_calls 3 w) in
    if failure 2 w then (Done tt, saved)
    else
      (Done tt,
       with_tasks
         (tasks w ++
            [AsyncRecheck
               {| c_chatID := cb_Chat callback;
                  c_initialMessageID := len (outbox w);
                  c_question := question;
                  c_questionNum := questionNum;
                  c_answerNum := answerNum;
                  c_userAnswer := shown question answerNum;
                  c_rightAnswer := -1;
                  c_cachedResponse := "";
                  c_isCorrect := false |}])
         (with_outbox
            (outbox w ++
               [SendText (cb_Chat callback)
                  (analyzingText (shown question answerNum))])
            saved)).
Proof.
  intros Hra. unfold resolveAnswer.
  rewrite (bind_done _ _ _ _ _ (run_db_GetCachedDeepseekResponse _ w)).
  destruct (GetCachedDeepseekResponse (failure 0 w) questionNum (db w))
    as [[cr cra] err] eqn:Hget.
  pose proof (effective_index_eq _ _ question _ _ _ _ Hget) as Heff.
  rewrite Hra in Heff.
  assert (Hcr : (if is_nil err && negb (cra =? -1) then (cra, cr)
                 else (RightAnswer question, "")) = (-1, "")).
  { unfold effective_index in Hra. rewrite Hget in Hra.
    destruct err; simpl in *; [by rewrite Hra|].
    destruct (cra =? -1) eqn:E; simpl in *; [by rewrite Hra|].
    apply Z.eqb_neq in E. done. }
  rewrite Hcr. simpl negb. cbv iota.
  rewrite (bind_done _ _ _ _ _ (run_db_SaveUserActivity _ _ _ _ _)).
  rewrite failure_after_calls. simpl.
  rewrite answerText_eq. unfold bind at 1. unfold ret at 1.
  unfold bind at 1. rewrite run_api_Send.
  rewrite failure_with_db, after_calls_with_db, !after_calls_add,
    failure_after_calls.
  simpl. destruct (failure 2 w); done.
Qed.

Lemma handleCallback_parsed (questions : list Question)
    (callback : CallbackQuery) (questionNum answerNum : Z) (question : Question)
    (w : World) :
  parseCallback (cb_Data callback) = Some (questionNum, answerNum) →
  find_question questions questionNum = Some question →
  handleCallback questions callback w
  = resolveAnswer callback question questionNum answerNum
      (with_outbox
         (outbox w ++ [AnswerCallback (cb_ID callback) "Processing your answer..."])
         w).
Proof. intros Hp Hq. unfold handleCallback. by rewrite Hp, Hq. Qed.

(** *** The tasks *)

Lemma run_deepseek_AnalyzeQuestion (question : Question) (w : World) :
  ∃ o w',
    deepseek_AnalyzeQuestion question w = (Done (AnalyzeQuestion o question), w')
    ∧ db w' = db w ∧ tasks w' = tasks w
    ∧ analyzed w' = analyzed w ++ [question].
Proof.
  unfold deepseek_AnalyzeQuestion, bind, modify, draw_api, ret. simpl.
  destruct (deepseek (env w)) as [|o os]; by eexists _, _.
Qed.

Lemma asyncRecheck_effect (c : Closure) (w : World) :
  ∃ r w',
    asyncRecheck c w = (Done r, w') ∧ same_state w w'
    ∧ (r = None ∨ r = Some (AsyncAnalyze c)).
Proof.
  unfold asyncRecheck.
  rewrite (bind_done _ _ _ _ _ (run_db_GetCachedDeepseekResponse _ w)).
  destruct (GetCachedDeepseekResponse _ _ _) as [[cr cra] err].
  destruct (is_nil err && negb (cra =? -1) && nonempty cr).
  - destruct (calm_asyncVerdict c cra cr (after_calls 1 w))
      as ([] & w' & Hrun & Hsame).
    rewrite (bind_done _ _ _ _ _ Hrun). exists None, w'. split_and!; auto.
  - case_bool_decide.
    + exists (Some (AsyncAnalyze c)), (after_calls 1 w). split_and!; auto. done.
    + destruct (calm_asyncVerdict c (c_rightAnswer c) (c_cachedResponse c)
                  (after_calls 1 w)) as ([] & w' & Hrun & Hsame).
      rewrite (bind_done _ _ _ _ _ Hrun). exists None, w'. split_and!; auto.
Qed.

Lemma asyncAnalyze_effect (c : Closure) (w : World) :
  ∃ w',
    asyncAnalyze c w = (Done tt, w')
    ∧ tasks w' = tasks w
    ∧ analyzed w' = analyzed w ++ [c_question c]
    ∧ analysis_stored (c_question c) (c_questionNum c) (db w) (db w').
Proof.
  unfold asyncAnalyze.
  destruct (run_deepseek_AnalyzeQuestion (c_question c) w)
    as (o & w1 & Hrun & Hdb & Htasks & Han).
  rewrite (bind_done _ _ _ _ _ Hrun).
  destruct (AnalyzeQuestion o (c_question c)) as [[resp rightAns] [e|]] eqn:Ho.
  - eexists. split; [reflexivity|]. simpl. split_and!; auto. by left.
  - unfold editMessage, emit.
    erewrite bind_done by reflexivity.
    rewrite (bind_done _ _ _ _ _ (run_db_CacheDeepseekResponse _ _ _ _)).
    match goal with |- ∃ w', asyncVerdict ?c ?i ?r ?w0 = _ ∧ _ =>
      destruct (calm_asyncVerdict c i r w0)
        as ([] & w' & Hrun' & Hdb' & Htasks' & Han')
    end.
    exists w'. split; [done|]. simpl in *.
    rewrite Htasks', Han', Hdb'. split_and!; auto.
    right. exists o, (failure 0 w1), resp, rightAns. by rewrite Hdb.
Qed.

Lemma helpAnalyze_effect (chatID k : Z) (question : Question) (w : World) :
  ∃ w',
    helpAnalyze chatID k question w = (Done tt, w')
    ∧ tasks w' = tasks w
    ∧ analyzed w' = analyzed w ++ [question]
    ∧ analysis_stored question k (db w) (db w').
Proof.
  unfold helpAnalyze.
  destruct (run_deepseek_AnalyzeQuestion question w)
    as (o & w1 & Hrun & Hdb & Htasks & Han).
  rewrite (bind_done _ _ _ _ _ Hrun).
  destruct (AnalyzeQuestion o question) as [[resp rightAns] [e|]] eqn:Ho.
  - eexists. split; [reflexivity|]. simpl. split_and!; auto. by left.
  - rewrite (bind_done _ _ _ _ _ (run_db_CacheDeepseekResponse _ _ _ _)).
    eexists. split; [reflexivity|]. simpl. split_and!; auto.
    right. exists o, (failure 0 w1), resp, rightAns. by rewrite Hdb.
Qed.

(** *** The handlers of the polling loop *)

Lemma calm_handler_effect (questions : list Question) (w w' : World) :
  same_state w w' → handler_effect questions w w'.
Proof. intros (Hdb & Htasks & Han). unfold handler_effect. rewrite Hdb. auto. Qed.

Lemma SaveUserActivity_cache fails t userID q a correct d :
  deepseek_cache (SaveUserActivity fails t userID q a correct d).1
  = deepseek_cache d.
Proof. unfold SaveUserActivity. by destruct fails. Qed.

Lemma handleCallback_effect (questions : list Question)
    (callback : CallbackQuery) (w : World) :
  ∃ w', handleCallback questions callback w = (Done tt, w')
        ∧ handler_effect questions w w'.
Proof.
  unfold handleCallback.
  destruct (parseCallback (cb_Data callback)) as [[questionNum answerNum]|];
    [|exists w; split; [done|]; by apply calm_handler_effect].
  unfold sendCallbackResponse, emit. erewrite bind_done by reflexivity.
  destruct (find_question questions questionNum) as [question|] eqn:Hq.
  - set (w1 := with_outbox _ w).
    destruct (decide (effective_index (failure 0 w1) questionNum question
                        (db w1) = -1)) as [Hra|Hra].
    + rewrite resolveAnswer_unresolved by done. simpl.
      destruct (failure 2 w1); eexists; (split; [reflexivity|]);
        unfold handler_effect; simpl; rewrite SaveUserActivity_cache;
        split_and!; auto.
      right. eexists. split; [|reflexivity]. done.
    + rewrite resolveAnswer_resolved by done.
      eexists. split; [reflexivity|].
      unfold handler_effect; simpl; rewrite SaveUserActivity_cache. auto.
  - eexists. split; [reflexivity|]. by apply calm_handler_effect.
Qed.

Lemma handleHelpCommand_effect (questions : list Question) (message : Message)
    (w : World) :
  ∃ w', handleHelpCommand questions message w = (Done tt, w')
        ∧ handler_effect questions w w'.
Proof.
  unfold handleHelpCommand. unfold gets at 1. erewrite bind_done by reflexivity.
  destruct (userQuestions w !! msg_From message) as [questionNum|].
  - destruct (find_question questions questionNum) as [question|] eqn:Hq.
    + rewrite (bind_done _ _ _ _ _ (run_db_GetCachedDeepseekResponse _ w)).
      destruct (GetCachedDeepseekResponse _ _ _) as [[cr cra] err].
      destruct (nonempty cr).
      * eexists. split; [reflexivity|]. by apply calm_handler_effect.
      * eexists. split; [reflexivity|]. unfold handler_effect. simpl.
        split_and!; auto. right. eexists. split; [|reflexivity]. done.
    + eexists. split; [reflexivity|]. by apply calm_handler_effect.
  - eexists. split; [reflexivity|]. by apply calm_handler_effect.
Qed.

Lemma handleMessage_effect (questions : list Question)
    (order_by : list (Z * Z) → list (Z * Z)) (message : Message) (w : World) :
  ∃ w', handleMessage questions order_by message w = (Done tt, w')
        ∧ handler_effect questions w w'.
Proof.
  assert (Hcalm : ∀ m : M unit, calm m →
    ∃ w', m w = (Done tt, w') ∧ handler_effect questions w w').
  { intros m Hm. destruct (Hm w) as ([] & w' & Hrun & Hsame).
    exists w'. split; [done|]. by apply calm_handler_effect. }
  unfold handleMessage.
  repeat match goal with |- context [if ?b then _ else _] => destruct b end.
  - apply Hcalm. unfold handleStartCommand.
    apply calm_bind; [auto with calm|]. intros _. apply calm_sendRandomQuestion.
  - apply Hcalm. apply calm_sendRandomQuestion.
  - apply handleHelpCommand_effect.
  - apply Hcalm. apply calm_handleStatCommand.
  - apply Hcalm. auto with calm.
Qed.

Lemma handleUpdate_effect (questions : list Question)
    (order_by : list (Z * Z) → list (Z * Z)) (update : Update) (w : World) :
  ∃ w', handleUpdate questions order_by update w = (Done tt, w')
        ∧ handler_effect questions w w'.
Proof.
  destruct update; [apply handleCallback_effect|apply handleMessage_effect].
Qed.

(** *** The invariant of the cache *)

Lemma extract_resolved (response : string) (q : Question) (i : Z) :
  i = extractRightAnswerFromContent response q → i ≠ -1 →
  i = RightAnswer q ∧ 0 ≤ i < len (Answers q).
Proof.
  unfold extractRightAnswerFromContent.
  destruct (RightAnswer q >=? 0) eqn:E1,
    (RightAnswer q <? len (Answers q)) eqn:E2; simpl; intros -> ?;
    try done; lia.
Qed.

Lemma analysis_write_sound (questions : list Question) (k : Z) (q : Question)
    (o : api_outcome) (response : string) (i : Z) :
  find_question questions k = Some q →
  AnalyzeQuestion o q = (response, i, None) →
  write_sound questions k response i.
Proof.
  intros Hq Ho. exists q. split; [done|].
  destruct o as [| | | | |status [[|content rest]|]]; simpl in Ho; try done;
    destruct (status =? StatusOK); simpl in Ho; try done.
  by injection Ho as <- <-.
Qed.

Lemma analysis_stored_moved (questions : list Question) (k : Z) (q : Question)
    (d d' : DB) :
  find_question questions k = Some q →
  analysis_stored q k d d' → cache_moved questions d d'.
Proof.
  intros Hq [->|(o & fails & response & i & Ho & ->)]; [by left|].
  unfold CacheDeepseekResponse. destruct fails; [by left|]. right.
  exists k, response, i. split; [|done]. by eapply analysis_write_sound.
Qed.

Lemma cache_sound_moved (questions : list Question) (d d' : DB) :
  cache_sound questions d → cache_moved questions d d' →
  cache_sound questions d'.
Proof.
  intros Hs [Heq|(k & response & i & (q & Hq & Hi) & Heq)];
    unfold cache_sound; rewrite Heq; [done|].
  intros k' response' i' Hlook Hi'.
  destruct (decide (k = k')) as [<-|Hne].
  - rewrite lookup_insert_eq in Hlook. injection Hlook as <- <-.
    exists q. split; [done|]. by eapply extract_resolved.
  - rewrite lookup_insert_ne in Hlook by done. by eapply Hs.
Qed.

(** Monotonic resolution: a resolved index survives every sound change of
    the cache. *)
Lemma resolved_index_kept (questions : list Question) (d d' : DB) (k : Z)
    (text : string) (i : Z) :
  cache_sound questions d → cache_moved questions d d' →
  deepseek_cache d !! k = Some (text, i) → i ≠ -1 →
  ∃ text', deepseek_cache d' !! k = Some (text', i).
Proof.
  intros Hs [Heq|(k' & response & i' & (q & Hq & Hi) & Heq)] Hlook Hne;
    rewrite Heq; [by exists text|].
  destruct (decide (k' = k)) as [->|Hk].
  - rewrite lookup_insert_eq. exists response. do 2 f_equal.
    destruct (Hs k text i Hlook Hne) as (q' & Hq' & -> & Hrange).
    rewrite Hq in Hq'. injection Hq' as ->.
    rewrite Hi. unfold extractRightAnswerFromContent.
    destruct (RightAnswer q' >=? 0) eqn:E1,
      (RightAnswer q' <? len (Answers q')) eqn:E2; simpl; try done; lia.
  - rewrite lookup_insert_ne by done. by exists text.
Qed.

(** *** Steps of the process *)

Lemma analysis_stored_rows (q : Question) (k : Z) (d d' : DB) :
  analysis_stored q k d d' → user_activity d' = user_activity d.
Proof.
  intros [->|(? & fails & ? & ? & _ & ->)]; [done|].
  unfold CacheDeepseekResponse. by destruct fails.
Qed.

Lemma run_task_total (t : Task) (w : World) :
  ∃ r w', run_task t w = (Done r, w')
          ∧ user_activity (db w') = user_activity (db w).
Proof.
  destruct t as [c|c|chatID k q]; simpl.
  - destruct (asyncRecheck_effect c w) as (r & w' & Hrun & (Hdb & _) & _).
    exists r, w'. by rewrite Hdb.
  - destruct (asyncAnalyze_effect c w) as (w' & Hrun & _ & _ & Hst).
    rewrite (bind_done _ _ _ _ _ Hrun). exists None, w'.
    split; [done|]. by eapply analysis_stored_rows.
  - destruct (helpAnalyze_effect chatID k q w) as (w' & Hrun & _ & _ & Hst).
    rewrite (bind_done _ _ _ _ _ Hrun). exists None, w'.
    split; [done|]. by eapply analysis_stored_rows.
Qed.

Lemma resume_rows (i : nat) (w : World) :
  user_activity (db (resume i w)) = user_activity (db w).
Proof.
  unfold resume. destruct (tasks w !! i) as [t|]; [|done].
  destruct (run_task_total t (with_tasks (delete i (tasks w)) w))
    as (r & w' & -> & Hrows).
  by destruct r.
Qed.

Lemma resume_effect (questions : list Question) (i : nat) (w : World) :
  Forall (task_sound questions) (tasks w) →
  cache_moved questions (db w) (db (resume i w))
  ∧ Forall (task_sound questions) (tasks (resume i w))
  ∧ user_activity (db (resume i w)) = user_activity (db w).
Proof.
  intros Hts. unfold resume.
  destruct (tasks w !! i) as [t|] eqn:Hi; [|split_and!; [by left|done|done]].
  assert (Ht : task_sound questions t).
  { eapply Forall_forall; [exact Hts|]. by eapply list_elem_of_lookup_2. }
  set (w1 := with_tasks (delete i (tasks w)) w).
  assert (Hts1 : Forall (task_sound questions) (tasks w1)).
  { simpl. by apply Forall_delete. }
  destruct t as [c|c|chatID k q]; simpl run_task.
  - destruct (asyncRecheck_effect c w1)
      as (r & w' & -> & (Hdb & Htasks & _) & [->| ->]);
      simpl; rewrite Hdb; (split_and!; [by left| |done]).
    + by rewrite Htasks.
    + rewrite Htasks. apply Forall_app. split; [done|]. by constructor.
  - destruct (asyncAnalyze_effect c w1) as (w' & Hrun & Htasks & _ & Hst).
    rewrite (bind_done _ _ _ _ _ Hrun). simpl. split_and!.
    + by eapply analysis_stored_moved.
    + by rewrite Htasks.
    + destruct Hst as [->|(? & fails & ? & ? & _ & ->)]; [done|].
      unfold CacheDeepseekResponse. by destruct fails.
  - destruct (helpAnalyze_effect chatID k q w1) as (w' & Hrun & Htasks & _ & Hst).
    rewrite (bind_done _ _ _ _ _ Hrun). simpl. split_and!.
    + by eapply analysis_stored_moved.
    + by rewrite Htasks.
    + destruct Hst as [->|(? & fails & ? & ? & _ & ->)]; [done|].
      unfold CacheDeepseekResponse. by destruct fails.
Qed.

Lemma step_effect (questions : list Question)
    (order_by : list (Z * Z) → list (Z * Z)) (w w' : World) :
  Forall (task_sound questions) (tasks w) →
  step questions order_by w w' →
  cache_moved questions (db w) (db w')
  ∧ Forall (task_sound questions) (tasks w').
Proof.
  intros Hts Hstep. destruct Hstep as [update w1 w2 Hrun|i w1 _|e w1|w1].
  - destruct (handleUpdate_effect questions order_by update w1)
      as (w3 & Hrun' & Hcache & _ & Htasks).
    rewrite Hrun in Hrun'. injection Hrun' as <-.
    split; [by left|].
    destruct Htasks as [->|(t & Ht & ->)]; [done|].
    apply Forall_app. split; [done|]. by constructor.
  - destruct (resume_effect questions i w1 Hts) as (? & ? & _). done.
  - split; [by left|done].
  - split; [by left|]. simpl. constructor.
Qed.

Lemma consistent_step (questions : list Question)
    (order_by : list (Z * Z) → list (Z * Z)) (w w' : World) :
  consistent questions w → step questions order_by w w' →
  consistent questions w'.
Proof.
  intros [Hc Hts] Hstep.
  destruct (step_effect questions order_by w w' Hts Hstep) as [Hm Hts'].
  split; [|done]. by eapply cache_sound_moved.
Qed.

Lemma reachable_consistent (questions : list Question)
    (order_by : list (Z * Z) → list (Z * Z)) (w : World) :
  reachable questions order_by w → consistent questions w.
Proof.
  intros (w0 & (Hdb & _ & _ & _ & Htasks) & Hsteps).
  assert (H0 : consistent questions w0).
  { split; [|by rewrite Htasks].
    intros k response i. rewrite Hdb. simpl. by rewrite lookup_empty. }
  clear Hdb Htasks. induction Hsteps as [w0|w0 w1 w2 Hstep _ IH]; [done|].
  apply IH. by eapply consistent_step.
Qed.

Lemma play_steps (questions : list Question)
    (order_by : list (Z * Z) → list (Z * Z)) (moves : list Move) (w : World) :
  rtc (step questions order_by) w (play questions order_by moves w).
Proof.
  revert w. induction moves as [|m moves IH]; intros w; [done|].
  unfold play. simpl. fold (play questions order_by moves).
  etransitivity; [|apply IH]. destruct m as [update|i|e|]; simpl.
  - apply rtc_once.
    destruct (handleUpdate_effect questions order_by update w) as (w' & Hrun & _).
    apply (step_update _ _ update). by rewrite Hrun.
  - destruct (tasks w !! i) as [t|] eqn:Hi.
    + apply rtc_once. by apply step_task.
    + unfold resume. by rewrite Hi.
  - apply rtc_once. constructor.
  - apply rtc_once. constructor.
Qed.

Lemma play_reachable (questions : list Question)
    (order_by : list (Z * Z) → list (Z * Z)) (moves : list Move) (e : Env) :
  reachable questions order_by (play questions order_by moves (started e)).
Proof. exists (started e). split; [done|]. apply play_steps. Qed.

Lemma SaveUserActivity_rows fails t userID q a correct d :
  user_activity (SaveUserActivity fails t userID q a correct d).1
  = user_activity d ++
    (if fails then []
     else [ {| UserID := userID; QuestionNumber := q; AnswerNumber := a;
               Correct := correct; Timestamp := t |} ]).
Proof. unfold SaveUserActivity. destruct fails; simpl; by rewrite ?app_nil_r. Qed.

Lemma effective_index_known (questions : list Question) (fails : bool)
    (qn : Z) (q : Question) (d : DB) :
  cache_sound questions d → find_question questions qn = Some q →
  RightAnswer q ≠ -1 → effective_index fails qn q d = RightAnswer q.
Proof.
  intros Hs Hq Hra. unfold effective_index, GetCachedDeepseekResponse.
  destruct fails; [done|].
  destruct (deepseek_cache d !! qn) as [[response i]|] eqn:Hlook; [|done].
  destruct (i =? -1) eqn:Hi; [done|]. apply Z.eqb_neq in Hi.
  destruct (Hs qn response i Hlook Hi) as (q' & Hq' & -> & _). congruence.
Qed.

Lemma effective_index_unresolved (fails : bool) (qn : Z) (q : Question) (d : DB) :
  RightAnswer q = -1 →
  (∀ response i, deepseek_cache d !! qn = Some (response, i) → i = -1) →
  effective_index fails qn q d = -1.
Proof.
  intros Hra Hc. unfold effective_index, GetCachedDeepseekResponse.
  destruct fails; [done|].
  destruct (deepseek_cache d !! qn) as [[response i]|] eqn:Hlook; [|done].
  rewrite (Hc response i eq_refl). done.
Qed.

(** ** The answer resolution engine *)

(** C3: in every state the process reaches from a new database, a
    submission for a question whose [RightAnswer] is not -1 is handled to
    the end by [handleCallback] itself: the answer is judged correct exactly
    when it equals [RightAnswer], the activity written (when the write does
    not fail) carries that verdict, the reply states it, and no AI call is
    made and no task is started. *)
Theorem known_answer_resolved_at_once (questions : list Question)
    (order_by : list (Z * Z) → list (Z * Z)) (w : World)
    (callback : CallbackQuery) (questionNum answerNum : Z) (question : Question) :
  reachable questions order_by w →
  parseCallback (cb_Data callback) = Some (questionNum, answerNum) →
  find_question questions questionNum = Some question →
  RightAnswer question ≠ -1 →
  let wasCorrect := bool_decide (answerNum = RightAnswer question) in
  ∃ w',
    handleCallback questions callback w = (Done tt, w')
    ∧ analyzed w' = analyzed w
    ∧ tasks w' = tasks w
    ∧ user_activity (db w')
      = user_activity (db w) ++
        (if failure 1 w then []
         else [activity_of callback questionNum answerNum wasCorrect w])
    ∧ outbox w'
      = outbox w ++
        [AnswerCallback (cb_ID callback) "Processing your answer...";
         SendText (cb_Chat callback)
           (if wasCorrect then correctReply
            else incorrectReply (shown question (RightAnswer question)))].
Proof.
  intros [Hc _]%reachable_consistent Hparse Hq Hra wasCorrect.
  rewrite (handleCallback_parsed _ _ _ _ _ _ Hparse Hq).
  set (w1 := with_outbox _ w).
  assert (Heff : effective_index (failure 0 w1) questionNum question (db w1)
                 = RightAnswer question) by by eapply effective_index_known.
  rewrite resolveAnswer_resolved by by rewrite Heff.
  rewrite Heff. eexists. split; [reflexivity|]. simpl.
  rewrite SaveUserActivity_rows.
  assert (Hb : (answerNum =? RightAnswer question) = wasCorrect).
  { subst wasCorrect. case_bool_decide; lia. }
  rewrite Hb. split_and!; try done. by rewrite <- app_assoc.
Qed.

Lemma known_answer_resolved_at_once_witness :
  let w :=
    play example_questions order_by_merge_sort
      [Deliver (command 1 "/next"); Deliver (command 1 "/help"); Run 0]
      (started (answering ["C is right"])) in
  deepseek_cache (db w) !! 6 = Some ("C is right", 2)
  ∧ ∃ w',
      handleUpdate example_questions order_by_merge_sort
        (press 1 "answer:6:2") w = (Done tt, w')
      ∧ analyzed w' = analyzed w
      ∧ user_activity (db w')
        = [ {| UserID := 1; QuestionNumber := 6; AnswerNumber := 2;
               Correct := true; Timestamp := 1700000000 |} ].
Proof.
  intros w. split; [by vm_compute|].
  destruct (known_answer_resolved_at_once example_questions
              order_by_merge_sort w
              {| cb_ID := "cb"; cb_From := 1; cb_Chat := 1;
                 cb_Data := "answer:6:2" |} 6 2 question6)
    as (w' & Hrun & Han & _ & Hrows & _).
  - apply play_reachable.
  - reflexivity.
  - reflexivity.
  - by vm_compute.
  - exists w'. split; [exact Hrun|]. split; [exact Han|].
    rewrite Hrows. reflexivity.
Defined.

(** C1 as the code has it: for a submission on a question with
    [RightAnswer] -1 and no resolved cache entry, [handleCallback] makes
    its one call of [SaveUserActivity] at submission time, before any AI
    call, with the provisional verdict [false]; and no task resumed later
    adds an Activity Record, whatever the AI call comes to. *)
Theorem activity_recorded_on_submission (questions : list Question)
    (w : World) (callback : CallbackQuery) (questionNum answerNum : Z)
    (question : Question) :
  parseCallback (cb_Data callback) = Some (questionNum, answerNum) →
  find_question questions questionNum = Some question →
  RightAnswer question = -1 →
  (∀ response i,
     deepseek_cache (db w) !! questionNum = Some (response, i) → i = -1) →
  (∃ w',
     handleCallback questions callback w = (Done tt, w')
     ∧ analyzed w' = analyzed w
     ∧ user_activity (db w')
       = user_activity (db w) ++
         (if failure 1 w then []
          else [activity_of callback questionNum answerNum false w]))
  ∧ (∀ i w1,
       length (user_activity (db (resume i w1)))
       = length (user_activity (db w1))).
Proof.
  intros Hparse Hq Hra Hcache. split.
  - rewrite (handleCallback_parsed _ _ _ _ _ _ Hparse Hq).
    set (w1 := with_outbox _ w).
    rewrite resolveAnswer_unresolved by by apply effective_index_unresolved.
    simpl. destruct (failure 2 w1); eexists; (split; [reflexivity|]); simpl;
      by rewrite SaveUserActivity_rows.
  - intros i w1. by rewrite resume_rows.
Qed.

Lemma activity_recorded_on_submission_witness :
  ∃ w',
    handleCallback example_questions
      {| cb_ID := "cb"; cb_From := 1; cb_Chat := 1; cb_Data := "answer:5:1" |}
      (started (answering ["B is correct"])) = (Done tt, w')
    ∧ analyzed w' = []
    ∧ user_activity (db w')
      = [ {| UserID := 1; QuestionNumber := 5; AnswerNumber := 1;
             Correct := false; Timestamp := 1700000000 |} ].
Proof.
  destruct (activity_recorded_on_submission example_questions
              (started (answering ["B is correct"]))
              {| cb_ID := "cb"; cb_From := 1; cb_Chat := 1;
                 cb_Data := "answer:5:1" |} 5 1 question5)
    as [(w' & Hrun & Han & Hrows) _].
  - reflexivity.
  - reflexivity.
  - reflexivity.
  - intros response i. simpl. by rewrite lookup_empty.
  - exists w'. split; [exact Hrun|]. split; [exact Han|]. exact Hrows.
Defined.

(** C1 as stated fails: the Activity Record of a submission on an
    unresolved question is in the database when [handleCallback] returns,
    before the AI is called, and it is still there after the AI call has
    timed out. *)
Lemma activity_recorded_before_verdict :
  let timing_out :=
    {| driver := []; deepseek := [DeadlineExceeded]; now := 1700000000;
       random := [] |} in
  let record :=
    {| UserID := 1; QuestionNumber := 5; AnswerNumber := 1; Correct := false;
       Timestamp := 1700000000 |} in
  let submitted :=
    play example_questions order_by_merge_sort
      [Deliver (press 1 "answer:5:1")] (started timing_out) in
  let finished :=
    play example_questions order_by_merge_sort [Run 0; Run 0] submitted in
  user_activity (db submitted) = [record]
  ∧ analyzed submitted = []
  ∧ analyzed finished = [question5]
  ∧ tasks finished = []
  ∧ last (outbox finished) = Some (EditText 1 1 (unavailableText "B"))
  ∧ user_activity (db finished) = [record].
Proof. by vm_compute. Qed.

(** C9 as the code has it: [handleCallback] judges an answer correct
    exactly when it equals the index it resolved (the cached one if there is
    one other than -1, else [RightAnswer]), so an answer outside
    [0, len(Answers)) is not judged correct when the resolved index lies
    inside; an index outside [0, len(Answers)) is shown as "Unknown"; and
    neither the handler nor any task ends in a panic, so no access to the
    answers is out of bounds. *)
Theorem answer_judged_by_equality (questions : list Question) (w : World)
    (callback : CallbackQuery) (questionNum answerNum : Z) (question : Question) :
  parseCallback (cb_Data callback) = Some (questionNum, answerNum) →
  find_question questions questionNum = Some question →
  let rightAnswer := effective_index (failure 0 w) questionNum question (db w) in
  let wasCorrect := bool_decide (rightAnswer ≠ -1 ∧ answerNum = rightAnswer) in
  (∃ w',
     handleCallback questions callback w = (Done tt, w')
     ∧ user_activity (db w')
       = user_activity (db w) ++
         (if failure 1 w then []
          else [activity_of callback questionNum answerNum wasCorrect w])
     ∧ (rightAnswer ≠ -1 →
        outbox w'
        = outbox w ++
          [AnswerCallback (cb_ID callback) "Processing your answer...";
           SendText (cb_Chat callback)
             (if wasCorrect then correctReply
              else incorrectReply
                     (if bool_decide (0 ≤ rightAnswer < len (Answers question))
                      then default "Unknown"
                             (Answers question !! Z.to_nat rightAnswer)
                      else "Unknown"))])
     ∧ (rightAnswer = -1 → failure 2 w = false →
        outbox w'
        = outbox w ++
          [AnswerCallback (cb_ID callback) "Processing your answer...";
           SendText (cb_Chat callback)
             (analyzingText
                (if bool_decide (0 ≤ answerNum < len (Answers question))
                 then default "Unknown"
                        (Answers question !! Z.to_nat answerNum)
                 else "Unknown"))]))
  ∧ (0 ≤ rightAnswer < len (Answers question) →
     ¬ 0 ≤ answerNum < len (Answers question) → wasCorrect = false)
  ∧ (∀ i, ¬ 0 ≤ i < len (Answers question) →
          answerText question i = ret "Unknown")
  ∧ (∀ callback' w1, ∃ w', handleCallback questions callback' w1 = (Done tt, w'))
  ∧ (∀ t w1, ∃ r w', run_task t w1 = (Done r, w')).
Proof.
  intros Hparse Hq rightAnswer wasCorrect. split_and!.
  - rewrite (handleCallback_parsed _ _ _ _ _ _ Hparse Hq).
    set (w1 := with_outbox _ w).
    destruct (decide (rightAnswer = -1)) as [Hra|Hra].
    + rewrite resolveAnswer_unresolved by done.
      assert (Hw : wasCorrect = false).
      { subst wasCorrect. case_bool_decide; naive_solver. }
      rewrite Hw. simpl. destruct (failure 2 w1) eqn:Hsend;
        eexists; (split; [reflexivity|]); simpl;
        rewrite SaveUserActivity_rows; (split_and!; [done|done|]).
      * intros _ Hs. unfold w1, failure in Hsend. simpl in Hsend.
        unfold failure in Hs. congruence.
      * intros _ _. by rewrite <- app_assoc.
    + rewrite resolveAnswer_resolved by done.
      change (effective_index (failure 0 w1) questionNum question (db w1))
        with rightAnswer.
      assert (Hw : (answerNum =? rightAnswer) = wasCorrect).
      { subst wasCorrect. case_bool_decide; [naive_solver lia|].
        apply Z.eqb_neq. naive_solver. }
      rewrite Hw. eexists. split; [reflexivity|]. simpl.
      rewrite SaveUserActivity_rows. split_and!; [done| |done].
      intros _. by rewrite <- app_assoc.
  - intros Hin Hout. subst wasCorrect. case_bool_decide; [|done].
    naive_solver lia.
  - intros i Hi. rewrite answerText_eq. unfold shown. by case_bool_decide.
  - intros callback' w1.
    destruct (handleCallback_effect questions callback' w1) as (w' & Hrun & _).
    by exists w'.
  - intros t w1. destruct (run_task_total t w1) as (r & w' & Hrun & _).
    by exists r, w'.
Qed.

Lemma answer_judged_by_equality_witness :
  ∃ w',
    handleCallback example_questions
      {| cb_ID := "cb"; cb_From := 1; cb_Chat := 1; cb_Data := "answer:6:9" |}
      (started (answering [])) = (Done tt, w')
    ∧ user_activity (db w')
      = [ {| UserID := 1; QuestionNumber := 6; AnswerNumber := 9;
             Correct := false; Timestamp := 1700000000 |} ].
Proof.
  destruct (answer_judged_by_equality example_questions (started (answering []))
              {| cb_ID := "cb"; cb_From := 1; cb_Chat := 1;
                 cb_Data := "answer:6:9" |} 6 9 question6)
    as [(w' & Hrun & Hrows & _) _].
  - reflexivity.
  - reflexivity.
  - exists w'. split; [exact Hrun|]. exact Hrows.
Defined.

(** C9 as stated fails: question 7 has no answers and 0 as its right
    answer (what [json.Unmarshal] gives an entry that has neither field);
    the one button [sendRandomQuestion] shows for it submits index 0, which
    is outside [0, 0) and is judged correct. *)
Lemma out_of_range_answer_judged_correct :
  let w :=
    play example_questions order_by_merge_sort
      [Deliver (press 1 "answer:7:0")] (started (answering [])) in
  ¬ 0 ≤ 0 < len (Answers question7)
  ∧ callbackData (Number question7) 0 = "answer:7:0"
  ∧ user_activity (db w)
    = [ {| UserID := 1; QuestionNumber := 7; AnswerNumber := 0;
           Correct := true; Timestamp := 1700000000 |} ]
  ∧ outbox w
    = [AnswerCallback "cb" "Processing your answer..."; SendText 1 correctReply].
Proof. split; [unfold len; simpl; lia|]. by vm_compute. Qed.

(** ** The cache under the handlers *)

(** C2 as the code has it: a successful cache write replaces the entry
    stored under its question number, whatever it was, and touches no other
    key; and in every state the process reaches from a new database, an
    entry whose index is not -1 still has that index after any step of the
    process (its text may change): the process never overwrites a resolved
    index with -1. *)
Theorem cache_write_replaces_index_kept (questions : list Question)
    (order_by : list (Z * Z) → list (Z * Z)) :
  (∀ fails k text i d d',
     CacheDeepseekResponse fails k text i d = (d', None) →
     deepseek_cache d' !! k = Some (text, i)
     ∧ ∀ k', k' ≠ k → deepseek_cache d' !! k' = deepseek_cache d !! k')
  ∧ (∀ w w' k text i,
       reachable questions order_by w → step questions order_by w w' →
       deepseek_cache (db w) !! k = Some (text, i) → i ≠ -1 →
       ∃ text', deepseek_cache (db w') !! k = Some (text', i)).
Proof.
  split.
  - intros fails k text i d d' (_ & -> & _)%CacheDeepseekResponse_lookup.
    split; [by rewrite lookup_insert_eq|].
    intros k' Hk. by rewrite lookup_insert_ne.
  - intros w w' k text i [Hc Hts]%reachable_consistent Hstep Hlook Hi.
    destruct (step_effect questions order_by w w' Hts Hstep) as [Hm _].
    by eapply resolved_index_kept.
Qed.

Lemma cache_write_replaces_index_kept_witness :
  let w :=
    play example_questions order_by_merge_sort
      [Deliver (command 1 "/next"); Deliver (command 1 "/help"); Run 0;
       Deliver (command 1 "/help")]
      (started (answering [""; "C is right"])) in
  deepseek_cache (db w) !! 6 = Some ("", 2)
  ∧ ∃ text', deepseek_cache (db (resume 0 w)) !! 6 = Some (text', 2).
Proof.
  intros w. split; [by vm_compute|].
  apply (proj2 (cache_write_replaces_index_kept example_questions
                  order_by_merge_sort) w (resume 0 w) 6 "" 2).
  - apply play_reachable.
  - apply step_task. vm_compute. by eexists.
  - by vm_compute.
  - done.
Defined.

(** C2 as stated fails.  The write itself replaces a resolved entry, also
    by one with index -1; and in a run of the process the text stored with
    a resolved index changes: the AI answers the first request for help on
    question 6 with an empty content, which is cached with index 2, and the
    second request for help overwrites it. *)
Lemma resolved_entry_overwritten :
  let stored := (CacheDeepseekResponse false 5 "B is correct" 1 database.empty).1 in
  let w :=
    play example_questions order_by_merge_sort
      [Deliver (command 1 "/next"); Deliver (command 1 "/help"); Run 0;
       Deliver (command 1 "/help")]
      (started (answering [""; "C is right"])) in
  deepseek_cache stored !! 5 = Some ("B is correct", 1)
  ∧ deepseek_cache (CacheDeepseekResponse false 5 "no idea" (-1) stored).1 !! 5
    = Some ("no idea", -1)
  ∧ deepseek_cache (db w) !! 6 = Some ("", 2)
  ∧ deepseek_cache (db (resume 0 w)) !! 6 = Some ("C is right", 2).
Proof. by vm_compute. Qed.

(** ** Calls of the AI *)

(** C4 fails on the code: two submissions for question 5, whose answer is
    not known, make two calls of [AnalyzeQuestion] for it.  This is so when
    the second arrives after the first is finished, because the entry the
    first one caches has index -1 and [handleCallback] does not count it as
    a hit; and when both goroutines look into the cache before either calls
    the AI.  Both runs are runs of the process. *)
Theorem unresolved_question_analyzed_twice :
  let w0 := started (answering ["B is correct because"; "B is correct, again"]) in
  let one_by_one :=
    play example_questions order_by_merge_sort
      [Deliver (press 1 "answer:5:1"); Run 0; Run 0;
       Deliver (press 2 "answer:5:2"); Run 0; Run 0] w0 in
  let raced :=
    play example_questions order_by_merge_sort
      [Deliver (press 1 "answer:5:1"); Deliver (press 2 "answer:5:2");
       Run 0; Run 0; Run 0; Run 0] w0 in
  analyzed one_by_one = [question5; question5]
  ∧ analyzed raced = [question5; question5]
  ∧ deepseek_cache (db one_by_one) !! 5 = Some ("B is correct, again", -1)
  ∧ tasks one_by_one = [] ∧ tasks raced = []
  ∧ reachable example_questions order_by_merge_sort one_by_one
  ∧ reachable example_questions order_by_merge_sort raced.
Proof.
  intros w0 one_by_one raced.
  split_and!; try by vm_compute.
  - apply play_reachable.
  - apply play_reachable.
Qed.

(** * Further properties of the code *)

(** ** Callback data: what [sendRandomQuestion] writes, [handleCallback] reads *)

Lemma digit_pretty_N_char (x : N) :
  (x < 10)%N → strconv.digit (pretty_N_char x) = Some (Z.of_N x).
Proof.
  intros Hx.
  assert (x = 0 ∨ x = 1 ∨ x = 2 ∨ x = 3 ∨ x = 4 ∨ x = 5 ∨ x = 6 ∨ x = 7
          ∨ x = 8 ∨ x = 9)%N as Hc by lia.
  repeat (destruct Hc as [->|Hc]; [reflexivity|]). by subst.
Qed.

Lemma digits_pretty_N_go (x : N) :
  ∃ k : nat, ∀ acc s,
    strconv.digits acc (pretty_N_go x s)
    = strconv.digits (acc * 10 ^ Z.of_nat k + Z.of_N x) s.
Proof.
  induction (N.lt_wf_0 x) as [x _ IH].
  destruct (decide (x = 0%N)) as [->|Hx].
  - exists O. intros acc s. rewrite pretty_N_go_0. f_equal. simpl. lia.
  - destruct (IH (x `div` 10)%N) as [k Hk].
    { apply N.div_lt; lia. }
    exists (S k). intros acc s. rewrite pretty_N_go_step by lia.
    rewrite Hk. simpl strconv.digits.
    rewrite digit_pretty_N_char by (apply N.mod_lt; lia).
    f_equal. rewrite Nat2Z.inj_succ, Z.pow_succ_r by lia.
    pose proof (N.div_mod x 10 ltac:(lia)) as Hdm.
    assert (Z.of_N x = 10 * Z.of_N (x `div` 10) + Z.of_N (x `mod` 10)) by lia.
    lia.
Qed.

Lemma all_bytes_app P s1 s2 :
  all_bytes P (s1 +:+ s2) = all_bytes P s1 && all_bytes P s2.
Proof.
  induction s1 as [|c s1 IH]; simpl; [done|].
  by rewrite IH, andb_assoc.
Qed.

Lemma all_bytes_pretty_N_go P (x : N) (s : string) :
  (∀ d, (d < 10)%N → P (pretty_N_char d) = true) →
  all_bytes P (pretty_N_go x s) = all_bytes P s.
Proof.
  intros HP. revert s. induction (N.lt_wf_0 x) as [x _ IH]; intros s.
  destruct (decide (x = 0%N)) as [->|Hx]; [by rewrite pretty_N_go_0|].
  rewrite pretty_N_go_step by lia. rewrite IH by (apply N.div_lt; lia).
  simpl. rewrite HP; [done|]. apply N.mod_lt; lia.
Qed.

Lemma pretty_N_go_head (x : N) (s : string) :
  (0 < x)%N →
  ∃ d rest, (d < 10)%N ∧ pretty_N_go x s = String (pretty_N_char d) rest.
Proof.
  revert s. induction (N.lt_wf_0 x) as [x _ IH]; intros s Hx.
  rewrite pretty_N_go_step by done.
  destruct (decide (x `div` 10 = 0)%N) as [->|Hd].
  - rewrite pretty_N_go_0. exists (x `mod` 10)%N, s. split; [|done].
    apply N.mod_lt; lia.
  - apply IH; [apply N.div_lt; lia|].
    by apply N.neq_0_lt_0.
Qed.

Lemma is_digit_pretty_N_char (d : N) :
  (d < 10)%N → is_digit (pretty_N_char d) = true.
Proof. intros Hd. unfold is_digit. by rewrite digit_pretty_N_char. Qed.

Lemma unsigned_pretty_positive (p : positive) :
  ∃ c rest,
    pretty (Npos p) = String c rest ∧ is_digit c = true
    ∧ all_bytes is_digit (pretty (Npos p)) = true
    ∧ strconv.unsigned (pretty (Npos p)) = Some (Zpos p).
Proof.
  unfold pretty, pretty_N. case_decide; [done|].
  destruct (pretty_N_go_head (Npos p) "") as (d & rest & Hd & Heq); [lia|].
  exists (pretty_N_char d), rest. split; [done|].
  split; [by apply is_digit_pretty_N_char|]. split.
  - rewrite all_bytes_pretty_N_go; [done|]. apply is_digit_pretty_N_char.
  - unfold strconv.unsigned. rewrite Heq. rewrite <- Heq.
    destruct (digits_pretty_N_go (Npos p)) as [k Hk]. rewrite Hk. simpl.
    f_equal.
Qed.

Lemma Atoi_itoa (n : Z) :
  strconv.minInt ≤ n ≤ strconv.maxInt → strconv.Atoi (itoa n) = Some n.
Proof.
  intros Hn. unfold itoa, pretty, pretty_Z. destruct n as [|p|p].
  - reflexivity.
  - destruct (unsigned_pretty_positive p) as (c & rest & Heq & Hc & _ & Hu).
    unfold pretty, pretty_positive. unfold strconv.Atoi. rewrite Heq.
    assert (c ≠ "-"%char ∧ c ≠ "+"%char) as [H1 H2].
    { split; intros ->; by vm_compute in Hc. }
    rewrite !bool_decide_eq_false_2 by done.
    rewrite <- Heq, Hu.
    destruct (Z.leb_spec strconv.minInt (Z.pos p)),
      (Z.leb_spec (Z.pos p) strconv.maxInt); simpl; try done; lia.
  - destruct (unsigned_pretty_positive p) as (c & rest & Heq & Hc & _ & Hu).
    unfold pretty, pretty_positive. unfold strconv.Atoi. simpl.
    change ("" +:+ pretty (N.pos p)) with (pretty (N.pos p)).
    rewrite Hu. change (Z.opp <$> Some (Z.pos p)) with (Some (Z.neg p)).
    cbv iota.
    destruct (Z.leb_spec strconv.minInt (Z.neg p)),
      (Z.leb_spec (Z.neg p) strconv.maxInt); simpl; try done; lia.
Qed.

Lemma itoa_no_colon (n : Z) : all_bytes not_colon (itoa n) = true.
Proof.
  assert (Hd : ∀ d, (d < 10)%N → not_colon (pretty_N_char d) = true).
  { intros d Hd.
    assert (d = 0 ∨ d = 1 ∨ d = 2 ∨ d = 3 ∨ d = 4 ∨ d = 5 ∨ d = 6 ∨ d = 7
            ∨ d = 8 ∨ d = 9)%N as Hc by lia.
    repeat (destruct Hc as [->|Hc]; [reflexivity|]). by subst. }
  assert (Hp : ∀ p, all_bytes not_colon (pretty (Npos p)) = true).
  { intros p. unfold pretty, pretty_N. case_decide; [done|].
    by rewrite all_bytes_pretty_N_go. }
  unfold itoa, pretty, pretty_Z. destruct n as [|p|p]; [done|apply Hp|].
  simpl. apply Hp.
Qed.

Lemma Split_no_separator (s : string) (sep : ascii) :
  all_bytes (λ c, negb (bool_decide (c = sep))) s = true →
  strings.Split s sep = [s].
Proof.
  induction s as [|c s IH]; simpl; [done|].
  intros [Hc Hs]%andb_true_iff. rewrite IH by done.
  by destruct (bool_decide (c = sep)).
Qed.

Lemma Split_at_separator (a b : string) (sep : ascii) :
  all_bytes (λ c, negb (bool_decide (c = sep))) a = true →
  strings.Split (a +:+ String sep b) sep = a :: strings.Split b sep.
Proof.
  induction a as [|c a IH]; simpl.
  - intros _. by rewrite bool_decide_eq_true_2.
  - intros [Hc Hs]%andb_true_iff. rewrite IH by done.
    by destruct (bool_decide (c = sep)).
Qed.

Lemma HasPrefix_app (prefix s : string) :
  strings.HasPrefix (prefix +:+ s) prefix = true.
Proof.
  induction prefix as [|c prefix IH]; simpl; [by destruct s|].
  by rewrite bool_decide_eq_true_2.
Qed.

Lemma TrimPrefix_app (prefix s : string) :
  strings.TrimPrefix (prefix +:+ s) prefix = s.
Proof.
  unfold strings.TrimPrefix. rewrite HasPrefix_app.
  induction prefix as [|c prefix IH]; simpl; [done|]. apply IH.
Qed.

Lemma parseCallback_callbackData (n i : Z) :
  strconv.minInt ≤ n ≤ strconv.maxInt →
  strconv.minInt ≤ i ≤ strconv.maxInt →
  parseCallback (callbackData n i) = Some (n, i).
Proof.
  intros Hn Hi. unfold parseCallback, callbackData, callbackPrefix.
  rewrite HasPrefix_app, TrimPrefix_app. simpl negb. cbv iota.
  change (itoa n +:+ ":" +:+ itoa i)
    with (itoa n +:+ String ":"%char (itoa i)).
  rewrite Split_at_separator by apply itoa_no_colon.
  rewrite Split_no_separator by apply itoa_no_colon.
  by rewrite !Atoi_itoa.
Qed.

(** X1: the callback data [sendRandomQuestion] puts on a button for question
    number [n] and answer index [i] is read back by [handleCallback] as
    exactly [(n, i)], for all values of Go's 64-bit [int]. *)
Theorem callbackData_parsed (n i : Z) :
  strconv.minInt ≤ n ≤ strconv.maxInt →
  strconv.minInt ≤ i ≤ strconv.maxInt →
  parseCallback (callbackData n i) = Some (n, i).
Proof.
  intros Hn Hi. unfold parseCallback, callbackData, callbackPrefix.
  rewrite HasPrefix_app, TrimPrefix_app. simpl negb. cbv iota.
  change (itoa n +:+ ":" +:+ itoa i)
    with (itoa n +:+ String ":"%char (itoa i)).
  rewrite Split_at_separator by apply itoa_no_colon.
  rewrite Split_no_separator by apply itoa_no_colon.
  by rewrite !Atoi_itoa.
Qed.

Lemma callbackData_parsed_witness :
  parseCallback (callbackData 310 (-2)) = Some (310, -2).
Proof. apply callbackData_parsed; vm_compute; split; discriminate. Defined.

(** ** The session and the keyboard of a new question *)

Lemma draw_random_effect (w : World) :
  ∃ r e, draw_random w = (Done r, with_env e w).
Proof.
  unfold draw_random. destruct (random (env w)) as [|r rs]; [|by eexists _, _].
  exists O, (env w). by destruct w.
Qed.

Lemma sendImage_effect (chatID : Z) (imagePath caption : string) (w : World) :
  ∃ e events,
    sendImage chatID imagePath caption w
    = (Done tt, with_outbox (outbox w ++ events) (with_env e w))
    ∧ events ≠ [].
Proof.
  unfold sendImage, emit, modify.
  erewrite bind_done by reflexivity.
  match goal with |- ∃ _ _, bind draw_failure _ ?w0 = _ ∧ _ =>
    rewrite (bind_done _ _ _ _ _ (draw_failure_eq w0)) end.
  destruct (failure 0 _).
  - eexists _, [_; _]. split; [|done].
    unfold sendMessage, emit, modify, after_calls. simpl.
    by rewrite <- app_assoc.
  - eexists _, [_]. split; [|done]. unfold ret, after_calls. simpl. done.
Qed.

Lemma keyboard_button_parsed (q : Question) (i : nat) (b : string * string) :
  go_question q →
  imap (λ i answer, (answer, callbackData (Number q) (Z.of_nat i))) (Answers q)
    !! i = Some b →
  parseCallback b.2 = Some (Number q, Z.of_nat i).
Proof.
  intros [Hn Hlen] Hb. rewrite list_lookup_imap in Hb.
  destruct (Answers q !! i) as [answer|] eqn:Hi; [|done].
  injection Hb as <-. simpl. apply parseCallback_callbackData; [done|].
  apply lookup_lt_Some in Hi. unfold len, strconv.minInt in *. lia.
Qed.

(** X2: with an empty question set [sendRandomQuestion] only says so and
    leaves the sessions alone.  Otherwise it picks a question of the set,
    makes its number the session of the chat (and of no other chat),
    touches neither the database nor the tasks nor the AI, and its last
    request is a keyboard with one button per answer, or one button when
    there is no answer; the data of button [i] is read back by
    [handleCallback] as that question and index [i]. *)
Theorem sendRandomQuestion_session (questions : list Question) (chatID : Z)
    (w : World) :
  Forall go_question questions →
  (questions = [] →
   sendRandomQuestion questions chatID w
   = (Done tt,
      with_outbox
        (outbox w ++
           [SendText chatID "No questions available. Please try again later."])
        w))
  ∧ (questions ≠ [] →
     ∃ question w' events buttons,
       sendRandomQuestion questions chatID w = (Done tt, w')
       ∧ question ∈ questions
       ∧ userQuestions w' = <[chatID := Number question]> (userQuestions w)
       ∧ same_state w w'
       ∧ outbox w'
         = outbox w ++ events ++
           [SendKeyboard chatID "Please select your answer:" buttons]
       ∧ length buttons = Nat.max 1 (length (Answers question))
       ∧ ∀ i b, buttons !! i = Some b →
                parseCallback b.2 = Some (Number question, Z.of_nat i)).
Proof.
  intros Hgo. split.
  - intros ->. reflexivity.
  - intros Hne. unfold sendRandomQuestion.
    assert (Hlen : 0 < len questions).
    { unfold len. destruct questions; [done|]. simpl. lia. }
    destruct (Z.eqb_spec (len questions) 0) as [?|_]; [lia|].
    destruct (draw_random_effect w) as (r & e & Hr).
    rewrite (bind_done _ _ _ _ _ Hr).
    destruct (index_in_range questions (Z.of_nat r `mod` len questions))
      as (q & Hq & ->).
    { by apply Z.mod_pos_bound. }
    assert (Hin : q ∈ questions) by by eapply list_elem_of_lookup_2.
    assert (Hgq : go_question q) by by eapply Forall_forall.
    unfold ret at 1. unfold bind at 1. unfold modify at 1. unfold bind at 1.
    set (w1 := with_userQuestions _ (with_env e w)).
    assert (Hmsg : ∃ e' events,
      (if nonempty (Image q)
       then sendImage chatID (filepath_Join "assets" (Image q))
              ("Question #" +:+ itoa (Number q) +:+ ":")
       else sendMessage chatID
              ("Question #" +:+ itoa (Number q) +:+ ": " +:+ QuestionText q)) w1
      = (Done tt, with_outbox (outbox w1 ++ events) (with_env e' w1))).
    { destruct (nonempty (Image q)).
      - destruct (sendImage_effect chatID (filepath_Join "assets" (Image q))
                    ("Question #" +:+ itoa (Number q) +:+ ":") w1)
          as (e' & events & Hrun & _). by exists e', events.
      - exists (env w1),
          [SendText chatID
             ("Question #" +:+ itoa (Number q) +:+ ": " +:+ QuestionText q)].
        unfold sendMessage, emit, modify. simpl. by destruct w. }
    destruct Hmsg as (e' & events & Hmsg).
    destruct (nonempty (Image q)) eqn:Himg;
      rewrite (bind_done _ _ _ _ _ Hmsg); unfold emit, modify;
      eexists q, _, events, _; (split; [reflexivity|]); simpl;
      (split_and!; [done|done|done|by rewrite <- app_assoc| |]).
    all: destruct (Answers q) as [|a0 answers] eqn:Ha; simpl; try done.
    all: try (rewrite length_imap; lia).
    + intros [|i] b Hb; [|done]. injection Hb as <-. simpl.
      apply parseCallback_callbackData; [apply Hgq|]. by vm_compute.
    + intros i b Hb. apply (keyboard_button_parsed q i b Hgq).
      by rewrite Ha.
    + intros [|i] b Hb; [|done]. injection Hb as <-. simpl.
      apply parseCallback_callbackData; [apply Hgq|]. by vm_compute.
    + intros i b Hb. apply (keyboard_button_parsed q i b Hgq).
      by rewrite Ha.
Qed.

Lemma sendRandomQuestion_session_witness :
  ∃ question w',
    sendRandomQuestion example_questions 1 (started (answering []))
    = (Done tt, w')
    ∧ question ∈ example_questions
    ∧ userQuestions w' !! 1 = Some (Number question).
Proof.
  destruct (sendRandomQuestion_session example_questions 1
              (started (answering []))) as [_ Hpick].
  - repeat constructor; by vm_compute.
  - destruct (Hpick ltac:(done))
      as (question & w' & _ & _ & Hrun & Hin & Hsession & _).
    exists question, w'. split; [exact Hrun|]. split; [exact Hin|].
    rewrite Hsession. apply lookup_insert_eq.
Defined.

(** ** Help *)

Lemma run_deepseek_AnalyzeQuestion_next (question : Question) (w : World) :
  ∃ e,
    deepseek_AnalyzeQuestion question w
    = (Done (AnalyzeQuestion (next_api w) question),
       with_env e (with_analyzed (analyzed w ++ [question]) w))
    ∧ driver e = driver (env w).
Proof.
  unfold deepseek_AnalyzeQuestion, bind, modify, draw_api, ret, next_api.
  simpl. destruct (deepseek (env w)) as [|o os]; simpl.
  - exists (env w). split; [|done]. by destruct w.
  - by eexists.
Qed.

Lemma AnalyzeQuestion_content (question : Question) (content : string)
    (rest : list string) :
  AnalyzeQuestion (Responded StatusOK (Some (content :: rest))) question
  = (content, extractRightAnswerFromContent content question, None).
Proof. unfold AnalyzeQuestion. by rewrite Z.eqb_refl. Qed.

Lemma nonempty_true (s : string) : s ≠ "" → nonempty s = true.
Proof. intros H. unfold nonempty. by rewrite bool_decide_eq_false_2. Qed.

Lemma handleHelpCommand_cached (questions : list Question)
    (message : Message) (w : World) (questionNum : Z) (question : Question)
    (text : string) (i : Z) :
  userQuestions w !! msg_From message = Some questionNum →
  find_question questions questionNum = Some question →
  deepseek_cache (db w) !! questionNum = Some (text, i) →
  text ≠ "" →
  failure 0 w = false →
  ∃ w',
    handleHelpCommand questions message w = (Done tt, w')
    ∧ outbox w' = outbox w ++ [SendText (msg_Chat message) (helpText text)]
    ∧ same_state w w'.
Proof.
  intros Hsession Hq Hcache Htext Hok. unfold handleHelpCommand.
  unfold gets at 1. erewrite bind_done by reflexivity.
  rewrite Hsession, Hq.
  rewrite (bind_done _ _ _ _ _ (run_db_GetCachedDeepseekResponse _ w)).
  unfold GetCachedDeepseekResponse. rewrite Hok, Hcache.
  rewrite nonempty_true by done.
  eexists. split; [reflexivity|]. by split.
Qed.

(** X3: a request for help is answered from the cache whenever the cache
    lookup succeeds and holds a text that is not empty for the question of
    the session: the cached text is sent, the AI is not called, no task is
    started and the database stays as it is. *)
Theorem help_answered_from_cache (questions : list Question)
    (message : Message) (w : World) (questionNum : Z) (question : Question)
    (text : string) (i : Z) :
  userQuestions w !! msg_From message = Some questionNum →
  find_question questions questionNum = Some question →
  deepseek_cache (db w) !! questionNum = Some (text, i) →
  text ≠ "" →
  failure 0 w = false →
  ∃ w',
    handleHelpCommand questions message w = (Done tt, w')
    ∧ outbox w' = outbox w ++ [SendText (msg_Chat message) (helpText text)]
    ∧ same_state w w'.
Proof.
  intros Hsession Hq Hcache Htext Hok. unfold handleHelpCommand.
  unfold gets at 1. erewrite bind_done by reflexivity.
  rewrite Hsession, Hq.
  rewrite (bind_done _ _ _ _ _ (run_db_GetCachedDeepseekResponse _ w)).
  unfold GetCachedDeepseekResponse. rewrite Hok, Hcache.
  rewrite nonempty_true by done.
  eexists. split; [reflexivity|]. by split.
Qed.

Lemma help_answered_from_cache_witness :
  let w :=
    play example_questions order_by_merge_sort
      [Deliver (command 1 "/next"); Deliver (command 1 "/help"); Run 0]
      (started (answering ["C is right"])) in
  ∃ w',
    handleHelpCommand example_questions
      {| msg_From := 1; msg_Chat := 1; msg_Text := "/help" |} w = (Done tt, w')
    ∧ outbox w' = outbox w ++ [SendText 1 (helpText "C is right")]
    ∧ same_state w w'.
Proof.
  intros w.
  apply (help_answered_from_cache example_questions
           {| msg_From := 1; msg_Chat := 1; msg_Text := "/help" |} w 6
           question6 "C is right" 2);
    [by vm_compute|reflexivity|by vm_compute|done|by vm_compute].
Defined.

Lemma analysis_stored_other (question : Question) (k k' : Z) (d d' : DB) :
  analysis_stored question k' d d' → k' ≠ k →
  deepseek_cache d' !! k = deepseek_cache d !! k.
Proof.
  intros [->|(o & fails & response & i & _ & ->)] Hne; [done|].
  unfold CacheDeepseekResponse. destruct fails; simpl; [done|].
  by rewrite lookup_insert_ne.
Qed.

Lemma move_spares (questions : list Question)
    (order_by : list (Z * Z) → list (Z * Z)) (k : Z) (w : World) (m : Move) :
  spares k w m →
  deepseek_cache (db (move questions order_by w m)) !! k
  = deepseek_cache (db w) !! k.
Proof.
  destruct m as [update|i|e|]; simpl; [|unfold resume|done..].
  - intros _.
    destruct (handleUpdate_effect questions order_by update w)
      as (w' & Hrun & Hcache & _).
    rewrite Hrun. simpl. by rewrite Hcache.
  - destruct (tasks w !! i) as [[c|c|chatID k' q]|]; [| | |done];
      intros Hk; simpl run_task;
      set (w1 := with_tasks (delete i (tasks w)) w).
    + destruct (asyncRecheck_effect c w1) as (r & w' & Hrun & (Hdb & _) & _).
      rewrite Hrun. destruct r; simpl; by rewrite Hdb.
    + destruct (asyncAnalyze_effect c w1) as (w' & Hrun & _ & _ & Hdb).
      rewrite (bind_done _ _ _ _ _ Hrun). simpl.
      by apply (analysis_stored_other _ _ _ _ _ Hdb).
    + destruct (helpAnalyze_effect chatID k' q w1) as (w' & Hrun & _ & _ & Hdb).
      rewrite (bind_done _ _ _ _ _ Hrun). simpl.
      by apply (analysis_stored_other _ _ _ _ _ Hdb).
Qed.

Lemma play_spared (questions : list Question)
    (order_by : list (Z * Z) → list (Z * Z)) (k : Z) (moves : list Move)
    (w : World) :
  spared questions order_by k moves w →
  deepseek_cache (db (play questions order_by moves w)) !! k
  = deepseek_cache (db w) !! k.
Proof.
  revert w. induction moves as [|m moves IH]; intros w; [done|].
  intros [Hm Hmoves].
  change (play questions order_by (m :: moves) w)
    with (play questions order_by moves (move questions order_by w m)).
  rewrite (IH _ Hmoves). by apply move_spares.
Qed.

(** X4: an analysis requested by /help that succeeds with a text that is
    not empty, and whose cache write does not fail, is stored under the
    question number with the index the adapter returned.  From then on, as
    long as no analysis of the same question is run (its result would
    replace the entry), and whatever updates arrive, other tasks run, the
    environment does or the process restarts in between, a request for help
    of any user whose session is that question and whose cache lookup does
    not fail is answered with this text without a call of the AI. *)
Theorem help_analysis_cached_and_reused (questions : list Question)
    (order_by : list (Z * Z) → list (Z * Z))
    (chatID questionNum : Z) (question : Question) (w : World)
    (content : string) (rest : list string) :
  next_api w = Responded StatusOK (Some (content :: rest)) →
  content ≠ "" →
  failure 0 w = false →
  ∃ w1,
    helpAnalyze chatID questionNum question w = (Done tt, w1)
    ∧ analyzed w1 = analyzed w ++ [question]
    ∧ deepseek_cache (db w1) !! questionNum
      = Some (content, extractRightAnswerFromContent content question)
    ∧ outbox w1 = outbox w ++ [SendText chatID (helpText content)]
    ∧ ∀ moves message question',
        spared questions order_by questionNum moves w1 →
        let w2 := play questions order_by moves w1 in
        userQuestions w2 !! msg_From message = Some questionNum →
        find_question questions questionNum = Some question' →
        failure 0 w2 = false →
        ∃ w3,
          handleHelpCommand questions message w2 = (Done tt, w3)
          ∧ outbox w3
            = outbox w2 ++ [SendText (msg_Chat message) (helpText content)]
          ∧ analyzed w3 = analyzed w2
          ∧ tasks w3 = tasks w2.
Proof.
  intros Hapi Hcontent Hok. unfold helpAnalyze.
  destruct (run_deepseek_AnalyzeQuestion_next question w) as (e0 & Hrun & He0).
  rewrite (bind_done _ _ _ _ _ Hrun). rewrite Hapi, AnalyzeQuestion_content.
  rewrite (bind_done _ _ _ _ _ (run_db_CacheDeepseekResponse _ _ _ _)).
  assert (Hf : failure 0 (with_env e0 (with_analyzed (analyzed w ++ [question]) w))
               = false).
  { unfold failure in *. simpl. by rewrite He0. }
  rewrite Hf. eexists. split; [reflexivity|].
  set (w1 := with_outbox _ _).
  assert (Hstored : deepseek_cache (db w1) !! questionNum
                    = Some (content,
                            extractRightAnswerFromContent content question)).
  { simpl. by rewrite lookup_insert_eq. }
  split_and!; try done.
  intros moves message question' Hmoves Hsession Hq Hw2.
  set (w2 := play questions order_by moves w1) in *.
  destruct (handleHelpCommand_cached questions message w2 questionNum
              question' content
              (extractRightAnswerFromContent content question))
    as (w3 & Hrun3 & Hout & _ & Htasks & Han); try done.
  - unfold w2. by rewrite (play_spared _ _ _ _ _ Hmoves).
  - exists w3. split; [exact Hrun3|]. by split_and!.
Qed.

Lemma help_analysis_cached_and_reused_witness :
  let moves :=
    [Deliver (command 2 "/next"); Deliver (press 2 "answer:6:0"); Restart;
     Environment (answering []); Deliver (command 3 "/next")] in
  let message := {| msg_From := 3; msg_Chat := 3; msg_Text := "/help" |} in
  ∃ w1 w3,
    helpAnalyze 1 6 question6 (started (answering ["C is right"]))
    = (Done tt, w1)
    ∧ deepseek_cache (db w1) !! 6 = Some ("C is right", 2)
    ∧ handleHelpCommand example_questions message
        (play example_questions order_by_merge_sort moves w1)
      = (Done tt, w3)
    ∧ last (outbox w3) = Some (SendText 3 (helpText "C is right")).
Proof.
  intros moves message.
  destruct (help_analysis_cached_and_reused example_questions
              order_by_merge_sort 1 6 question6
              (started (answering ["C is right"])) "C is right" [])
    as (w1 & Hrun & _ & Hcache & _ & Hlater); [reflexivity|done|reflexivity|].
  pose proof Hrun as Hw1. vm_compute in Hw1. injection Hw1 as Hw1.
  destruct (Hlater moves message question6) as (w3 & Hrun3 & Hout & _).
  - rewrite <- Hw1. vm_compute. tauto.
  - rewrite <- Hw1. by vm_compute.
  - reflexivity.
  - rewrite <- Hw1. by vm_compute.
  - exists w1, w3. split; [exact Hrun|]. split; [exact Hcache|].
    split; [exact Hrun3|]. rewrite Hout. apply last_snoc.
Defined.

(** An analysis of the same question replaces the text: here the goroutine
    of an answer to question 5 writes over the text that /help stored. *)
Example help_text_replaced_by_analysis :
  let w1 :=
    (helpAnalyze 1 5 question5 (started (answering ["first"; "second"]))).2 in
  let w2 :=
    play example_questions order_by_merge_sort
      [Deliver (press 2 "answer:5:1"); Run 0; Run 0] w1 in
  deepseek_cache (db w1) !! 5 = Some ("first", -1)
  ∧ deepseek_cache (db w2) !! 5 = Some ("second", -1).
Proof. by vm_compute. Qed.

Lemma AnalyzeQuestion_error (o : api_outcome) (question : Question) :
  (∀ content rest, o ≠ Responded StatusOK (Some (content :: rest))) →
  ∃ text e, AnalyzeQuestion o question = (text, -1, Some e).
Proof.
  intros Ho. destruct o as [| | | | |status parsed]; simpl; eauto.
  destruct (Z.eqb_spec status StatusOK) as [->|?]; simpl; eauto.
  destruct parsed as [[|content rest]|]; eauto. by destruct (Ho content rest).
Qed.

(** X5: when the request to the AI fails in any way (also on a timeout, for
    which the adapter returns an apology as text), nothing is written to
    the cache or to any other table: the goroutine of an answer edits its
    placeholder to the text that no verdict is available, [handleHelpCommand]
    sends its apology, and that is all they do besides the call itself. *)
Theorem failed_analysis_not_cached (c : Closure) (chatID questionNum : Z)
    (question : Question) (w : World) :
  (∀ content rest, next_api w ≠ Responded StatusOK (Some (content :: rest))) →
  (∃ w',
     asyncAnalyze c w = (Done tt, w')
     ∧ db w' = db w
     ∧ tasks w' = tasks w
     ∧ analyzed w' = analyzed w ++ [c_question c]
     ∧ outbox w'
       = outbox w ++
         [EditText (c_chatID c) (c_initialMessageID c)
            (unavailableText (c_userAnswer c))])
  ∧ (∃ w',
       helpAnalyze chatID questionNum question w = (Done tt, w')
       ∧ db w' = db w
       ∧ tasks w' = tasks w
       ∧ analyzed w' = analyzed w ++ [question]
       ∧ outbox w'
         = outbox w ++
           [SendText chatID
              "Sorry, I couldn't analyze this question. Please try again later."]).
Proof.
  intros Hfail. split.
  - unfold asyncAnalyze.
    destruct (run_deepseek_AnalyzeQuestion_next (c_question c) w)
      as (e0 & Hrun & _).
    rewrite (bind_done _ _ _ _ _ Hrun).
    destruct (AnalyzeQuestion_error (next_api w) (c_question c) Hfail)
      as (text & e & ->).
    eexists. split; [reflexivity|]. by split_and!.
  - unfold helpAnalyze.
    destruct (run_deepseek_AnalyzeQuestion_next question w) as (e0 & Hrun & _).
    rewrite (bind_done _ _ _ _ _ Hrun).
    destruct (AnalyzeQuestion_error (next_api w) question Hfail)
      as (text & e & ->).
    eexists. split; [reflexivity|]. by split_and!.
Qed.

Lemma failed_analysis_not_cached_witness :
  let w :=
    started {| driver := []; deepseek := [DeadlineExceeded]; now := 0;
               random := [] |} in
  ∃ w',
    helpAnalyze 1 6 question6 w = (Done tt, w')
    ∧ db w' = database.empty.
Proof.
  intros w.
  destruct (failed_analysis_not_cached
              {| c_chatID := 1; c_initialMessageID := 1;
                 c_question := question5; c_questionNum := 5;
                 c_answerNum := 1; c_userAnswer := "B"; c_rightAnswer := -1;
                 c_cachedResponse := ""; c_isCorrect := false |}
              1 6 question6 w) as [_ (w' & Hrun & Hdb & _)].
  - intros content rest. by vm_compute.
  - exists w'. split; [exact Hrun|]. exact Hdb.
Defined.

(** ** The goroutine of an answer on the states the process reaches *)











(** ** Submissions that name no question *)

Lemma find_question_None (questions : list Question) (questionNum : Z) :
  find_question questions questionNum = None
  ↔ ∀ q, q ∈ questions → Number q ≠ questionNum.
Proof.
  induction questions as [|q questions IH]; simpl.
  - split; [|done]. by intros _ q ?%elem_of_nil.
  - case_bool_decide as Hq.
    + split; [done|]. intros H. destruct (H q); [left|done].
    + rewrite IH. split.
      * intros H q' [->|?]%elem_of_cons; auto.
      * intros H q' ?. apply H. by right.
Qed.

Lemma find_question_Some (questions : list Question) (questionNum : Z)
    (q : Question) :
  find_question questions questionNum = Some q →
  q ∈ questions ∧ Number q = questionNum.
Proof.
  induction questions as [|q' questions IH]; simpl; [done|].
  case_bool_decide as Hq.
  - intros [= ->]. split; [left|done].
  - intros [? ?]%IH. split; [by right|done].
Qed.

(** X7: a submission whose question number belongs to no question of the
    set is acknowledged and answered with the notice that the question is
    no longer available, and that is all: no Activity Record, no task, no
    call of the AI.  This is the case for every submission that names
    question -1 once the set was loaded by [loadQuestions]. *)
Theorem unknown_question_submission (questions : list Question)
    (callback : CallbackQuery) (questionNum answerNum : Z) (w : World) :
  parseCallback (cb_Data callback) = Some (questionNum, answerNum) →
  (∀ q, q ∈ questions → Number q ≠ questionNum) →
  handleCallback questions callback w
  = (Done tt,
     with_outbox
       (outbox w ++
          [AnswerCallback (cb_ID callback) "Processing your answer...";
           SendText (cb_Chat callback)
             "Sorry, this question is no longer available."])
       w)
  ∧ (∀ file answerNum',
       loadQuestions (Some (Some file)) = Some questions →
       parseCallback (cb_Data callback) = Some (-1, answerNum') →
       db (handleCallback questions callback w).2 = db w
       ∧ tasks (handleCallback questions callback w).2 = tasks w).
Proof.
  intros Hparse Hnone.
  assert (Hrun : ∀ qn an, parseCallback (cb_Data callback) = Some (qn, an) →
    (∀ q, q ∈ questions → Number q ≠ qn) →
    handleCallback questions callback w
    = (Done tt,
       with_outbox
         (outbox w ++
            [AnswerCallback (cb_ID callback) "Processing your answer...";
             SendText (cb_Chat callback)
               "Sorry, this question is no longer available."])
         w)).
  { intros qn an Hp Hn. unfold handleCallback. rewrite Hp.
    rewrite (proj2 (find_question_None questions qn) Hn).
    unfold sendCallbackResponse, sendMessage, emit, modify, bind. simpl.
    by rewrite <- app_assoc. }
  split; [by eapply Hrun|].
  intros file answerNum' Hload Hp. rewrite (Hrun (-1) answerNum' Hp); [done|].
  simpl in Hload. injection Hload as <-. rewrite validQuestions_filter.
  intros q Hq. by apply list_elem_of_filter in Hq as [? _].
Qed.

Lemma unknown_question_submission_witness :
  handleCallback example_questions
    {| cb_ID := "cb"; cb_From := 1; cb_Chat := 1; cb_Data := "answer:99:0" |}
    (started (answering []))
  = (Done tt,
     with_outbox
       [AnswerCallback "cb" "Processing your answer...";
        SendText 1 "Sorry, this question is no longer available."]
       (started (answering []))).
Proof.
  apply (unknown_question_submission example_questions
           {| cb_ID := "cb"; cb_From := 1; cb_Chat := 1;
              cb_Data := "answer:99:0" |} 99 0 (started (answering []))).
  - reflexivity.
  - intros q Hq. repeat (apply elem_of_cons in Hq as [->|Hq]; [by vm_compute|]).
    by apply elem_of_nil in Hq.
Defined.

(** ** Statistics, continued *)

(** X8: the ranking of missed questions names no question twice and names
    only questions the user has answered incorrectly at least once (answers
    of other users and correct answers bring no question into it), every row
    carries the user, and a failing query returns no row with the error. *)
Theorem top_missed_only_missed (order_by : list (Z * Z) → list (Z * Z))
    (userID limit : Z) (d : DB) :
  (∀ l, order_by l ≡ₚ l) →
  let result :=
    (GetMostFrequentIncorrectQuestions order_by false userID limit d).1 in
  NoDup (QuestionNumber <$> result)
  ∧ (∀ a, a ∈ result →
          UserID a = userID ∧ 0 < incorrect_count userID (QuestionNumber a) d)
  ∧ GetMostFrequentIncorrectQuestions order_by true userID limit d
    = ([], Some ErrDriver).
Proof.
  intros Hperm result.
  set (groups := group_by_question (incorrect_rows userID d)).
  assert (Hsub : ∃ rest, order_by groups = top_missed_rows order_by userID limit d ++ rest)
    by apply sql_limit_prefix.
  destruct Hsub as [rest Hrest].
  split_and!.
  - subst result. rewrite top_missed_numbers.
    assert (Hnd : NoDup (order_by groups).*1).
    { rewrite (Hperm groups). unfold groups.
      rewrite group_by_question_keys. apply NoDup_remove_dups. }
    rewrite Hrest, fmap_app in Hnd. by apply NoDup_app in Hnd as [? _].
  - intros a (x & -> & Hx)%list_elem_of_fmap. simpl. split; [done|].
    assert (Hin : x ∈ groups).
    { rewrite <- (Hperm groups), Hrest. apply elem_of_app. by left. }
    destruct x as [q n]. apply elem_of_group_by_question in Hin as [Hq _].
    simpl. rewrite incorrect_count_group. by apply group_count_pos.
  - reflexivity.
Qed.

Lemma top_missed_only_missed_witness :
  let result :=
    (GetMostFrequentIncorrectQuestions order_by_merge_sort false 2 5
       stats_example).1 in
  QuestionNumber <$> result = [4] ∧ NoDup (QuestionNumber <$> result).
Proof.
  split; [reflexivity|].
  apply (top_missed_only_missed order_by_merge_sort 2 5 stats_example
           (merge_sort_Permutation count_desc)).
Defined.

(** X9: an activity that is saved raises exactly one counter of its user by
    one, the one of its verdict, and no counter of any other user; a save
    that fails changes no counter. *)
Theorem stats_after_save (fails : bool) (t userID q a : Z) (correct : bool)
    (other : Z) (d : DB) :
  let d' := (SaveUserActivity fails t userID q a correct d).1 in
  let same (b : bool) : Z :=
    if negb fails && bool_decide (other = userID) && bool_decide (correct = b)
    then 1 else 0 in
  GetUserStats false false other d'
  = (count_rows other true d + same true,
     count_rows other false d + same false, None).
Proof.
  simpl. unfold GetUserStats, count_rows, len.
  rewrite SaveUserActivity_rows.
  destruct fails; simpl; [by rewrite app_nil_r, !Z.add_0_r|].
  rewrite !filter_app, !length_app, !filter_cons, !filter_nil. simpl.
  repeat case_bool_decide; repeat case_decide; simpl;
    try (repeat f_equal; lia); naive_solver.
Qed.

(** ** Every message gets a reply *)

Lemma answers_appends {A} (m : M A) : answers m → appends m.
Proof. intros H w. destruct (H w) as (a & w' & ev & ? & ? & _). eauto. Qed.

Lemma appends_quiet {A} (m : M A) :
  (∀ w, ∃ a w', m w = (Done a, w') ∧ outbox w' = outbox w) → appends m.
Proof.
  intros H w. destruct (H w) as (a & w' & Hrun & Hout).
  exists a, w', []. by rewrite app_nil_r.
Qed.

Lemma appends_ret {A} (a : A) : appends (ret a).
Proof. apply appends_quiet. intros w. by exists a, w. Qed.

Lemma appends_gets {A} (f : World → A) : appends (gets f).
Proof. apply appends_quiet. intros w. by exists (f w), w. Qed.

Lemma appends_draw_failure : appends draw_failure.
Proof.
  apply appends_quiet. intros w. rewrite draw_failure_eq. by eexists _, _.
Qed.

Lemma appends_draw_random : appends draw_random.
Proof.
  apply appends_quiet. intros w.
  destruct (draw_random_effect w) as (r & e & ->). by eexists _, _.
Qed.

Lemma appends_go (t : Task) : appends (go t).
Proof. apply appends_quiet. intros w. by eexists tt, _. Qed.

Lemma appends_set_session (f : World → gmap Z Z) :
  appends (modify (λ w, with_userQuestions (f w) w)).
Proof. apply appends_quiet. intros w. by eexists tt, _. Qed.

Lemma answers_emit (e : UiEvent) : answers (emit e).
Proof. intros w. by exists tt, (with_outbox (outbox w ++ [e]) w), [e]. Qed.

Lemma appends_bind {A B} (m : M A) (f : A → M B) :
  appends m → (∀ a, appends (f a)) → appends (bind m f).
Proof.
  intros Hm Hf w. destruct (Hm w) as (a & w1 & ev1 & Hrun & Hout).
  destruct (Hf a w1) as (b & w2 & ev2 & Hrun' & Hout').
  exists b, w2, (ev1 ++ ev2). rewrite (bind_done _ _ _ _ _ Hrun).
  split; [done|]. by rewrite Hout', Hout, app_assoc.
Qed.

Lemma answers_bind_l {A B} (m : M A) (f : A → M B) :
  answers m → (∀ a, appends (f a)) → answers (bind m f).
Proof.
  intros Hm Hf w. destruct (Hm w) as (a & w1 & ev1 & Hrun & Hout & Hne).
  destruct (Hf a w1) as (b & w2 & ev2 & Hrun' & Hout').
  exists b, w2, (ev1 ++ ev2). rewrite (bind_done _ _ _ _ _ Hrun).
  split; [done|]. split; [by rewrite Hout', Hout, app_assoc|].
  by destruct ev1.
Qed.

Lemma answers_bind_r {A B} (m : M A) (f : A → M B) :
  appends m → (∀ a, answers (f a)) → answers (bind m f).
Proof.
  intros Hm Hf w. destruct (Hm w) as (a & w1 & ev1 & Hrun & Hout).
  destruct (Hf a w1) as (b & w2 & ev2 & Hrun' & Hout' & Hne).
  exists b, w2, (ev1 ++ ev2). rewrite (bind_done _ _ _ _ _ Hrun).
  split; [done|]. split; [by rewrite Hout', Hout, app_assoc|].
  intros [_ ?]%app_eq_nil. done.
Qed.

Lemma appends_db_GetCachedDeepseekResponse k :
  appends (db_GetCachedDeepseekResponse k).
Proof.
  apply appends_quiet. intros w. rewrite run_db_GetCachedDeepseekResponse.
  by eexists _, _.
Qed.

Lemma appends_db_GetUserStats userID : appends (db_GetUserStats userID).
Proof.
  unfold db_GetUserStats. apply appends_bind; [apply appends_draw_failure|].
  intros [|]; [apply appends_gets|].
  apply appends_bind; [apply appends_draw_failure|]. intros ?.
  apply appends_gets.
Qed.

Lemma answers_sendImage chatID imagePath caption :
  answers (sendImage chatID imagePath caption).
Proof.
  unfold sendImage. apply answers_bind_l; [apply answers_emit|]. intros _.
  apply appends_bind; [apply appends_draw_failure|].
  intros [|]; [apply answers_appends, answers_emit|apply appends_ret].
Qed.

Lemma answers_sendRandomQuestion questions chatID :
  answers (sendRandomQuestion questions chatID).
Proof.
  unfold sendRandomQuestion. destruct (len questions =? 0) eqn:Hlen.
  - apply answers_emit.
  - apply answers_bind_r; [apply appends_draw_random|]. intros r.
    destruct (index_in_range questions (Z.of_nat r `mod` len questions))
      as (q & _ & ->).
    { apply Z.mod_pos_bound. unfold len in *. lia. }
    apply answers_bind_r; [apply appends_ret|]. intros question.
    apply answers_bind_r; [apply appends_set_session|]. intros _.
    apply answers_bind_r; [|intros _; apply answers_emit].
    destruct (nonempty (Image question));
      [apply answers_appends, answers_sendImage
      |apply answers_appends, answers_emit].
Qed.

Lemma answers_handleHelpCommand questions message :
  answers (handleHelpCommand questions message).
Proof.
  unfold handleHelpCommand. apply answers_bind_r; [apply appends_gets|].
  intros [questionNum|]; [|apply answers_emit].
  destruct (find_question questions questionNum); [|apply answers_emit].
  apply answers_bind_r; [apply appends_db_GetCachedDeepseekResponse|].
  intros [[cr cra] err]. destruct (nonempty cr); [apply answers_emit|].
  apply answers_bind_l; [apply answers_emit|]. intros _. apply appends_go.
Qed.

Lemma answers_handleStatCommand questions order_by message :
  answers (handleStatCommand questions order_by message).
Proof.
  unfold handleStatCommand.
  apply answers_bind_r; [apply appends_db_GetUserStats|].
  intros [[correct incorrect] [e|]]; [apply answers_emit|].
  apply answers_bind_r; [|intros ?; apply answers_emit].
  destruct (0 <? correct + incorrect); [|apply appends_ret].
  apply appends_bind; [apply appends_draw_failure|]. intros fails.
  apply appends_bind; [apply appends_gets|]. intros [rows err].
  destruct (0 <? len rows); apply appends_ret.
Qed.

(** X10: the bot answers every message: whatever the text, the handler
    ends without a panic and sends at least one request to the chat
    transport; and it acknowledges every callback whose data it can read,
    before anything else. *)
Theorem every_message_answered (questions : list Question)
    (order_by : list (Z * Z) → list (Z * Z)) (w : World) :
  (∀ message,
     ∃ w' events,
       handleMessage questions order_by message w = (Done tt, w')
       ∧ outbox w' = outbox w ++ events ∧ events ≠ [])
  ∧ (∀ callback,
       is_Some (parseCallback (cb_Data callback)) →
       ∃ w' events,
         handleCallback questions callback w = (Done tt, w')
         ∧ outbox w'
           = outbox w ++
             AnswerCallback (cb_ID callback) "Processing your answer..."
             :: events).
Proof.
  split.
  - intros message.
    assert (H : answers (handleMessage questions order_by message)).
    { unfold handleMessage.
      repeat match goal with |- context [if ?b then _ else _] => destruct b end.
      - unfold handleStartCommand.
        apply answers_bind_l; [apply answers_emit|]. intros _.
        apply answers_appends, answers_sendRandomQuestion.
      - apply answers_sendRandomQuestion.
      - apply answers_handleHelpCommand.
      - apply answers_handleStatCommand.
      - apply answers_emit. }
    destruct (H w) as ([] & w' & events & ? & ? & ?). by exists w', events.
  - intros callback [[questionNum answerNum] Hparse].
    unfold handleCallback. rewrite Hparse.
    unfold sendCallbackResponse, emit. erewrite bind_done by reflexivity.
    set (w1 := with_outbox _ w).
    assert (H : appends (λ w0,
      match find_question questions questionNum with
      | Some question => resolveAnswer callback question questionNum answerNum
      | None =>
          sendMessage (cb_Chat callback)
            "Sorry, this question is no longer available."
      end w0)).
    { intros w0. destruct (find_question questions questionNum) as [q|].
      - destruct (decide (effective_index (failure 0 w0) questionNum q
                            (db w0) = -1)) as [Hra|Hra].
        + rewrite resolveAnswer_unresolved by done. simpl.
          destruct (failure 2 w0).
          * eexists tt, _, []. split; [reflexivity|]. simpl.
            by rewrite app_nil_r.
          * eexists tt, _, [_]. split; [reflexivity|]. done.
        + rewrite resolveAnswer_resolved by done.
          eexists tt, _, [_]. split; [reflexivity|]. done.
      - apply answers_appends, answers_emit. }
    destruct (H w1) as ([] & w' & events & Hrun & Hout).
    exists w', events. split; [exact Hrun|]. rewrite Hout. simpl.
    by rewrite <- app_assoc.
Qed.

Lemma every_message_answered_witness :
  ∃ w' events,
    handleCallback example_questions
      {| cb_ID := "cb"; cb_From := 1; cb_Chat := 1; cb_Data := "answer:6:2" |}
      (started (answering [])) = (Done tt, w')
    ∧ outbox w' = AnswerCallback "cb" "Processing your answer..." :: events.
Proof.
  destruct (proj2 (every_message_answered example_questions
                     order_by_merge_sort (started (answering [])))
              {| cb_ID := "cb"; cb_From := 1; cb_Chat := 1;
                 cb_Data := "answer:6:2" |})
    as (w' & events & Hrun & Hout); [by eexists|].
  by exists w', events.
Defined.

(** ** What the cache holds *)

(** X11: in every state the process reaches from a new database, the index
    stored with a cache entry is -1 or the [RightAnswer] of the first
    question with the entry's number, and that [RightAnswer] then lies in
    [0, len(Answers)): whatever the AI writes, the cache never holds an
    index that contradicts the question set. *)
Theorem cache_agrees_with_questions (questions : list Question)
    (order_by : list (Z * Z) → list (Z * Z)) (w : World) (k : Z)
    (response : string) (i : Z) :
  reachable questions order_by w →
  deepseek_cache (db w) !! k = Some (response, i) →
  i = -1
  ∨ ∃ q, find_question questions k = Some q ∧ i = RightAnswer q
         ∧ 0 ≤ RightAnswer q < len (Answers q).
Proof.
  intros [Hc _]%reachable_consistent Hlook.
  destruct (decide (i = -1)) as [|Hi]; [by left|]. right.
  destruct (Hc k response i Hlook Hi) as (q & Hq & -> & Hrange). by exists q.
Qed.

Lemma cache_agrees_with_questions_witness :
  let w :=
    play example_questions order_by_merge_sort
      [Deliver (command 1 "/next"); Deliver (command 1 "/help"); Run 0;
       Deliver (press 2 "answer:5:0"); Run 0; Run 0]
      (started (answering ["C is right"; "A, I think"])) in
  deepseek_cache (db w) !! 5 = Some ("A, I think", -1)
  ∧ deepseek_cache (db w) !! 6 = Some ("C is right", 2)
  ∧ (2 = -1
     ∨ ∃ q, find_question example_questions 6 = Some q ∧ 2 = RightAnswer q
            ∧ 0 ≤ RightAnswer q < len (Answers q)).
Proof.
  intros w. split; [by vm_compute|]. split; [by vm_compute|].
  apply (cache_agrees_with_questions example_questions order_by_merge_sort w 6
           "C is right" 2); [apply play_reachable|by vm_compute].
Defined.

(** ** The selections of questions to ask *)

Lemma elem_of_answered_numbers (userID n : Z) (d : DB) :
  n ∈ answered_numbers userID d ↔ has_answered userID n d.
Proof.
  unfold answered_numbers, has_answered.
  rewrite elem_of_remove_dups, list_elem_of_fmap. split.
  - intros (r & -> & [? ?]%list_elem_of_filter). by exists r.
  - intros (r & Hr & Hu & Hn). exists r. split; [done|].
    by apply list_elem_of_filter.
Qed.

Lemma answered_set_acc (numbers : list Z) (m : gmap Z bool) (k : Z) :
  map_bool
    (foldl (λ answeredQuestions questionNumber,
              <[questionNumber := true]> answeredQuestions) m numbers) k
  = map_bool m k || bool_decide (k ∈ numbers).
Proof.
  revert m. induction numbers as [|n numbers IH]; intros m.
  - rewrite bool_decide_eq_false_2 by apply not_elem_of_nil.
    by rewrite orb_false_r.
  - simpl foldl. rewrite IH. unfold map_bool. destruct (decide (n = k)) as [->|Hne].
    + rewrite lookup_insert_eq. simpl.
      rewrite (bool_decide_eq_true_2 (k ∈ k :: numbers)) by left.
      by rewrite orb_true_r.
    + rewrite lookup_insert_ne by done. f_equal.
      apply bool_decide_ext. rewrite elem_of_cons. naive_solver.
Qed.

Lemma answered_set_spec (numbers : list Z) (k : Z) :
  map_bool (answered_set numbers) k = bool_decide (k ∈ numbers).
Proof. unfold answered_set. by rewrite answered_set_acc. Qed.

Lemma unanswered_loop (P : Question → bool) (questions acc : list Question) :
  foldl (λ unansweredQuestions question,
           if P question then unansweredQuestions ++ [question]
           else unansweredQuestions) acc questions
  = acc ++ filter (λ q, P q = true) questions.
Proof.
  revert acc. induction questions as [|q questions IH]; intros acc; simpl.
  - by rewrite app_nil_r.
  - rewrite IH, filter_cons. destruct (P q); case_decide; try done.
    by rewrite <- app_assoc.
Qed.

Lemma filter_all {A} (P : A → Prop) `{∀ x, Decision (P x)} (l : list A) :
  (∀ x, x ∈ l → P x) → filter P l = l.
Proof.
  induction l as [|x l IH]; intros Hall; [done|].
  rewrite filter_cons. rewrite decide_True by (apply Hall; left).
  f_equal. apply IH. intros y Hy. apply Hall. by right.
Qed.

Lemma unanswered_filter (userID : Z) (allQuestions : list Question) (d : DB) :
  (GetUnansweredQuestions false userID allQuestions d).1
  = filter (λ q, negb (bool_decide (Number q ∈ answered_numbers userID d))
                 = true) allQuestions.
Proof.
  unfold GetUnansweredQuestions. simpl fst.
  rewrite (unanswered_loop
             (λ q, negb (map_bool (answered_set (answered_numbers userID d))
                           (Number q)))).
  simpl app. apply list_filter_iff. intros q. by rewrite answered_set_spec.
Qed.

Lemma elem_of_unanswered (userID : Z) (allQuestions : list Question) (d : DB)
    (q : Question) :
  q ∈ (GetUnansweredQuestions false userID allQuestions d).1
  ↔ q ∈ allQuestions ∧ ¬ has_answered userID (Number q) d.
Proof.
  rewrite unanswered_filter, list_elem_of_filter.
  rewrite negb_true_iff, bool_decide_eq_false, elem_of_answered_numbers.
  tauto.
Qed.

(** X12: [GetUnansweredQuestions] returns, in the order of the question
    set, exactly the questions for whose number the user has no Activity
    Record, whatever the verdict recorded and whoever else answered: all
    questions for a user without records, and no question with number [n]
    once an activity of the user for [n] was saved. *)
Theorem unanswered_questions (userID : Z) (allQuestions : list Question)
    (d : DB) :
  let result := (GetUnansweredQuestions false userID allQuestions d).1 in
  (∀ q, q ∈ result ↔ q ∈ allQuestions ∧ ¬ has_answered userID (Number q) d)
  ∧ sublist result allQuestions
  ∧ ((∀ r, r ∈ user_activity d → UserID r ≠ userID) → result = allQuestions)
  ∧ (∀ t n a correct q,
       q ∈ (GetUnansweredQuestions false userID allQuestions
              (SaveUserActivity false t userID n a correct d).1).1 →
       Number q ≠ n)
  ∧ GetUnansweredQuestions true userID allQuestions d = ([], Some ErrDriver).
Proof.
  pose proof (unanswered_filter userID allQuestions) as Hres.
  pose proof (elem_of_unanswered userID allQuestions) as Hmem.
  intros result. split_and!.
  - apply Hmem.
  - subst result. rewrite Hres. apply sublist_filter.
  - intros Hnone. subst result. rewrite Hres.
    apply filter_all. intros q _.
    rewrite negb_true_iff, bool_decide_eq_false, elem_of_answered_numbers.
    intros (r & Hr & Hu & _). by destruct (Hnone r Hr).
  - intros t n a correct q [_ Hq]%Hmem Heq. apply Hq.
    exists {| UserID := userID; QuestionNumber := n; AnswerNumber := a;
              Correct := correct; Timestamp := t |}.
    rewrite SaveUserActivity_rows. split_and!; [|done|by simpl].
    apply elem_of_app. right. left.
  - reflexivity.
Qed.

Lemma unanswered_questions_witness :
  let d :=
    record_all
      [ {| UserID := 1; QuestionNumber := 6; AnswerNumber := 2;
           Correct := true; Timestamp := 10 |};
        {| UserID := 2; QuestionNumber := 5; AnswerNumber := 0;
           Correct := false; Timestamp := 11 |} ] database.empty in
  (GetUnansweredQuestions false 1 example_questions d).1
  = [question5; question7]
  ∧ (GetUnansweredQuestions false 3 example_questions d).1 = example_questions.
Proof.
  intros d. split; [reflexivity|].
  apply (unanswered_questions 3 example_questions d).
  intros r Hr. vm_compute in Hr.
  repeat (apply elem_of_cons in Hr as [->|Hr]; [by vm_compute|]).
  by apply elem_of_nil in Hr.
Defined.

Lemma foldl_max_spec (t : Z) (ts : list Z) :
  foldl Z.max t ts ∈ t :: ts ∧ ∀ x, x ∈ t :: ts → x ≤ foldl Z.max t ts.
Proof.
  revert t. induction ts as [|u ts IH]; intros t; simpl.
  - split; [left|]. intros x ->%list_elem_of_singleton. lia.
  - destruct (IH (Z.max t u)) as [Hin Hle]. split.
    + apply elem_of_cons in Hin as [Heq|Hin].
      * rewrite Heq. destruct (Z.max_spec t u) as [[_ ->]|[_ ->]];
          [right; left|left].
      * right. by right.
    + intros x Hx. apply elem_of_cons in Hx as [->|Hx].
      * etransitivity; [|apply Hle; left]. lia.
      * apply elem_of_cons in Hx as [->|Hx].
        -- etransitivity; [|apply Hle; left]. lia.
        -- apply Hle. by right.
Qed.

Lemma max_timestamp_spec (userID n : Z) (d : DB) :
  has_answered userID n d →
  last_answered_at userID n d
    (max_timestamp n (filter (λ r, UserID r = userID) (user_activity d))).
Proof.
  intros (r0 & Hr0 & Hu0 & Hn0). unfold max_timestamp.
  set (rows := filter (λ r, QuestionNumber r = n)
                 (filter (λ r, UserID r = userID) (user_activity d))).
  assert (Hrows : ∀ r, r ∈ rows
    ↔ r ∈ user_activity d ∧ UserID r = userID ∧ QuestionNumber r = n).
  { intros r. unfold rows. rewrite !list_elem_of_filter. tauto. }
  destruct (Timestamp <$> rows) as [|t ts] eqn:Hts.
  - apply fmap_nil_inv in Hts. assert (r0 ∈ rows) as Hin by by apply Hrows.
    rewrite Hts in Hin. by apply elem_of_nil in Hin.
  - destruct (foldl_max_spec t ts) as [Hin Hle]. rewrite <- Hts in Hin, Hle.
    split.
    + apply list_elem_of_fmap in Hin as (r & Heq & Hr).
      apply Hrows in Hr as (? & ? & ?). by exists r.
    + intros r Hr Hu Hn. apply Hle. apply list_elem_of_fmap.
      exists r. split; [done|]. by apply Hrows.
Qed.

Lemma last_answered_at_unique (userID n : Z) (d : DB) (t1 t2 : Z) :
  last_answered_at userID n d t1 → last_answered_at userID n d t2 → t1 = t2.
Proof.
  intros [(r1 & Hr1 & Hu1 & Hn1 & <-) Hmax1] [(r2 & Hr2 & Hu2 & Hn2 & <-) Hmax2].
  apply Z.le_antisymm; auto.
Qed.

Lemma elem_of_last_answered_rows (userID n t : Z) (d : DB) :
  (n, t) ∈ last_answered_rows userID d
  ↔ has_answered userID n d
    ∧ t = max_timestamp n (filter (λ r, UserID r = userID) (user_activity d)).
Proof.
  unfold last_answered_rows. rewrite list_elem_of_fmap.
  fold (answered_numbers userID d). split.
  - intros (n' & Heq & Hn'). simpl in Heq. injection Heq as -> ->.
    split; [by apply elem_of_answered_numbers|done].
  - intros [Hn ->]. exists n. split; [done|].
    by apply elem_of_answered_numbers.
Qed.

Lemma last_answered_rows_keys (userID : Z) (d : DB) :
  NoDup (last_answered_rows userID d).*1.
Proof.
  unfold last_answered_rows. rewrite <- list_fmap_compose.
  erewrite list_fmap_ext; [|by intros; reflexivity].
  simpl. rewrite list_fmap_id. apply NoDup_remove_dups.
Qed.

Lemma lastAnswered_map_acc (rows : list (Z * Z)) (m : gmap Z Z) (k v : Z) :
  NoDup rows.*1 →
  (foldl (λ lastAnswered row, <[row.1 := row.2]> lastAnswered) m rows) !! k
  = Some v
  ↔ (k, v) ∈ rows ∨ (¬ k ∈ rows.*1) ∧ m !! k = Some v.
Proof.
  revert m. induction rows as [|[k' v'] rows IH]; intros m Hnd.
  - simpl. split; [intros ?; right; split; [apply not_elem_of_nil|done]|].
    intros [?%elem_of_nil|[_ ?]]; done.
  - simpl in Hnd. apply NoDup_cons in Hnd as [Hk' Hnd].
    simpl foldl. rewrite (IH _ Hnd). rewrite fmap_cons, not_elem_of_cons.
    rewrite elem_of_cons. simpl. destruct (decide (k' = k)) as [->|Hne].
    + rewrite lookup_insert_eq. split.
      * intros [Hin|[_ [= ->]]]; [by left; right|by left; left].
      * intros [[[= ->]|Hin]|[[? _] _]]; [|by left|done].
        right. split; [done|done].
    + rewrite lookup_insert_ne by done. split.
      * intros [Hin|[? ?]]; [by left; right|]. right. by split.
      * intros [[[= ? ?]|Hin]|[[_ ?] ?]]; [done|by left|]. right. by split.
Qed.

Lemma lastAnswered_map_lookup (userID k v : Z) (d : DB) :
  lastAnswered_map (last_answered_rows userID d) !! k = Some v
  ↔ (k, v) ∈ last_answered_rows userID d.
Proof.
  unfold lastAnswered_map.
  rewrite lastAnswered_map_acc by apply last_answered_rows_keys.
  rewrite lookup_empty. naive_solver.
Qed.

Lemma find_question_app (l1 l2 : list Question) (n : Z) :
  find_question (l1 ++ l2) n
  = match find_question l1 n with
    | Some q => Some q
    | None => find_question l2 n
    end.
Proof.
  induction l1 as [|q l1 IH]; simpl; [done|]. by case_bool_decide.
Qed.

Lemma questionMap_acc (allQuestions : list Question) (m : gmap Z Question)
    (n : Z) :
  (foldl (λ questionMap q, <[Number q := q]> questionMap) m allQuestions) !! n
  = match find_question (reverse allQuestions) n with
    | Some q => Some q
    | None => m !! n
    end.
Proof.
  revert m. induction allQuestions as [|q qs IH]; intros m; [done|].
  simpl foldl. rewrite IH, reverse_cons, find_question_app.
  destruct (find_question (reverse qs) n); [done|]. simpl.
  case_bool_decide as Hq.
  - by rewrite Hq, lookup_insert_eq.
  - by rewrite lookup_insert_ne.
Qed.

Lemma questionMap_lookup (allQuestions : list Question) (n : Z) :
  questionMap_of allQuestions !! n = find_question (reverse allQuestions) n.
Proof.
  unfold questionMap_of. rewrite questionMap_acc, lookup_empty.
  by destruct (find_question _ _).
Qed.

Lemma with_time_loop (questionMap : gmap Z Question) (entries : list (Z * Z))
    (acc : list (Question * Z)) :
  foldl (λ questionsWithTime entry,
           match questionMap !! entry.1 with
           | Some q => questionsWithTime ++ [(q, entry.2)]
           | None => questionsWithTime
           end) acc entries
  = acc ++ omap (λ entry, (λ q, (q, entry.2)) <$> questionMap !! entry.1)
             entries.
Proof.
  revert acc. induction entries as [|entry entries IH]; intros acc; simpl.
  - by rewrite app_nil_r.
  - rewrite IH. destruct (questionMap !! entry.1); simpl; [|done].
    by rewrite <- app_assoc.
Qed.

Lemma StronglySorted_fmap_elem_of {A B : Type} (f : A → B)
    (R1 : relation A) (R2 : relation B) (l : list A) :
  (∀ x y, x ∈ l → y ∈ l → R1 x y → R2 (f x) (f y)) →
  StronglySorted R1 l → StronglySorted R2 (f <$> l).
Proof.
  intros Hf Hl. induction Hl as [|x l Hl IH Hx]; csimpl; constructor.
  - apply IH. intros y z Hy Hz. apply Hf; by right.
  - rewrite Forall_fmap. apply Forall_forall. intros y Hy. simpl.
    apply Hf; [left|by right|]. rewrite Forall_forall in Hx. by apply Hx.
Qed.

Lemma numbers_of_found (questionMap : gmap Z Question)
    (entries : list (Z * Z)) :
  (∀ n q, questionMap !! n = Some q → Number q = n) →
  sublist
    (Number <$>
       (omap (λ entry, (λ q, (q, entry.2)) <$> questionMap !! entry.1)
          entries).*1)
    entries.*1.
Proof.
  intros Hnum. induction entries as [|entry entries IH]; simpl; [done|].
  destruct (questionMap !! entry.1) as [q|] eqn:Hq; simpl.
  - rewrite (Hnum _ _ Hq). by apply sublist_skip.
  - by apply sublist_cons.
Qed.

Section least_recent.
Variable range_order : list (Z * Z) → list (Z * Z).
Variable sort_Slice : list (Question * Z) → list (Question * Z).
Hypothesis range_order_perm : ∀ l, range_order l ≡ₚ l.
Hypothesis sort_Slice_perm : ∀ l, sort_Slice l ≡ₚ l.
Hypothesis sort_Slice_sorted : ∀ l, Sorted older (sort_Slice l).

Lemma elem_of_with_time (userID : Z) (allQuestions : list Question) (d : DB)
    (q : Question) (t : Z) :
  (q, t) ∈ omap (λ entry, (λ q, (q, entry.2))
                   <$> questionMap_of allQuestions !! entry.1)
             (range_order
                (map_to_list (lastAnswered_map (last_answered_rows userID d))))
  ↔ find_question (reverse allQuestions) (Number q) = Some q
    ∧ last_answered_at userID (Number q) d t.
Proof.
  rewrite list_elem_of_omap. split.
  - intros ([n t'] & Hin & Hq). simpl in Hq.
    rewrite range_order_perm in Hin.
    apply elem_of_map_to_list, lastAnswered_map_lookup in Hin.
    apply elem_of_last_answered_rows in Hin as [Hn ->].
    rewrite questionMap_lookup in Hq.
    destruct (find_question (reverse allQuestions) n) as [q'|] eqn:Hfind;
      [|done].
    simpl in Hq. injection Hq as -> <-.
    destruct (find_question_Some _ _ _ Hfind) as [_ Heq]. subst n.
    split; [done|]. by apply max_timestamp_spec.
  - intros [Hfind Ht]. exists (Number q, t). split.
    + rewrite range_order_perm.
      apply elem_of_map_to_list, lastAnswered_map_lookup.
      apply elem_of_last_answered_rows.
      assert (Hn : has_answered userID (Number q) d).
      { destruct Ht as [(r & ? & ? & ? & _) _]. by exists r. }
      split; [done|].
      eapply last_answered_at_unique; [done|]. by apply max_timestamp_spec.
    + simpl. by rewrite questionMap_lookup, Hfind.
Qed.

Lemma elem_of_least_recent (userID : Z) (allQuestions : list Question)
    (d : DB) (q : Question) :
  q ∈ (GetLeastRecentlyAnsweredQuestions range_order sort_Slice false userID
         allQuestions d).1
  ↔ find_question (reverse allQuestions) (Number q) = Some q
    ∧ has_answered userID (Number q) d.
Proof.
  unfold GetLeastRecentlyAnsweredQuestions. cbn [fst].
  rewrite with_time_loop, app_nil_l, list_elem_of_fmap. split.
  - intros ([q' t] & -> & Hin). rewrite sort_Slice_perm in Hin.
    apply elem_of_with_time in Hin as [Hfind [(r & ? & ? & ? & _) _]].
    split; [done|]. by exists r.
  - intros [Hfind Hn]. eexists (q, _). split; [done|].
    rewrite sort_Slice_perm. apply elem_of_with_time. split; [done|].
    by apply max_timestamp_spec.
Qed.

(** X13: [GetLeastRecentlyAnsweredQuestions] returns exactly the questions
    the user has an Activity Record for, each number once and with the last
    question of the set that carries the number, ordered by the time of the
    user's latest record for the question, oldest first; this holds for any
    order in which the map is iterated and any sorting function.  A failing
    query gives no question and the error. *)
Theorem least_recently_answered (userID : Z) (allQuestions : list Question)
    (d : DB) :
  let result :=
    (GetLeastRecentlyAnsweredQuestions range_order sort_Slice false userID
       allQuestions d).1 in
  (∀ q, q ∈ result
        ↔ find_question (reverse allQuestions) (Number q) = Some q
          ∧ has_answered userID (Number q) d)
  ∧ NoDup (Number <$> result)
  ∧ StronglySorted
      (λ q1 q2, ∀ t1 t2,
         last_answered_at userID (Number q1) d t1 →
         last_answered_at userID (Number q2) d t2 → t1 ≤ t2)
      result
  ∧ GetLeastRecentlyAnsweredQuestions range_order sort_Slice true userID
      allQuestions d = ([], Some ErrDriver).
Proof.
  intros result. split; [apply elem_of_least_recent|].
  subst result. unfold GetLeastRecentlyAnsweredQuestions. cbn [fst].
  rewrite with_time_loop, app_nil_l.
  set (withTime := omap _ _).
  pose proof (elem_of_with_time userID allQuestions d) as Hmem.
  fold withTime in Hmem. split_and!.
  - rewrite sort_Slice_perm. unfold withTime.
    eapply sublist_NoDup; [|apply numbers_of_found].
    + rewrite range_order_perm. apply NoDup_fst_map_to_list.
    + intros n q. rewrite questionMap_lookup.
      by intros [_ ?]%find_question_Some.
  - apply (StronglySorted_fmap_elem_of fst older).
    + intros [q1 u1] [q2 u2] H1 H2 Hle t1 t2 Ht1 Ht2. simpl in *.
      rewrite sort_Slice_perm in H1, H2.
      apply Hmem in H1 as [_ H1]. apply Hmem in H2 as [_ H2].
      rewrite (last_answered_at_unique _ _ _ _ _ Ht1 H1).
      by rewrite (last_answered_at_unique _ _ _ _ _ Ht2 H2).
    + apply Sorted_StronglySorted; [|apply sort_Slice_sorted].
      intros a b c. unfold older. lia.
  - reflexivity.
Qed.

(** X14: the two selections share the question set between them: a
    question of the set is returned by [GetUnansweredQuestions], or its
    number is the number of a question returned by
    [GetLeastRecentlyAnsweredQuestions], and never both. *)
Theorem selections_split_questions (userID : Z)
    (allQuestions : list Question) (d : DB) (q : Question) :
  q ∈ allQuestions →
  let unanswered := (GetUnansweredQuestions false userID allQuestions d).1 in
  let answered :=
    (GetLeastRecentlyAnsweredQuestions range_order sort_Slice false userID
       allQuestions d).1 in
  (q ∈ unanswered ∨ Number q ∈ Number <$> answered)
  ∧ ¬ (q ∈ unanswered ∧ Number q ∈ Number <$> answered).
Proof.
  intros Hq unanswered answered. subst unanswered answered.
  rewrite elem_of_unanswered, list_elem_of_fmap.
  setoid_rewrite elem_of_least_recent. split.
  - destruct (decide (Number q ∈ answered_numbers userID d)) as [Hn|Hn];
      rewrite elem_of_answered_numbers in Hn; [right|by left].
    destruct (find_question (reverse allQuestions) (Number q)) as [q'|]
      eqn:Hfind.
    + destruct (find_question_Some _ _ _ Hfind) as [_ Heq].
      exists q'. rewrite Heq. by split_and!.
    + rewrite find_question_None in Hfind.
      destruct (Hfind q); [by apply elem_of_reverse|done].
  - intros [[_ Hno] (q' & Heq & _ & Hyes)]. apply Hno. by rewrite Heq.
Qed.

End least_recent.

#[local] Instance older_total : Total older.
Proof. intros a b. unfold older. lia. Qed.

Lemma least_recently_answered_witness :
  let d :=
    record_all
      [ {| UserID := 1; QuestionNumber := 6; AnswerNumber := 2;
           Correct := true; Timestamp := 10 |};
        {| UserID := 1; QuestionNumber := 5; AnswerNumber := 0;
           Correct := false; Timestamp := 11 |};
        {| UserID := 1; QuestionNumber := 6; AnswerNumber := 1;
           Correct := false; Timestamp := 12 |};
        {| UserID := 2; QuestionNumber := 7; AnswerNumber := 0;
           Correct := true; Timestamp := 13 |} ] database.empty in
  (GetLeastRecentlyAnsweredQuestions id sort_Slice_merge false 1
     example_questions d).1 = [question5; question6]
  ∧ NoDup (Number <$>
             (GetLeastRecentlyAnsweredQuestions id sort_Slice_merge false 1
                example_questions d).1).
Proof.
  intros d. split; [by vm_compute|].
  apply (least_recently_answered id sort_Slice_merge).
  - done.
  - apply merge_sort_Permutation.
  - intros l. apply (Sorted_merge_sort older).
Defined.

Lemma selections_split_questions_witness :
  let d :=
    record_all
      [ {| UserID := 1; QuestionNumber := 6; AnswerNumber := 2;
           Correct := true; Timestamp := 10 |} ] database.empty in
  (GetUnansweredQuestions false 1 example_questions d).1
  = [question5; question7]
  ∧ ¬ (question6 ∈ (GetUnansweredQuestions false 1 example_questions d).1
       ∧ Number question6
         ∈ Number <$>
             (GetLeastRecentlyAnsweredQuestions id sort_Slice_merge false 1
                example_questions d).1).
Proof.
  intros d. split; [by vm_compute|].
  apply (selections_split_questions id sort_Slice_merge).
  - done.
  - apply merge_sort_Permutation.
  - right. left.
Defined.

Lemma string_app_assoc (s1 s2 s3 : string) :
  (s1 +:+ s2) +:+ s3 = s1 +:+ (s2 +:+ s3).
Proof.
  induction s1 as [|c s1 IH]; [done|].
  change ((String c s1 +:+ s2) +:+ s3) with (String c ((s1 +:+ s2) +:+ s3)).
  change (String c s1 +:+ s2 +:+ s3) with (String c (s1 +:+ s2 +:+ s3)).
  by rewrite IH.
Qed.

Lemma ReplaceAll_app (s1 s2 : string) (old : ascii) (new : string) :
  ReplaceAll (s1 +:+ s2) old new
  = ReplaceAll s1 old new +:+ ReplaceAll s2 old new.
Proof.
  induction s1 as [|c s1 IH]; simpl; [done|].
  by rewrite IH, string_app_assoc.
Qed.

Lemma escape_part_app (s1 s2 : string) :
  escape_part (s1 +:+ s2) = escape_part s1 +:+ escape_part s2.
Proof.
  unfold escape_part, specialChars. cbn [foldl].
  by rewrite !ReplaceAll_app.
Qed.

Lemma escape_part_byte (c : ascii) :
  escape_part (String c EmptyString)
  = if bool_decide (c ∈ specialChars)
    then String backslash (String c EmptyString)
    else String c EmptyString.
Proof.
  destruct c as [[] [] [] [] [] [] [] []]; vm_compute; reflexivity.
Qed.

Lemma escape_part_each (part : string) : escape_part part = escape_each part.
Proof.
  induction part as [|c part IH]; [done|].
  change (String c part) with (String c EmptyString +:+ part).
  rewrite escape_part_app, escape_part_byte, IH.
  change (escape_each (String c EmptyString +:+ part))
    with (escape_each (String c part)).
  simpl. by case_bool_decide.
Qed.

Lemma escape_each_plain (part : string) :
  all_bytes (λ c, negb (bool_decide (c ∈ specialChars))) part = true →
  escape_each part = part.
Proof.
  induction part as [|c part IH]; simpl; [done|].
  intros [Hc Hpart]%andb_true_iff. apply negb_true_iff in Hc.
  by rewrite Hc, IH.
Qed.

(** X15: the eighteen replacements [escapeMarkdown] makes on a part amount
    to one pass that puts one backslash before every special character and
    keeps every other byte: no character is escaped twice, the backslashes
    that were put are not escaped themselves, and a part without special
    characters is left as it is. *)
Theorem escape_part_one_pass (part : string) :
  escape_part part = escape_each part
  ∧ (all_bytes (λ c, negb (bool_decide (c ∈ specialChars))) part = true →
     escape_part part = part).
Proof.
  split; [apply escape_part_each|].
  intros Hplain. rewrite escape_part_each. by apply escape_each_plain.
Qed.

Lemma escape_part_one_pass_witness :
  escape_part "a+b" = "a" +:+ String backslash "+b"
  ∧ escape_part "Frage 5" = "Frage 5".
Proof.
  split; [by vm_compute|].
  by apply (escape_part_one_pass "Frage 5").
Defined.

Lemma Split_no_separator_string (s sep : string) :
  Contains s sep = false → Split s sep = [s].
Proof.
  unfold Split. induction s as [|c s IH]; [done|].
  cbn [Contains]. intros [Hp Hs]%orb_false_iff.
  cbn [split_from]. rewrite Hp, (IH Hs). done.
Qed.

Lemma Split_at_fence (a rest : string) :
  all_bytes no_backtick a = true →
  Split (a +:+ fence +:+ rest) fence = a :: Split rest fence.
Proof.
  unfold Split. induction a as [|c a IH].
  { intros _.
    change ("" +:+ fence +:+ rest)
      with (String "`" (String "`" (String "`" rest))).
    cbn [split_from].
    assert (strings.HasPrefix (String "`" (String "`" (String "`" rest)))
              fence = true) as -> by (by destruct rest).
    reflexivity. }
  cbn [all_bytes]. intros [Hc Ha]%andb_true_iff.
  change (String c a +:+ fence +:+ rest)
    with (String c (a +:+ fence +:+ rest)).
  cbn [split_from].
  assert (strings.HasPrefix (String c (a +:+ fence +:+ rest)) fence = false)
    as ->.
  { unfold no_backtick in Hc. apply negb_true_iff in Hc.
    unfold fence. cbn [strings.HasPrefix]. by rewrite Hc. }
  by rewrite (IH Ha).
Qed.

(** X16: [escapeMarkdown] keeps a fenced code block byte for byte and
    escapes the text before and after it; after a fence that is not closed
    the rest of the text is kept; a text without a fence is escaped as one
    part. *)
Theorem escapeMarkdown_keeps_code (a code b : string) :
  all_bytes no_backtick a = true →
  all_bytes no_backtick code = true →
  Contains b fence = false →
  escapeMarkdown (a +:+ fence +:+ code +:+ fence +:+ b)
  = escape_part a +:+ fence +:+ code +:+ fence +:+ escape_part b
  ∧ escapeMarkdown (a +:+ fence +:+ b) = escape_part a +:+ fence +:+ b
  ∧ escapeMarkdown b = escape_part b.
Proof.
  intros Ha Hcode Hb. unfold escapeMarkdown. split_and!.
  - rewrite (Split_at_fence _ _ Ha), (Split_at_fence _ _ Hcode).
    by rewrite (Split_no_separator_string _ _ Hb).
  - rewrite (Split_at_fence _ _ Ha).
    by rewrite (Split_no_separator_string _ _ Hb).
  - by rewrite (Split_no_separator_string _ _ Hb).
Qed.

Lemma escapeMarkdown_keeps_code_witness :
  escapeMarkdown ("1+1 " +:+ fence +:+ "x := a.b" +:+ fence +:+ " (Go)")
  = "1" +:+ String backslash "+1 " +:+ fence +:+ "x := a.b" +:+ fence
    +:+ " " +:+ String backslash "(Go" +:+ String backslash ")".
Proof.
  etransitivity;
    [apply (escapeMarkdown_keeps_code "1+1 " "x := a.b" " (Go)");
     by vm_compute|].
  by vm_compute.
Defined.

Lemma HasPrefix_shorter (s p1 p2 : string) :
  strings.HasPrefix s (p1 +:+ p2) = true → strings.HasPrefix s p1 = true.
Proof.
  revert s. induction p1 as [|c p1 IH]; intros s; [by destruct s|].
  destruct s as [|c' s]; simpl; [done|].
  intros [-> ?]%andb_true_iff. simpl. by apply IH.
Qed.

Lemma Contains_shorter (s p1 p2 : string) :
  Contains s (p1 +:+ p2) = true → Contains s p1 = true.
Proof.
  induction s as [|c s IH]; cbn [Contains].
  - rewrite !orb_false_r. apply HasPrefix_shorter.
  - intros [Hp|Hs]%orb_true_iff; apply orb_true_iff.
    + left. by eapply HasPrefix_shorter.
    + right. by apply IH.
Qed.

Lemma looksLikeMarkdown_marked (text : string) :
  looksLikeMarkdown text = marked text.
Proof.
  unfold looksLikeMarkdown, marked.
  pose proof (Contains_shorter text "`" "``") as H1.
  pose proof (Contains_shorter text "*" "*") as H2.
  pose proof (Contains_shorter text "#" "#") as H3.
  change ("`" +:+ "``") with "```" in H1.
  change ("*" +:+ "*") with "**" in H2.
  change ("#" +:+ "#") with "##" in H3.
  destruct (Contains text "```"), (Contains text "**"), (Contains text "*"),
    (Contains text "##"), (Contains text "#"), (Contains text "`");
    simpl in *; try done; try (by discriminate H1);
    try (by discriminate H2); try (by discriminate H3).
Qed.

(** X17: of the six tests for markdown syntax only three count: a text is
    sent in markdown mode exactly when it holds an asterisk, a hash sign or
    a backtick.  A text without them is sent once, as it is and in HTML
    mode, whether the request fails or not; a text with one of them is sent
    again as plain text, unescaped, when the first request fails. *)
Theorem markdown_mode_by_byte (text : string) (fails : bool) :
  looksLikeMarkdown text = marked text
  ∧ (marked text = false →
     sendMessage_requests fails text
     = [ {| r_text := text; r_mode := ModeHTML |} ]
     ∧ editMessage_requests fails text
       = [ {| r_text := text; r_mode := ModeHTML |} ])
  ∧ (marked text = true →
     sendMessage_requests fails text
     = {| r_text := text; r_mode := ModeMarkdownV2 |}
       :: (if fails then [ {| r_text := text; r_mode := ModePlain |} ]
           else [])
     ∧ editMessage_requests fails text
       = {| r_text := escapeMarkdown text; r_mode := ModeMarkdownV2 |}
         :: (if fails then [ {| r_text := text; r_mode := ModePlain |} ]
             else [])).
Proof.
  pose proof (looksLikeMarkdown_marked text) as Heq.
  unfold sendMessage_requests, editMessage_requests. rewrite Heq.
  split_and!; [done|intros ->; by destruct fails..].
Qed.

Lemma markdown_mode_by_byte_witness :
  sendMessage_requests true "Richtig!"
  = [ {| r_text := "Richtig!"; r_mode := ModeHTML |} ]
  ∧ editMessage_requests true "Richtig!"
    = [ {| r_text := "Richtig!"; r_mode := ModeHTML |} ].
Proof.
  apply (markdown_mode_by_byte "Richtig!" true). by vm_compute.
Defined.

(** ** The statistics message *)

Lemma run_db_GetUserStats (userID : Z) (w : World) :
  failure 0 w = false →
  db_GetUserStats userID w
  = (Done (GetUserStats false (failure 1 w) userID (db w)), after_calls 2 w).
Proof.
  intros H0. unfold db_GetUserStats.
  rewrite (bind_done _ _ _ _ _ (draw_failure_eq w)), H0.
  rewrite (bind_done _ _ _ _ _ (draw_failure_eq (after_calls 1 w))).
  by rewrite failure_after_calls, after_calls_add.
Qed.

Lemma count_rows_incorrect (userID : Z) (d : DB) :
  count_rows userID false d = len (incorrect_rows userID d).
Proof. done. Qed.

Lemma group_by_question_nil (rows : list UserActivity) :
  group_by_question rows = [] ↔ rows = [].
Proof.
  split; [|by intros ->].
  destruct rows as [|r rows]; [done|]. intros Hnil.
  assert (Hin : (QuestionNumber r, group_count (QuestionNumber r) (r :: rows))
                ∈ group_by_question (r :: rows)).
  { apply elem_of_group_by_question. split; [left|done]. }
  rewrite Hnil in Hin. by apply elem_of_nil in Hin.
Qed.

Lemma substring_length (n : nat) (s : string) :
  (String.length (String.substring 0 n s) ≤ n)%nat.
Proof.
  revert s. induction n as [|n IH]; intros [|c s]; simpl; try lia.
  specialize (IH s). lia.
Qed.

Lemma append_length (s1 s2 : string) :
  String.length (s1 +:+ s2) = (String.length s1 + String.length s2)%nat.
Proof. induction s1 as [|c s1 IH]; simpl; [done|]. by rewrite IH. Qed.

Lemma omap_length_le {A B} (f : A → option B) (l : list A) :
  (length (omap f l) ≤ length l)%nat.
Proof.
  induction l as [|x l IH]; csimpl; [done|]. destruct (f x); csimpl; lia.
Qed.

Section statistics.
Variable questions : list Question.
Variable order_by : list (Z * Z) → list (Z * Z).
Hypothesis order_by_perm : ∀ l, order_by l ≡ₚ l.

Lemma top_missed_rows_nil (userID : Z) (d : DB) :
  top_missed_rows order_by userID 3 d = [] ↔ count_rows userID false d = 0.
Proof.
  rewrite count_rows_incorrect. unfold top_missed_rows, sql_limit. simpl.
  set (groups := group_by_question (incorrect_rows userID d)).
  assert (Hg : order_by groups = [] ↔ incorrect_rows userID d = []).
  { rewrite <- group_by_question_nil. fold groups.
    pose proof (order_by_perm groups) as Hp. split; intros Hnil.
    - rewrite Hnil in Hp. symmetry. by apply Permutation_nil_l.
    - rewrite Hnil in Hp |- *. by apply Permutation_nil_r. }
  clearbody groups. unfold len. split.
  - intros Htake. destruct (order_by groups) as [|x l]; [|done].
    by rewrite (proj1 Hg eq_refl).
  - intros Hlen.
    assert (Hrows : incorrect_rows userID d = []).
    { destruct (incorrect_rows userID d); [done|]. simpl in Hlen. lia. }
    apply Hg in Hrows. by rewrite Hrows.
Qed.

Lemma challengingLine_spec (i : nat) (row : UserActivity) (pos n : Z)
    (text : string) :
  challengingLine questions i row = Some (pos, n, text)
  ↔ ∃ question,
      find_question questions (QuestionNumber row) = Some question
      ∧ pos = Z.of_nat i + 1 ∧ n = QuestionNumber row
      ∧ ((String.length (QuestionText question) ≤ 50)%nat →
         text = QuestionText question)
      ∧ ((50 < String.length (QuestionText question))%nat →
         text = String.substring 0 47 (QuestionText question) +:+ "...").
Proof.
  unfold challengingLine.
  destruct (find_question questions (QuestionNumber row)) as [question|]
    eqn:Hfind; [|split; [done|by intros (? & ? & _)]].
  destruct (find_question_Some _ _ _ Hfind) as [_ Hn].
  destruct (Z.ltb_spec 50 (Z.of_nat (String.length (QuestionText question))))
    as [Hlong|Hshort].
  - split.
    + intros [= <- <- <-]. exists question. split_and!; try done. lia.
    + intros (question' & [= <-] & -> & -> & _ & Htext).
      rewrite Htext by lia. by rewrite Hn.
  - split.
    + intros [= <- <- <-]. exists question. split_and!; try done. lia.
    + intros (question' & [= <-] & -> & -> & Htext & _).
      rewrite Htext by lia. by rewrite Hn.
Qed.

Lemma challengingLine_length (i : nat) (row : UserActivity) (pos n : Z)
    (text : string) :
  challengingLine questions i row = Some (pos, n, text) →
  (String.length text ≤ 50)%nat.
Proof.
  intros (question & _ & _ & _ & Hshort & Hlong)%challengingLine_spec.
  destruct (decide (String.length (QuestionText question) ≤ 50)%nat) as [H|H].
  - by rewrite Hshort.
  - rewrite Hlong by lia. rewrite append_length. simpl.
    pose proof (substring_length 47 (QuestionText question)). lia.
Qed.

Lemma elem_of_lines {A B} (f : nat → A → option B) (l : list A) (x : B) :
  x ∈ omap id (imap f l) ↔ ∃ i y, l !! i = Some y ∧ f i y = Some x.
Proof.
  rewrite list_elem_of_omap. split.
  - intros (o & Ho & Heq). simpl in Heq. subst o.
    apply elem_of_lookup_imap in Ho as (i & y & Heq & Hy).
    by exists i, y.
  - intros (i & y & Hy & Hx). exists (Some x). split; [|done].
    apply elem_of_lookup_imap. exists i, y. by rewrite Hx.
Qed.

Lemma lines_by_rank {A} (f : nat → A → option (Z * Z * string)) (c : Z)
    (l : list A) :
  (∀ i y x, f i y = Some x → x.1.1 = Z.of_nat i + c) →
  StronglySorted (λ a b, a.1.1 < b.1.1) (omap id (imap f l)).
Proof.
  revert f c. induction l as [|y l IH]; intros f c Hf; [constructor|].
  rewrite imap_cons. csimpl.
  assert (Hrest : StronglySorted (λ a b, a.1.1 < b.1.1)
                    (omap id (imap (f ∘ S) l))).
  { apply (IH _ (c + 1)). intros i y' x Hx. rewrite (Hf _ _ _ Hx). lia. }
  destruct (f O y) as [x|] eqn:Hx; [|done]. simpl. constructor; [done|].
  apply Forall_forall. intros b (i & y' & _ & Hb)%elem_of_lines.
  rewrite (Hf _ _ _ Hx), (Hf _ _ _ Hb). lia.
Qed.

(** X18: when the two counting queries succeed, /stat sends one message
    with the numbers of the user's Activity Records (all, correct,
    incorrect) and changes nothing else.  The list of challenging questions
    is left out exactly when the user has no incorrect answer or the
    ranking query fails, which does not keep the message from being sent.
    Its lines are exactly those of the questions that
    [GetMostFrequentIncorrectQuestions] ranks and that the question set
    holds: the line of the question ranked at place [i + 1] carries the
    number [i + 1], the number of the question and its text, cut to 47
    bytes and three dots when it has more than 50; the lines come in the
    order of the ranks, so there are at most three, each for a question the
    user has answered incorrectly. *)
Theorem stat_message (message : Message) (w : World) :
  failure 0 w = false →
  failure 1 w = false →
  let userID := msg_From message in
  let correct := count_rows userID true (db w) in
  let incorrect := count_rows userID false (db w) in
  let ranked :=
    QuestionNumber <$>
      (GetMostFrequentIncorrectQuestions order_by false userID 3 (db w)).1 in
  ∃ w' challenging,
    handleStatCommand questions order_by message w = (Done tt, w')
    ∧ outbox w'
      = outbox w ++
        [SendStats (msg_Chat message) (correct + incorrect) correct incorrect
           challenging]
    ∧ same_state w w'
    ∧ userQuestions w' = userQuestions w
    ∧ (challenging = None ↔ incorrect = 0 ∨ failure 2 w = true)
    ∧ ∀ lines, challenging = Some lines →
        (∀ pos n text,
           (pos, n, text) ∈ lines
           ↔ ∃ i question,
               ranked !! i = Some n ∧ pos = Z.of_nat i + 1
               ∧ find_question questions n = Some question
               ∧ ((String.length (QuestionText question) ≤ 50)%nat →
                  text = QuestionText question)
               ∧ ((50 < String.length (QuestionText question))%nat →
                  text = String.substring 0 47 (QuestionText question)
                         +:+ "..."))
        ∧ StronglySorted (λ a b, a.1.1 < b.1.1) lines
        ∧ (length lines ≤ 3)%nat
        ∧ ∀ pos n text, (pos, n, text) ∈ lines →
            1 ≤ pos ≤ 3 ∧ 0 < incorrect_count userID n (db w)
            ∧ (String.length text ≤ 50)%nat.
Proof.
  intros H0 H1 userID correct incorrect ranked.
  unfold handleStatCommand.
  rewrite (bind_done _ _ _ _ _ (run_db_GetUserStats _ _ H0)), H1.
  cbn [GetUserStats]. fold userID correct incorrect.
  assert (Hc : 0 ≤ correct) by (unfold correct, count_rows, len; lia).
  assert (Hi : 0 ≤ incorrect) by (unfold incorrect, count_rows, len; lia).
  destruct (Z.ltb_spec 0 (correct + incorrect)) as [Htotal|Htotal].
  - unfold bind at 1 2.
    rewrite (draw_failure_eq (after_calls 2 w)), failure_after_calls,
      after_calls_add.
    cbn [Nat.add]. destruct (failure 2 w) eqn:H2.
    + exists (with_outbox
                (outbox w ++
                   [SendStats (msg_Chat message) (correct + incorrect) correct
                      incorrect None])
                (after_calls 3 w)), None.
      split_and!; [done..| |done]. split; [by right|done].
    + cbn [GetMostFrequentIncorrectQuestions]. unfold bind at 1, gets.
      set (rows := top_missed_rows order_by userID 3 (db (after_calls 3 w))).
      set (found := (λ row, {| UserID := userID; QuestionNumber := row.1;
                               AnswerNumber := 0; Correct := false;
                               Timestamp := 0 |}) <$> rows).
      assert (Hranked : ranked = QuestionNumber <$> found) by done.
      assert (Hlen : len found = len rows).
      { unfold found, len. by rewrite length_fmap. }
      assert (Hrows : len rows ≤ 3) by (by apply sql_limit_length).
      pose proof (top_missed_rows_nil userID (db w)) as Hnil.
      fold incorrect in Hnil.
      change (top_missed_rows order_by userID 3 (db w)) with rows in Hnil.
      destruct (Z.ltb_spec 0 (len found)) as [Hfound|Hfound].
      * eexists (with_outbox _ (after_calls 3 w)), (Some _).
        split_and!; [done..| |].
        { split; [done|]. intros [Hzero|?]; [|done].
          apply Hnil in Hzero. rewrite Hlen, Hzero in Hfound.
          unfold len in Hfound. simpl in Hfound. lia. }
        intros lines [= <-].
        assert (Hline : ∀ pos n text,
          (pos, n, text) ∈ omap id (imap (challengingLine questions) found)
          ↔ ∃ i row, found !! i = Some row
                     ∧ challengingLine questions i row = Some (pos, n, text))
          by (intros; apply elem_of_lines).
        split_and!.
        { intros pos n text. rewrite Hline, Hranked. split.
          - intros (i & row & Hrow & Heq).
            apply challengingLine_spec in Heq
              as (question & Hq & -> & -> & Hshort & Hlong).
            exists i, question. rewrite list_lookup_fmap, Hrow.
            by split_and!.
          - intros (i & question & Hn & -> & Hq & Hshort & Hlong).
            rewrite list_lookup_fmap in Hn.
            destruct (found !! i) as [row|] eqn:Hrow; [|done].
            injection Hn as <-. exists i, row. split; [done|].
            apply challengingLine_spec. exists question. by split_and!. }
        { apply (lines_by_rank _ 1). intros i row [[pos n] text] Heq.
          by apply challengingLine_spec in Heq as (? & _ & -> & _). }
        { etransitivity; [apply omap_length_le|].
          rewrite length_imap. unfold len in Hlen, Hrows. lia. }
        intros pos n text (i & row & Hrow & Heq)%Hline.
        pose proof (challengingLine_length _ _ _ _ _ Heq) as Htext.
        apply challengingLine_spec in Heq as (question & _ & -> & -> & _).
        split; [|split; [|done]].
        { apply lookup_lt_Some in Hrow. unfold len in Hlen, Hrows. lia. }
        unfold found in Hrow. rewrite list_lookup_fmap in Hrow.
        destruct (rows !! i) as [[q c]|] eqn:Hi'; [|done].
        simpl in Hrow. injection Hrow as <-. simpl.
        apply list_elem_of_lookup_2 in Hi'.
        destruct (sql_limit_prefix 3
                    (order_by (group_by_question
                                 (incorrect_rows userID (db w)))))
          as [rest Hrest].
        assert (Hin : (q, c)
                      ∈ group_by_question (incorrect_rows userID (db w))).
        { rewrite <- (order_by_perm _), Hrest. apply elem_of_app. by left. }
        apply elem_of_group_by_question in Hin as [Hq _].
        rewrite incorrect_count_group. by apply group_count_pos.
      * exists (with_outbox
                  (outbox w ++
                     [SendStats (msg_Chat message) (correct + incorrect)
                        correct incorrect None])
                  (after_calls 3 w)), None.
        split_and!; [done..| |done]. split; [|done]. intros _. left.
        apply Hnil. destruct rows; [done|].
        rewrite Hlen in Hfound. unfold len in Hfound. simpl in Hfound. lia.
  - exists (with_outbox
              (outbox w ++
                 [SendStats (msg_Chat message) (correct + incorrect) correct
                    incorrect None])
              (after_calls 2 w)), None.
    split_and!; [done..| |done]. split; [|done]. intros _. left. lia.
Qed.

End statistics.

Lemma stat_message_witness :
  let message := {| msg_From := 1; msg_Chat := 1; msg_Text := "/stat" |} in
  let w :=
    with_db
      (record_all
         [ {| UserID := 1; QuestionNumber := 6; AnswerNumber := 0;
              Correct := false; Timestamp := 10 |};
           {| UserID := 1; QuestionNumber := 5; AnswerNumber := 1;
              Correct := false; Timestamp := 11 |};
           {| UserID := 1; QuestionNumber := 6; AnswerNumber := 2;
              Correct := true; Timestamp := 12 |};
           {| UserID := 1; QuestionNumber := 6; AnswerNumber := 1;
              Correct := false; Timestamp := 13 |};
           {| UserID := 2; QuestionNumber := 7; AnswerNumber := 1;
              Correct := false; Timestamp := 14 |} ] database.empty)
      (started (answering [])) in
  ∃ w',
    handleStatCommand example_questions order_by_merge_sort message w
    = (Done tt, w')
    ∧ outbox w' = [SendStats 1 4 1 3 (Some [(1, 6, "Q6"); (2, 5, "Q5")])].
Proof.
  intros message w.
  destruct (stat_message example_questions order_by_merge_sort
              (merge_sort_Permutation count_desc) message w)
    as (w' & challenging & Hrun & Hout & _); [reflexivity..|].
  exists w'. split; [exact Hrun|].
  vm_compute in Hrun. injection Hrun as <-. reflexivity.
Defined.

(** ** The commands *)

(** X19: a command is recognised by its prefix, whatever follows it, and
    the four prefixes exclude each other, so that the order of the cases
    does not matter: a text that starts with /start, /next, /help or /stat
    goes to the handler of that command, and a text that does not start
    with a slash gets the notice of an unknown command. *)
Theorem commands_by_prefix (questions : list Question)
    (order_by : list (Z * Z) → list (Z * Z)) (from chat : Z) (rest : string) :
  let message text :=
    {| msg_From := from; msg_Chat := chat; msg_Text := text |} in
  handleMessage questions order_by (message ("/start" +:+ rest))
  = handleStartCommand questions (message ("/start" +:+ rest))
  ∧ handleMessage questions order_by (message ("/next" +:+ rest))
    = handleNextCommand questions (message ("/next" +:+ rest))
  ∧ handleMessage questions order_by (message ("/help" +:+ rest))
    = handleHelpCommand questions (message ("/help" +:+ rest))
  ∧ handleMessage questions order_by (message ("/stat" +:+ rest))
    = handleStatCommand questions order_by (message ("/stat" +:+ rest))
  ∧ (strings.HasPrefix rest "/" = false →
     handleMessage questions order_by (message rest)
     = sendMessage chat
         "Unknown command. Use /start to begin, /next for a new question, or /help for assistance.").
Proof.
  intros message. unfold handleMessage, cmdStart, cmdNext, cmdHelp, cmdStat.
  cbn [msg_Text msg_Chat message].
  change ("/" +:+ "start") with "/start". change ("/" +:+ "next") with "/next".
  change ("/" +:+ "help") with "/help". change ("/" +:+ "stat") with "/stat".
  split_and!.
  - by rewrite HasPrefix_app.
  - assert (strings.HasPrefix ("/next" +:+ rest) "/start" = false) as ->
      by (by vm_compute).
    by rewrite HasPrefix_app.
  - assert (strings.HasPrefix ("/help" +:+ rest) "/start" = false) as ->
      by (by vm_compute).
    assert (strings.HasPrefix ("/help" +:+ rest) "/next" = false) as ->
      by (by vm_compute).
    by rewrite HasPrefix_app.
  - assert (strings.HasPrefix ("/stat" +:+ rest) "/start" = false) as ->
      by (by vm_compute).
    assert (strings.HasPrefix ("/stat" +:+ rest) "/next" = false) as ->
      by (by vm_compute).
    assert (strings.HasPrefix ("/stat" +:+ rest) "/help" = false) as ->
      by (by vm_compute).
    by rewrite HasPrefix_app.
  - intros Hrest.
    assert (Hno : ∀ p, strings.HasPrefix rest (String "/" p) = false).
    { intros p. destruct rest as [|c rest']; [done|]. simpl in Hrest |- *.
      destruct (bool_decide (c = "/"%char)); [|done].
      by destruct rest'. }
    by rewrite !Hno.
Qed.

Lemma commands_by_prefix_witness :
  handleMessage example_questions order_by_merge_sort
    {| msg_From := 1; msg_Chat := 1; msg_Text := "hello" |}
  = sendMessage 1
      "Unknown command. Use /start to begin, /next for a new question, or /help for assistance.".
Proof.
  by apply (commands_by_prefix example_questions order_by_merge_sort 1 1
              "hello").
Defined.

(** ** The configuration *)

Lemma Getenv_insert_empty (environ : gmap string string) (key name : string) :
  Getenv (<[key := ""]> environ) name = Getenv (delete key environ) name.
Proof.
  unfold Getenv. destruct (decide (key = name)) as [->|Hne].
  - by rewrite lookup_insert_eq, lookup_delete_eq.
  - by rewrite lookup_insert_ne, lookup_delete_ne.
Qed.

(** X20: [Load] gives a configuration exactly when BOT_TOKEN and
    DEEPSEEK_API_KEY are set to values that are not empty; it then holds the
    values of these two variables and the value of DB_PATH, or the path
    ./data/lebentest.db when DB_PATH is not set or empty, so that no field
    is empty.  Otherwise the error names the first of the two variables
    that is missing.  A variable set to the empty string counts as not set,
    and no variable other than the three that are read has any influence. *)
Theorem Load_needs_both_keys (environ : gmap string string) :
  ((∃ c, Load environ = inl c)
   ↔ Getenv environ "BOT_TOKEN" ≠ ""
     ∧ Getenv environ "DEEPSEEK_API_KEY" ≠ "")
  ∧ (∀ c, Load environ = inl c →
          BotToken c = Getenv environ "BOT_TOKEN"
          ∧ DeepseekAPIKey c = Getenv environ "DEEPSEEK_API_KEY"
          ∧ (Getenv environ "DB_PATH" ≠ "" →
             DatabasePath c = Getenv environ "DB_PATH")
          ∧ (Getenv environ "DB_PATH" = "" →
             DatabasePath c = "./data/lebentest.db")
          ∧ BotToken c ≠ "" ∧ DeepseekAPIKey c ≠ "" ∧ DatabasePath c ≠ "")
  ∧ (Getenv environ "BOT_TOKEN" = "" → Load environ = inr BotTokenRequired)
  ∧ (Getenv environ "BOT_TOKEN" ≠ "" →
     Getenv environ "DEEPSEEK_API_KEY" = "" →
     Load environ = inr DeepseekAPIKeyRequired)
  ∧ (∀ key, Load (<[key := ""]> environ) = Load (delete key environ))
  ∧ (∀ key value,
       key ∉ ["BOT_TOKEN"; "DEEPSEEK_API_KEY"; "DB_PATH"] →
       Load (<[key := value]> environ) = Load environ).
Proof.
  split_and!.
  - unfold Load. repeat case_bool_decide; split;
      try (intros [c [=]]); try (intros [? ?]); try done; by eexists.
  - intros c. unfold Load. repeat case_bool_decide; intros [= <-]; simpl;
      by split_and!.
  - intros Hempty. unfold Load. by rewrite bool_decide_eq_true_2.
  - intros Htoken Hkey. unfold Load.
    by rewrite bool_decide_eq_false_2, bool_decide_eq_true_2.
  - intros key. unfold Load. by rewrite !Getenv_insert_empty.
  - intros key value Hkey. unfold Load, Getenv.
    rewrite !lookup_insert_ne; [done|..]; intros ->; apply Hkey;
      repeat constructor.
Qed.

Lemma Load_needs_both_keys_witness :
  Load {[ "BOT_TOKEN" := "token"; "DEEPSEEK_API_KEY" := "key";
          "DB_PATH" := ""; "HOME" := "/root" ]}
  = inl {| BotToken := "token"; DeepseekAPIKey := "key";
           DatabasePath := "./data/lebentest.db" |}
  ∧ Load {[ "DEEPSEEK_API_KEY" := "key"; "DB_PATH" := "/tmp/test.db" ]}
    = inr BotTokenRequired
  ∧ Load {[ "BOT_TOKEN" := "token"; "DB_PATH" := "/tmp/test.db" ]}
    = inr DeepseekAPIKeyRequired.
Proof.
  split_and!.
  - destruct (Load_needs_both_keys
                {[ "BOT_TOKEN" := "token"; "DEEPSEEK_API_KEY" := "key";
                   "DB_PATH" := ""; "HOME" := "/root" ]})
      as (Hloads & Hfields & _).
    destruct (proj2 Hloads) as [c Hc]; [by vm_compute|].
    destruct (Hfields c Hc) as (Htoken & Hkey & _ & Hpath & _).
    rewrite Hc. f_equal. destruct c as [token key path]. simpl in *.
    rewrite Htoken, Hkey, Hpath by reflexivity. reflexivity.
  - by apply (Load_needs_both_keys
                {[ "DEEPSEEK_API_KEY" := "key"; "DB_PATH" := "/tmp/test.db" ]}).
  - by apply (Load_needs_both_keys
                {[ "BOT_TOKEN" := "token"; "DB_PATH" := "/tmp/test.db" ]}).
Defined.
